(** * Thumb War server: a shallow embedding of [server.js]

    The server keeps a registry of rooms ([rooms], a JS [Map]), one closure
    variable [roomId] per connection, and one recurring timer per room.  The
    handlers [joinRoom], [input], [disconnect] and the timer callback
    [tickRoom] are embedded below as state-passing functions over that store,
    and [step] runs them one event at a time.

    - JS numbers are IEEE-754 binary64 values: they are Rocq's primitive
      [float], whose [+], [-], [*], [/], [sqrt] and comparisons are the same
      correctly rounded binary64 operations.  General facts about them are
      proved from the specification of those operations ([FloatAxioms]).
    - JS objects used as dictionaries enumerate their string keys in
      insertion order (socket ids are 20-character strings, never array
      indices), so [room.players] is an association list.
    - The [ack] reply of [joinRoom] is the second component of its result.
      The [io.to(roomId).emit] broadcasts and [socket.join] only send data
      out and are no part of the store: no handler reads them back.  The
      messages an event sends are given separately ([stepEmits]).
    - [rid] is a string or absent, room codes are read in the ASCII range, and
      the [data] of an [input] is an object whose five fields are read
      through [ToBoolean]. *)

From Stdlib Require Import ZArith Floats String Ascii List Bool Lia.
From stdpp Require Import gmap strings list fin_maps.

#[local] Set Warnings "-inexact-float".
#[local] Open Scope string_scope.
#[local] Open Scope list_scope.

(** ** JS numbers *)

Module JS.

#[local] Open Scope float_scope.

(** [ToBoolean] on a number: [+0], [-0] and [NaN] are falsy. *)
Definition truthy (x : float) : bool := negb (is_zero x || is_nan x).

(** [x || d] on numbers. *)
Definition or_else (x d : float) : float := if truthy x then x else d.

Definition is_neg_zero (x : float) : bool := is_zero x && get_sign x.
Definition is_pos_zero (x : float) : bool := is_zero x && negb (get_sign x).

(** [Math.max(a, b)]: NaN if either argument is NaN; [+0] is larger
    than [-0]. *)
Definition Math_max (a b : float) : float :=
  if is_nan a || is_nan b then nan
  else if is_neg_zero a && is_pos_zero b then b
  else if a <? b then b else a.

(** [Math.min(a, b)]: NaN if either argument is NaN; [-0] is smaller
    than [+0]. *)
Definition Math_min (a b : float) : float :=
  if is_nan a || is_nan b then nan
  else if is_pos_zero a && is_neg_zero b then b
  else if b <? a then b else a.

(** [Math.hypot(x, y)].  ECMAScript leaves the result
    implementation-approximated; it is taken here as the rounded square
    root of the rounded sum of squares. *)
Definition Math_hypot (x y : float) : float := sqrt (x * x + y * y).

(** [b ? 1 : 0] *)
Definition of_bool (b : bool) : float := if b then 1 else 0.

End JS.

(** ** JS strings (ASCII range) and the room-code normalisation *)

Definition is_space (c : ascii) : bool :=
  let n := nat_of_ascii c in
  ((9 <=? n)%nat && (n <=? 13)%nat) || (n =? 32)%nat.

Fixpoint trimStart (s : string) : string :=
  match s with
  | EmptyString => EmptyString
  | String c s' => if is_space c then trimStart s' else s
  end.

Fixpoint trimEnd (s : string) : string :=
  match s with
  | EmptyString => EmptyString
  | String c s' =>
      match trimEnd s' with
      | EmptyString => if is_space c then EmptyString else String c EmptyString
      | t => String c t
      end
  end.

(** [s.trim()] *)
Definition trim (s : string) : string := trimEnd (trimStart s).

Definition upper_char (c : ascii) : ascii :=
  let n := nat_of_ascii c in
  if ((97 <=? n)%nat && (n <=? 122)%nat) then ascii_of_nat (n - 32) else c.

(** [s.toUpperCase()] *)
Fixpoint toUpperCase (s : string) : string :=
  match s with
  | EmptyString => EmptyString
  | String c s' => String (upper_char c) (toUpperCase s')
  end.

(** [String(rid || '').trim().toUpperCase()]; a missing or falsy [rid] is
    [None]. *)
Definition normalizeRoomId (rid : option string) : string :=
  toUpperCase (trim (default "" rid)).

(** ** JS objects used as dictionaries

    String keys are enumerated in insertion order; assigning to an existing
    key keeps its position. *)

Section Obj.
Context {V : Type}.

Fixpoint obj_get (k : string) (o : list (string * V)) : option V :=
  match o with
  | [] => None
  | (k', v) :: o' => if bool_decide (k' = k) then Some v else obj_get k o'
  end.

Fixpoint obj_set (k : string) (v : V) (o : list (string * V)) : list (string * V) :=
  match o with
  | [] => [(k, v)]
  | (k', v') :: o' =>
      if bool_decide (k' = k) then (k', v) :: o' else (k', v') :: obj_set k v o'
  end.

Fixpoint obj_delete (k : string) (o : list (string * V)) : list (string * V) :=
  match o with
  | [] => []
  | (k', v') :: o' =>
      if bool_decide (k' = k) then obj_delete k o' else (k', v') :: obj_delete k o'
  end.

Definition obj_keys (o : list (string * V)) : list string := map fst o.
Definition obj_values (o : list (string * V)) : list V := map snd o.
End Obj.

(** ** Data model *)

Inductive Role := P1 | P2 | P3.

#[global] Instance Role_eq_dec : EqDecision Role.
Proof. solve_decision. Defined.

(** A player object; field [p_f] is the source's [f]. *)
Record Player := mkPlayer {
  p_id : string;
  p_role : Role;
  p_x : float;
  p_y : float;
  p_vx : float;
  p_vy : float;
  p_pressing : bool;
  p_pinTimer : float;
  p_thumbFile : string;
  p_z : Z
}.

(** [room.interval]: never assigned, [null], or a live timer handle. *)
Inductive Interval := IntervalUnset | IntervalNull | IntervalTimer.

Definition running (i : Interval) : bool :=
  match i with IntervalTimer => true | _ => false end.

Record Room := mkRoom {
  players : list (string * Player);
  width : float;
  height : float;
  radius : float;
  winPinSeconds : float;
  winner : option Role;
  interval : Interval
}.

(** The server store: the [rooms] map and, for every open connection, the
    value of its closure variable [roomId] ([None] is [null]). *)
Record Server := mkServer {
  rooms : gmap string Room;
  sockets : gmap string (option string)
}.

Record Config := mkConfig {
  cfg_width : float;
  cfg_height : float;
  cfg_radius : float;
  cfg_winPinSeconds : float
}.

(** The value handed to the [ack] callback of [joinRoom]. *)
Inductive Ack :=
| AckOk (role : Role) (config : Config)
| AckError (error : string).

(** The [data] argument of [joinRoom]; an absent [thumbFile] is [None]. *)
Record JoinData := mkJoinData { jd_thumbFile : option string }.

(** The [data] argument of [input], each field read through [ToBoolean]. *)
Record InputData := mkInputData {
  i_up : bool; i_down : bool; i_left : bool; i_right : bool; i_pressing : bool
}.

Definition set_players (ps : list (string * Player)) (r : Room) : Room :=
  mkRoom ps (width r) (height r) (radius r) (winPinSeconds r) (winner r) (interval r).
Definition set_winner (w : option Role) (r : Room) : Room :=
  mkRoom (players r) (width r) (height r) (radius r) (winPinSeconds r) w (interval r).
Definition set_interval (i : Interval) (r : Room) : Room :=
  mkRoom (players r) (width r) (height r) (radius r) (winPinSeconds r) (winner r) i.

Definition set_pinTimer (t : float) (p : Player) : Player :=
  mkPlayer (p_id p) (p_role p) (p_x p) (p_y p) (p_vx p) (p_vy p) (p_pressing p)
           t (p_thumbFile p) (p_z p).
Definition set_z (z : Z) (p : Player) : Player :=
  mkPlayer (p_id p) (p_role p) (p_x p) (p_y p) (p_vx p) (p_vy p) (p_pressing p)
           (p_pinTimer p) (p_thumbFile p) z.
Definition set_pos (x y : float) (p : Player) : Player :=
  mkPlayer (p_id p) (p_role p) x y (p_vx p) (p_vy p) (p_pressing p)
           (p_pinTimer p) (p_thumbFile p) (p_z p).
Definition set_intent (vx vy : float) (pressing : bool) (p : Player) : Player :=
  mkPlayer (p_id p) (p_role p) (p_x p) (p_y p) vx vy pressing
           (p_pinTimer p) (p_thumbFile p) (p_z p).

(** ** Room registry and role assignment *)

Definition newRoom : Room :=
  mkRoom [] 800%float 500%float 30%float 2.0%float None IntervalUnset.

#[global] Instance Room_inhabited : Inhabited Room := populate newRoom.

Definition createRoomIfNeeded (roomId : string) (rs : gmap string Room) : gmap string Room :=
  match rs !! roomId with
  | Some _ => rs
  | None => <[roomId := newRoom]> rs
  end.

Definition includes (roles : list Role) (r : Role) : bool :=
  bool_decide (r ∈ roles).

Definition assignRole (room : Room) : option Role :=
  let roles := map p_role (obj_values (players room)) in
  if negb (includes roles P1) then Some P1
  else if negb (includes roles P2) then Some P2
  else if negb (includes roles P3) then Some P3
  else None.

(** ** The [joinRoom] handler *)

Definition spawnPositions (room : Room) (role : Role) : float * float :=
  match role with
  | P1 => (width room * 0.2, height room * 0.5)%float
  | P2 => (width room * 0.5, height room * 0.5)%float
  | P3 => (width room * 0.8, height room * 0.5)%float
  end.

(** [(data && data.thumbFile) || 'thumb1.png'] *)
Definition thumbFileOf (data : option JoinData) : string :=
  match data with
  | Some d =>
      match jd_thumbFile d with
      | Some f => if bool_decide (f = "") then "thumb1.png" else f
      | None => "thumb1.png"
      end
  | None => "thumb1.png"
  end.

Definition configOf (room : Room) : Config :=
  mkConfig (width room) (height room) (radius room) (winPinSeconds room).

Definition set_roomId (socket : string) (roomId : string) (st : Server) : Server :=
  mkServer (rooms st) (<[socket := Some roomId]> (sockets st)).

Definition joinRoom (socket : string) (rid : option string) (data : option JoinData)
    (st : Server) : Server * Ack :=
  let roomId := normalizeRoomId rid in
  let st := set_roomId socket roomId st in
  if bool_decide (roomId = "") || (12 <? String.length roomId)%nat then
    (st, AckError "Invalid room id")
  else
    let rs := createRoomIfNeeded roomId (rooms st) in
    let room := rs !!! roomId in
    match assignRole room with
    | None => (mkServer rs (sockets st), AckError "Room is full")
    | Some role =>
        let spawn := spawnPositions room role in
        let thumbFile := thumbFileOf data in
        let me := mkPlayer socket role (fst spawn) (snd spawn) 0%float 0%float
                           false 0%float thumbFile 0%Z in
        let room := set_players (obj_set socket me (players room)) room in
        let playerCount := length (obj_keys (players room)) in
        let room :=
          if (2 <=? playerCount)%nat && negb (running (interval room))
          then set_interval IntervalTimer (set_winner None room)
          else room in
        (mkServer (<[roomId := room]> rs) (sockets st), AckOk role (configOf room))
    end.

(** ** The [input] handler *)

Definition speed : float := 3.2%float.

(** The velocity stored for the four direction flags. *)
Definition velocityOf (data : InputData) : float * float :=
  let vx := (JS.of_bool (i_right data) - JS.of_bool (i_left data))%float in
  let vy := (JS.of_bool (i_down data) - JS.of_bool (i_up data))%float in
  let mag := JS.or_else (JS.Math_hypot vx vy) 1%float in
  ((vx / mag) * speed, (vy / mag) * speed)%float.

(** The z-index block: a pressing sender goes on top and every other player
    of the room is lowered; a sender that is not pressing is lowered. *)
Definition applyZ (socket : string) (me : Player) (ps : list (string * Player))
    : list (string * Player) :=
  if p_pressing me then
    map (fun kv => if bool_decide (fst kv = socket) then (fst kv, set_z 1 me)
                   else (fst kv, set_z 0 (snd kv))) ps
  else
    obj_set socket (set_z 0 me) ps.

Definition currentRoomId (socket : string) (st : Server) : option string :=
  match sockets st !! socket with
  | Some (Some roomId) => if bool_decide (roomId = "") then None else Some roomId
  | _ => None
  end.

Definition input (socket : string) (data : InputData) (st : Server) : Server :=
  match currentRoomId socket st with
  | None => st
  | Some roomId =>
      match rooms st !! roomId with
      | None => st
      | Some room =>
          match obj_get socket (players room) with
          | None => st
          | Some me =>
              if bool_decide (winner room ≠ None) then st
              else
                let v := velocityOf data in
                let me := set_intent (fst v) (snd v) (i_pressing data) me in
                let ps := applyZ socket me (obj_set socket me (players room)) in
                mkServer (<[roomId := set_players ps room]> (rooms st)) (sockets st)
          end
      end
  end.

(** ** The [disconnect] handler *)

Definition disconnect (socket : string) (st : Server) : Server :=
  match currentRoomId socket st with
  | None => st
  | Some roomId =>
      match rooms st !! roomId with
      | None => st
      | Some room =>
          let room := set_players (obj_delete socket (players room)) room in
          let playerCount := length (obj_keys (players room)) in
          let room :=
            if (playerCount <? 2)%nat && running (interval room)
            then set_winner None (set_interval IntervalNull room)
            else room in
          let rs := <[roomId := room]> (rooms st) in
          mkServer (if (playerCount =? 0)%nat then delete roomId rs else rs) (sockets st)
      end
  end.

(** ** The game loop: [tickRoom] *)

Definition dt : float := (1 / 60)%float.

(** [Math.max(lo, Math.min(hi, v))] *)
Definition clamp (lo hi v : float) : float := JS.Math_max lo (JS.Math_min hi v).

(** Move & clamp, the body of the first loop. *)
Definition movePlayer (room : Room) (p : Player) : Player :=
  let x := (p_x p + p_vx p)%float in
  let y := (p_y p + p_vy p)%float in
  set_pos (clamp (radius room) (width room - radius room)%float x)
          (clamp (radius room) (height room - radius room)%float y) p.

(** [p.pinTimer += dt] and [p.pinTimer = Math.max(0, p.pinTimer - dt * 0.5)] *)
Definition gain (p : Player) : Player := set_pinTimer (p_pinTimer p + dt)%float p.
Definition decay (p : Player) : Player :=
  set_pinTimer (JS.Math_max 0%float (p_pinTimer p - dt * 0.5)%float) p.

(** The body of the inner pin loop for [a = playersArr[i]] and
    [b = playersArr[j]]; the updated [a] and [b] are returned. *)
Definition pinPair (room : Room) (a b : Player) : Player * Player :=
  let dist := JS.Math_hypot (p_x a - p_x b)%float (p_y a - p_y b)%float in
  if (dist <? radius room * 1.4)%float then
    let a' := if (p_z a >? p_z b)%Z && p_pressing a then gain a else decay a in
    let b' := if (p_z b >? p_z a)%Z && p_pressing b then gain b else decay b in
    (a', b')
  else
    (decay a, decay b).

(** One iteration of the inner loop: [a] and [b] are the objects at indices
    [i] and [j] of [playersArr], both mutated in place. *)
Definition pinStep (room : Room) (i j : nat) (playersArr : list Player) : list Player :=
  match playersArr !! i, playersArr !! j with
  | Some a, Some b =>
      let '(a', b') := pinPair room a b in
      <[j := b']> (<[i := a']> playersArr)
  | _, _ => playersArr
  end.

(** [for (let j = i + 1; j < playersArr.length; j++)] *)
Definition pinInner (room : Room) (n i : nat) (playersArr : list Player) : list Player :=
  fold_left (fun arr j => pinStep room i j arr) (seq (S i) (n - S i)) playersArr.

(** [for (let i = 0; i < playersArr.length; i++)] *)
Definition pinLoop (room : Room) (playersArr : list Player) : list Player :=
  let n := length playersArr in
  fold_left (fun arr i => pinInner room n i arr) (seq 0 n) playersArr.

(** [playersArr.find(p => p.pinTimer >= room.winPinSeconds)] *)
Definition findWinner (room : Room) (playersArr : list Player) : option Player :=
  List.find (fun p => (winPinSeconds room <=? p_pinTimer p)%float) playersArr.

(** The body of [tickRoom] on the room object [rooms.get(roomId)].
    [playersArr] aliases the player objects of [room.players], so the loops'
    mutations are written back under the same keys. *)
Definition tickRoomObj (room : Room) : Room :=
  let playersArr := obj_values (players room) in
  if (length playersArr <? 2)%nat then room
  else
    let playersArr := map (movePlayer room) playersArr in
    let playersArr := pinLoop room playersArr in
    let room := set_players (combine (obj_keys (players room)) playersArr) room in
    match findWinner room playersArr, winner room with
    | Some w, None => set_interval IntervalNull (set_winner (Some (p_role w)) room)
    | _, _ => room
    end.

Definition tickRoom (roomId : string) (st : Server) : Server :=
  match rooms st !! roomId with
  | None => st
  | Some room => mkServer (<[roomId := tickRoomObj room]> (rooms st)) (sockets st)
  end.

(** ** The event loop

    Handlers run to completion one at a time.  A connection's handlers exist
    between its [Connect] and its [Disconnect]; a room's timer fires only
    while [room.interval] holds a live handle. *)

Inductive Event :=
| Connect (socket : string)
| JoinRoom (socket : string) (rid : option string) (data : option JoinData)
| Input (socket : string) (data : InputData)
| Disconnect (socket : string)
| Tick (roomId : string).

Definition connected (socket : string) (st : Server) : bool :=
  bool_decide (is_Some (sockets st !! socket)).

Definition timerLive (roomId : string) (st : Server) : bool :=
  match rooms st !! roomId with
  | Some room => running (interval room)
  | None => false
  end.

Definition step (st : Server) (e : Event) : Server :=
  match e with
  | Connect socket =>
      if connected socket st then st
      else mkServer (rooms st) (<[socket := None]> (sockets st))
  | JoinRoom socket rid data =>
      if connected socket st then fst (joinRoom socket rid data st) else st
  | Input socket data =>
      if connected socket st then input socket data st else st
  | Disconnect socket =>
      if connected socket st then
        let st := disconnect socket st in
        mkServer (rooms st) (delete socket (sockets st))
      else st
  | Tick roomId =>
      if timerLive roomId st then tickRoom roomId st else st
  end.

Definition initial : Server := mkServer ∅ ∅.

Definition run (st : Server) (trace : list Event) : Server := fold_left step trace st.

Inductive reachable : Server -> Prop :=
| reachable_initial : reachable initial
| reachable_step st e : reachable st -> reachable (step st e).

Definition playerCount (room : Room) : nat := length (obj_keys (players room)).

(** The players registered under a room code; none when the room does not
    exist. *)
Definition playersOf (roomId : string) (st : Server) : list (string * Player) :=
  match rooms st !! roomId with
  | Some room => players room
  | None => []
  end.

(** ** Order on binary64 values

    [SFcompare] orders the non-NaN values lexicographically by sign class,
    exponent and mantissa; [sf_key] makes that order explicit in [Z]. *)

Definition sf_key (x : spec_float) : Z * Z * Z :=
  match x with
  | S754_infinity true => (-2, 0, 0)
  | S754_finite true m e => (-1, - e, Z.neg m)
  | S754_zero _ => (0, 0, 0)
  | S754_nan => (0, 0, 0)
  | S754_finite false m e => (1, e, Z.pos m)
  | S754_infinity false => (2, 0, 0)
  end%Z.

Definition lex_compare (a b : Z * Z * Z) : comparison :=
  match a, b with
  | (a1, a2, a3), (b1, b2, b3) =>
      match (a1 ?= b1)%Z with
      | Eq => match (a2 ?= b2)%Z with Eq => (a3 ?= b3)%Z | c => c end
      | c => c
      end
  end.

Definition lex_lt (a b : Z * Z * Z) : Prop :=
  (a.1.1 < b.1.1 \/ (a.1.1 = b.1.1 /\ (a.1.2 < b.1.2 \/ (a.1.2 = b.1.2 /\ a.2 < b.2))))%Z.

Definition fkey (x : float) : Z * Z * Z := sf_key (Prim2SF x).

(** [x] is a number, i.e. not NaN. *)
Definition fnum (x : float) : Prop := Prim2SF x <> S754_nan.

(** [x <= y] and [x < y] as JS evaluates them. *)
Definition fle (x y : float) : Prop := (x <=? y)%float = true.
Definition flt (x y : float) : Prop := (x <? y)%float = true.

Definition sf_signed (s : bool) (x : spec_float) : Prop :=
  match x with
  | S754_zero s' | S754_infinity s' | S754_finite s' _ _ => s' = s
  | S754_nan => False
  end.

Definition sf_finite (x : spec_float) : Prop :=
  match x with S754_zero _ | S754_finite _ _ _ => True | _ => False end.

Definition sf_nonneg (x : spec_float) : Prop :=
  match x with
  | S754_zero _ => True
  | S754_infinity s | S754_finite s _ _ => s = false
  | S754_nan => False
  end.

(** [x] is neither NaN nor infinite. *)
Definition ffinite (x : float) : Prop := sf_finite (Prim2SF x).

(** ** Properties of rooms and players *)

(** The tick loop runs exactly when the room has two players or more and no
    recorded winner. *)
Definition loopInv (room : Room) : Prop :=
  running (interval room) = true <-> (2 <= playerCount room /\ winner room = None).

(** The "dominant" flag of the specification is [z = 1]. *)
Definition dominant (p : Player) : bool := bool_decide (p_z p = 1%Z).
Definition dominantActing (p : Player) : bool := dominant p && p_pressing p.

Definition zFlags (ps : list Player) : Prop :=
  Forall (fun p => p_z p = 0%Z \/ p_z p = 1%Z) ps.

Definition dominantCount (ps : list Player) : nat :=
  length (List.filter dominant ps).

Definition atMostOneDominant (ps : list Player) : Prop := dominantCount ps <= 1.

(** No two players hold the same seat. *)
Definition distinctRoles (ps : list Player) : Prop := NoDup (map p_role ps).

Definition defaultConfig (room : Room) : Prop :=
  width room = 800%float /\ height room = 500%float /\
  radius room = 30%float /\ winPinSeconds room = 2%float.

Definition inArena (room : Room) (p : Player) : Prop :=
  fle (radius room) (p_x p) /\ fle (p_x p) (width room - radius room)%float /\
  fle (radius room) (p_y p) /\ fle (p_y p) (height room - radius room)%float.

Definition playerOk (room : Room) (p : Player) : Prop :=
  fle 0%float (p_pinTimer p) /\ inArena room p /\
  ffinite (p_vx p) /\ ffinite (p_vy p).

Definition roomOk (room : Room) : Prop :=
  defaultConfig room /\
  NoDup (obj_keys (players room)) /\
  loopInv room /\
  zFlags (obj_values (players room)) /\
  atMostOneDominant (obj_values (players room)) /\
  Forall (playerOk room) (obj_values (players room)) /\
  distinctRoles (obj_values (players room)).

Definition serverOk (st : Server) : Prop :=
  forall roomId room, rooms st !! roomId = Some room -> roomOk room.

(** ** The pairwise rule in the specification's words

    A pair is in contact when its Euclidean distance is below
    [radius * 1.4]; a member that is dominant and acting gains [dt] in a
    contact, and every other member of a resolved pair decays. *)

Definition contact (room : Room) (a b : Player) : bool :=
  (JS.Math_hypot (p_x a - p_x b) (p_y a - p_y b) <? radius room * 1.4)%float.

Definition pairRule (inContact : bool) (p : Player) : Player :=
  if inContact && dominantActing p then gain p else decay p.

(** The raw direction vector [(right - left, down - up)]. *)
Definition rawDirection (data : InputData) : float * float :=
  ((JS.of_bool (i_right data) - JS.of_bool (i_left data))%float,
   (JS.of_bool (i_down data) - JS.of_bool (i_up data))%float).


(** Everything of a player that the pin loop leaves alone. *)
Definition pinStatic (p : Player)
    : string * Role * float * float * float * float * bool * string * Z :=
  (p_id p, p_role p, p_x p, p_y p, p_vx p, p_vy p, p_pressing p, p_thumbFile p, p_z p).

(** The index pairs [(i, j)] with [i < j < n], in the order in which the two
    pin loops visit them. *)
Definition indexPairs (n : nat) : list (nat * nat) :=
  flat_map (fun i => map (fun j => (i, j)) (seq (S i) (n - S i))) (seq 0 n).

(** Resolving the pair at positions [(i, j)] by the specification's rule:
    contact is decided once for the pair and [pairRule] is applied to both
    members. *)
Definition ruleStep (room : Room) (ij : nat * nat) (arr : list Player) : list Player :=
  match arr !! ij.1, arr !! ij.2 with
  | Some a, Some b =>
      <[ij.2 := pairRule (contact room a b) b]>
        (<[ij.1 := pairRule (contact room a b) a]> arr)
  | _, _ => arr
  end.

(** ** A played-out game, for the examples

    Connections [a] and [b] join room [TEST] and get seats [P1] (at
    [x = 160]) and [P2] (at [x = 400]).  [a] raises its thumb and walks
    right for 62 steps, which brings it into contact with [b]; it lets go
    for one step, raises its thumb again and stays put until it wins. *)

Definition pressRight : InputData := mkInputData false false false true true.
Definition pressOnly : InputData := mkInputData false false false false true.
Definition release : InputData := mkInputData false false false false false.

Definition lobbyTrace : list Event :=
  [Connect "a"; Connect "b";
   JoinRoom "a" (Some " test ") None; JoinRoom "b" (Some "TEST") None].

Definition duelTrace : list Event :=
  lobbyTrace ++ [Input "a" pressRight] ++ repeat (Tick "TEST") 62
  ++ [Input "a" release; Tick "TEST"; Input "a" pressOnly]
  ++ repeat (Tick "TEST") 120.

(** The state with both players seated and the loop running. *)
Definition lobby : Server := run initial lobbyTrace.

(** The state right after the step that records [P1] as the winner, with a
    third connection [c] open. *)
Definition afterWin : Server := run initial (duelTrace ++ [Connect "c"]).

Definition lobbyRoom : Room := Eval vm_compute in (rooms lobby !!! "TEST").
Definition afterWinRoom : Room := Eval vm_compute in (rooms afterWin !!! "TEST").

(** The winner's player object in [afterWin]. *)
Definition champion : Player :=
  Eval vm_compute in (default (mkPlayer "" P1 0 0 0 0 false 0 "" 0)
                              (obj_get "a" (players afterWinRoom))).

(** The loser's player object in [afterWin]. *)
Definition opponent : Player :=
  Eval vm_compute in (default (mkPlayer "" P1 0 0 0 0 false 0 "" 0)
                              (obj_get "b" (players afterWinRoom))).

(** The state after the third connection has joined the finished game, and
    the player it registered. *)
Definition rematch : Server := step afterWin (JoinRoom "c" (Some "TEST") None).

Definition newcomer : Player :=
  Eval vm_compute in (default (mkPlayer "" P1 0 0 0 0 false 0 "" 0)
                              (obj_get "c" (playersOf "TEST" rematch))).

(** [P1] as seated in [lobby]. *)
Definition lobbyP1 : Player :=
  Eval vm_compute in (default (mkPlayer "" P1 0 0 0 0 false 0 "" 0)
                              (obj_get "a" (players lobbyRoom))).

(** A player two units left of the right wall, moving right at full speed. *)
Definition runner : Player :=
  mkPlayer "a" P1 768 250 3.2 0 false 0 "thumb1.png" 0.

(** ** Broadcasts

    What the handlers send with [io.to(roomId).emit]: the lobby count after
    a join or a disconnect, the end of a game, and the state after a step. *)

(** One entry of the [players] array of a [state] message. *)
Record Snapshot := mkSnapshot {
  s_role : Role;
  s_x : float;
  s_y : float;
  s_pressing : bool;
  s_pinTimer : float;
  s_thumbFile : string;
  s_z : Z
}.

Definition snapshot (p : Player) : Snapshot :=
  mkSnapshot (p_role p) (p_x p) (p_y p) (p_pressing p) (p_pinTimer p) (p_thumbFile p) (p_z p).

Inductive Emit :=
| EmitLobby (roomId : string) (playerCount : nat)
| EmitEnd (roomId : string) (winner : Role)
| EmitState (roomId : string) (players : list Snapshot) (winner : option Role).

(** The player object that [joinRoom] registers. *)
Definition newPlayer (socket : string) (role : Role) (room : Room) (data : option JoinData)
    : Player :=
  let spawn := spawnPositions room role in
  mkPlayer socket role (fst spawn) (snd spawn) 0%float 0%float false 0%float
           (thumbFileOf data) 0%Z.

(** [io.to(roomId).emit('lobby', { playerCount })] of [joinRoom]: reached only
    when the join is answered with a role. *)
Definition joinRoomEmits (socket : string) (rid : option string) (data : option JoinData)
    (st : Server) : list Emit :=
  let roomId := normalizeRoomId rid in
  if bool_decide (roomId = "") || (12 <? String.length roomId)%nat then []
  else
    let rs := createRoomIfNeeded roomId (rooms st) in
    let room := rs !!! roomId in
    match assignRole room with
    | None => []
    | Some role =>
        let ps := obj_set socket (newPlayer socket role room data) (players room) in
        [EmitLobby roomId (length (obj_keys ps))]
    end.

(** The [lobby] message of [disconnect]. *)
Definition disconnectEmits (socket : string) (st : Server) : list Emit :=
  match currentRoomId socket st with
  | None => []
  | Some roomId =>
      match rooms st !! roomId with
      | None => []
      | Some room =>
          [EmitLobby roomId (length (obj_keys (obj_delete socket (players room))))]
      end
  end.

(** The [end] and [state] messages of [tickRoom]. *)
Definition tickRoomEmits (roomId : string) (st : Server) : list Emit :=
  match rooms st !! roomId with
  | None => []
  | Some room =>
      let playersArr := obj_values (players room) in
      if (length playersArr <? 2)%nat then []
      else
        let playersArr := pinLoop room (map (movePlayer room) playersArr) in
        match findWinner room playersArr, winner room with
        | Some w, None =>
            [EmitEnd roomId (p_role w);
             EmitState roomId (map snapshot playersArr) (Some (p_role w))]
        | _, _ => [EmitState roomId (map snapshot playersArr) (winner room)]
        end
  end.

(** The messages sent while [step] handles an event. *)
Definition stepEmits (st : Server) (e : Event) : list Emit :=
  match e with
  | Connect _ => []
  | JoinRoom socket rid data =>
      if connected socket st then joinRoomEmits socket rid data st else []
  | Input _ _ => []
  | Disconnect socket =>
      if connected socket st then disconnectEmits socket st else []
  | Tick roomId =>
      if timerLive roomId st then tickRoomEmits roomId st else []
  end.

(** ** Timer callbacks

    [setInterval(() => tickRoom(roomId), 1000 / 60)] reads the variable
    [roomId] of the connection whose [joinRoom] started the timer, and reads
    it when the timer fires: once that connection has sent another
    [joinRoom], the callback steps the room named by the new code, whether
    or not that room's own loop is running.  [Tick] of [step] is the
    callback of a timer whose variable still names the timer's room; [Fire]
    is a callback with any code at any time, which covers every timer. *)

Inductive Action :=
| Handle (e : Event)
| Fire (roomId : string).

Definition act (st : Server) (a : Action) : Server :=
  match a with
  | Handle e => step st e
  | Fire roomId => tickRoom roomId st
  end.

Definition actEmits (st : Server) (a : Action) : list Emit :=
  match a with
  | Handle e => stepEmits st e
  | Fire roomId => tickRoomEmits roomId st
  end.

(** The states the server can be in when timers may fire for any room. *)
Inductive reachableAny : Server -> Prop :=
| reachableAny_initial : reachableAny initial
| reachableAny_act st a : reachableAny st -> reachableAny (act st a).

(** All messages sent along a sequence of actions. *)
Fixpoint runEmits (st : Server) (trace : list Action) : list Emit :=
  match trace with
  | [] => []
  | a :: trace' => actEmits st a ++ runEmits (act st a) trace'
  end.

Definition isEnd (roomId : string) (m : Emit) : bool :=
  match m with
  | EmitEnd rid _ => bool_decide (rid = roomId)
  | _ => false
  end.

(** The number of [end] messages sent to a room. *)
Definition endCount (roomId : string) (ms : list Emit) : nat :=
  length (List.filter (isEnd roomId) ms).

(** ** Which room an event or a timer callback works on *)

Definition eventRoom (st : Server) (e : Event) : option string :=
  match e with
  | Connect _ => None
  | JoinRoom _ rid _ => Some (normalizeRoomId rid)
  | Input socket _ => currentRoomId socket st
  | Disconnect socket => currentRoomId socket st
  | Tick roomId => Some roomId
  end.

Definition actionRoom (st : Server) (a : Action) : option string :=
  match a with
  | Handle e => eventRoom st e
  | Fire roomId => Some roomId
  end.

(** ** More properties of rooms *)

Definition roleIndex (r : Role) : nat :=
  match r with P1 => 0 | P2 => 1 | P3 => 2 end.

(** Everything of a player that a step leaves alone. *)
Definition tickStatic (p : Player) : string * Role * float * float * bool * string * Z :=
  (p_id p, p_role p, p_vx p, p_vy p, p_pressing p, p_thumbFile p, p_z p).

(** A player moves by at most [speed] along each axis in a step. *)
Definition speedLimited (p : Player) : Prop :=
  fle (- speed)%float (p_vx p) /\ fle (p_vx p) speed /\
  fle (- speed)%float (p_vy p) /\ fle (p_vy p) speed.

(** What holds of every entry of a player table: the player object is
    stored under its own socket id, a raised thumb is a pressed one, and the
    velocity is within the speed limit. *)
Definition entriesSound (ps : list (string * Player)) : Prop :=
  Forall (fun kv => p_id kv.2 = kv.1) ps /\
  Forall (fun p => p_z p = 1%Z -> p_pressing p = true) (obj_values ps) /\
  Forall speedLimited (obj_values ps).

(** A second room invariant: the room has a player and its entries are
    sound. *)
Definition roomSound (room : Room) : Prop :=
  players room <> [] /\ entriesSound (players room).

Definition serverSound (st : Server) : Prop :=
  forall roomId room, rooms st !! roomId = Some room -> roomSound room.

(** A game is open in a room that exists and has no recorded winner. *)
Definition gameOpen (roomId : string) (st : Server) : bool :=
  match rooms st !! roomId with
  | Some room => bool_decide (winner room = None)
  | None => false
  end.

(** An action that is no [joinRoom] for the room [roomId]. *)
Definition notJoinOf (roomId : string) (a : Action) : Prop :=
  forall socket raw data,
    a = Handle (JoinRoom socket raw data) -> normalizeRoomId raw <> roomId.

(** Every character of the string is in the ASCII range. *)
Fixpoint asciiOnly (s : string) : bool :=
  match s with
  | EmptyString => true
  | String c s' => (nat_of_ascii c <? 128)%nat && asciiOnly s'
  end.

(** A string that is empty or starts with a character that is no white
    space. *)
Definition headed (s : string) : Prop :=
  match s with
  | EmptyString => True
  | String c _ => is_space c = false
  end.

(** ** The game client ([game.js])

    The client keeps the arena of the join reply in [config], the players
    of the last [state] message in [players] and the five input flags in
    [keys], which it sends with every [input]. *)

(** The share of the pin progress bar that [drawThumb] fills for a player:
    [Math.min(1, p.pinTimer / config.winPinSeconds)], drawn only when
    [p.pinTimer > 0]. *)
Definition progressBar (config : Config) (p : Snapshot) : option float :=
  if (0 <? s_pinTimer p)%float
  then Some (JS.Math_min 1 (s_pinTimer p / cfg_winPinSeconds config)%float)
  else None.

(** [updateJoystick]: the direction flags for a pointer at offset
    [(deltaX, deltaY)] from the centre of the joystick; [pressing] is not
    touched. *)
Definition updateJoystick (deltaX deltaY : float) (keys : InputData) : InputData :=
  let distance := sqrt (deltaX * deltaX + deltaY * deltaY)%float in
  let normalX := if (0 <? distance)%float then (deltaX / distance)%float else 0%float in
  let normalY := if (0 <? distance)%float then (deltaY / distance)%float else 0%float in
  let threshold := 0.3%float in
  mkInputData (normalY <? - threshold)%float (threshold <? normalY)%float
              (normalX <? - threshold)%float (threshold <? normalX)%float
              (i_pressing keys).

(** * Facts about binary64 arithmetic *)

Section FloatOrder.

Lemma SFcompare_key x y :
  x <> S754_nan -> y <> S754_nan ->
  SFcompare x y = Some (lex_compare (sf_key x) (sf_key y)).
Proof.
  intros Hx Hy.
  destruct x as [sx|sx| |sx mx ex], y as [sy|sy| |sy my ey]; try congruence;
    try (destruct sx); try (destruct sy); try reflexivity.
  cbn [SFcompare sf_key lex_compare]. rewrite Z.compare_refl.
  rewrite Z.compare_opp. rewrite (Z.compare_antisym ey ex).
  destruct (ey ?= ex)%Z; reflexivity.
Qed.

Lemma lex_compare_Lt a b : lex_compare a b = Lt <-> lex_lt a b.
Proof.
  destruct a as [[a1 a2] a3], b as [[b1 b2] b3]. unfold lex_compare, lex_lt. cbn.
  destruct (Z.compare_spec a1 b1), (Z.compare_spec a2 b2), (Z.compare_spec a3 b3);
    split; intros; try discriminate; try reflexivity; try lia.
Qed.

Lemma lex_compare_Eq a b : lex_compare a b = Eq <-> a = b.
Proof.
  destruct a as [[a1 a2] a3], b as [[b1 b2] b3]. unfold lex_compare. cbn.
  destruct (Z.compare_spec a1 b1), (Z.compare_spec a2 b2), (Z.compare_spec a3 b3);
    split; intros H'; try discriminate; try reflexivity; try (inversion H'; lia);
    try (f_equal; try f_equal; lia).
Qed.

Lemma is_nan_false x : is_nan x = false <-> fnum x.
Proof.
  unfold is_nan, fnum. rewrite FloatAxioms.eqb_spec. unfold SFeqb.
  destruct (Prim2SF x) as [s|s| |s m e] eqn:E.
  - destruct s; cbn; split; congruence.
  - destruct s; cbn; split; congruence.
  - cbn. split; congruence.
  - rewrite SFcompare_key by congruence.
    assert (lex_compare (sf_key (S754_finite s m e)) (sf_key (S754_finite s m e)) = Eq) as ->
      by (apply lex_compare_Eq; reflexivity).
    cbn. split; congruence.
Qed.

Lemma flt_fnum x y : flt x y -> fnum x /\ fnum y.
Proof.
  unfold flt. rewrite FloatAxioms.ltb_spec. unfold SFltb, fnum.
  destruct (Prim2SF x), (Prim2SF y); cbn; try discriminate; split; congruence.
Qed.

Lemma fle_fnum x y : fle x y -> fnum x /\ fnum y.
Proof.
  unfold fle. rewrite FloatAxioms.leb_spec. unfold SFleb, fnum.
  destruct (Prim2SF x), (Prim2SF y); cbn; try discriminate; split; congruence.
Qed.

Lemma flt_key x y : fnum x -> fnum y -> (flt x y <-> lex_lt (fkey x) (fkey y)).
Proof.
  intros Hx Hy. unfold flt. rewrite FloatAxioms.ltb_spec. unfold SFltb.
  rewrite SFcompare_key by assumption.
  rewrite <- lex_compare_Lt. fold (fkey x) (fkey y).
  destruct (lex_compare (fkey x) (fkey y)); split; congruence.
Qed.

Lemma fle_key x y :
  fnum x -> fnum y -> (fle x y <-> lex_lt (fkey x) (fkey y) \/ fkey x = fkey y).
Proof.
  intros Hx Hy. unfold fle. rewrite FloatAxioms.leb_spec. unfold SFleb.
  rewrite SFcompare_key by assumption.
  rewrite <- lex_compare_Lt, <- lex_compare_Eq. fold (fkey x) (fkey y).
  destruct (lex_compare (fkey x) (fkey y)); split; try congruence; intuition congruence.
Qed.

Lemma nlt_key x y :
  fnum x -> fnum y -> ((x <? y)%float = false <-> ~ lex_lt (fkey x) (fkey y)).
Proof.
  intros Hx Hy. rewrite <- flt_key by assumption. unfold flt.
  destruct (x <? y)%float; split; intros; try congruence; exfalso; auto.
Qed.

Lemma is_zero_key x : is_zero x = true -> fnum x /\ fkey x = (0, 0, 0)%Z.
Proof.
  unfold is_zero. rewrite FloatAxioms.eqb_spec. unfold SFeqb, fnum, fkey.
  change (Prim2SF PrimFloat.zero) with (S754_zero false).
  destruct (Prim2SF x) as [s|s| |s m e]; cbn; try discriminate.
  - split; [congruence | reflexivity].
  - destruct s; discriminate.
  - destruct s; discriminate.
Qed.

End FloatOrder.

(** Turns comparisons between numbers into linear arithmetic on their keys. *)
Ltac float_keys :=
  repeat match goal with
  | H : flt ?x ?y |- _ =>
      let Hx := fresh in let Hy := fresh in
      destruct (flt_fnum _ _ H) as [Hx Hy]; apply (flt_key _ _ Hx Hy) in H
  | H : fle ?x ?y |- _ =>
      let Hx := fresh in let Hy := fresh in
      destruct (fle_fnum _ _ H) as [Hx Hy]; apply (fle_key _ _ Hx Hy) in H
  | H : (?x <? ?y)%float = false, Hx : fnum ?x, Hy : fnum ?y |- _ =>
      apply (nlt_key _ _ Hx Hy) in H
  end.

Ltac lex_solve :=
  unfold lex_lt in *;
  repeat match goal with
  | |- context [fkey ?x] => let k := fresh "k" in set (k := fkey x) in *; clearbody k
  | H : context [fkey ?x] |- _ => let k := fresh "k" in set (k := fkey x) in *; clearbody k
  end;
  repeat match goal with
  | k : (Z * Z * Z)%type |- _ => destruct k as [[? ?] ?]
  end;
  cbn [fst snd] in *;
  repeat match goal with
  | H : _ \/ (_, _) = (_, _) |- _ => destruct H as [H|H]
  | H : (_, _) = (_, _) |- _ => inversion H; clear H
  end;
  subst; first [ lia | left; lia | right; f_equal; try f_equal; lia ].

Section FloatOrderFacts.

Lemma flt_fle x y : flt x y -> fle x y.
Proof.
  intros H. destruct (flt_fnum _ _ H) as [Hx Hy].
  apply fle_key; try assumption. apply flt_key in H; try assumption. left. exact H.
Qed.

Lemma fle_refl x : fnum x -> fle x x.
Proof. intros H. apply fle_key; try assumption. right. reflexivity. Qed.

Lemma flt_trans x y z : flt x y -> flt y z -> flt x z.
Proof.
  intros H1 H2.
  destruct (flt_fnum _ _ H1) as [Hx _], (flt_fnum _ _ H2) as [_ Hz].
  apply flt_key; try assumption. float_keys. lex_solve.
Qed.

Lemma flt_not_fle x y : flt x y -> fle y x -> False.
Proof. intros H1 H2. float_keys. lex_solve. Qed.

Lemma flt_asym x y : flt x y -> (y <? x)%float = false.
Proof.
  intros H. destruct (flt_fnum _ _ H) as [Hx Hy].
  apply nlt_key; try assumption. intros H'. float_keys. lex_solve.
Qed.

End FloatOrderFacts.

Section MathMaxMin.

Lemma both_zero_fle a b : is_zero a = true -> is_zero b = true -> fle a b.
Proof.
  intros Ha Hb. apply is_zero_key in Ha, Hb. destruct Ha as [Ha Ka], Hb as [Hb Kb].
  apply fle_key; try assumption. right. congruence.
Qed.

(** [Math.max] of two numbers is one of them, and is not below the first. *)
Lemma Math_max_cases a b :
  fnum a -> fnum b ->
  (JS.Math_max a b = b /\ fle a b) \/ (JS.Math_max a b = a /\ (a <? b)%float = false).
Proof.
  intros Ha Hb. unfold JS.Math_max.
  apply is_nan_false in Ha as ->. apply is_nan_false in Hb as ->. cbn [orb].
  destruct (JS.is_neg_zero a && JS.is_pos_zero b) eqn:Hz.
  - left. split; [reflexivity|].
    apply andb_true_iff in Hz as [Hz1 Hz2].
    apply andb_true_iff in Hz1 as [Hz1 _]. apply andb_true_iff in Hz2 as [Hz2 _].
    apply both_zero_fle; assumption.
  - destruct (a <? b)%float eqn:Hlt.
    + left. split; [reflexivity|]. apply flt_fle. exact Hlt.
    + right. split; reflexivity.
Qed.

(** [Math.min] of two numbers is one of them, and is not above the first. *)
Lemma Math_min_cases a b :
  fnum a -> fnum b ->
  (JS.Math_min a b = b /\ fle b a) \/ (JS.Math_min a b = a /\ (b <? a)%float = false).
Proof.
  intros Ha Hb. unfold JS.Math_min.
  apply is_nan_false in Ha as ->. apply is_nan_false in Hb as ->. cbn [orb].
  destruct (JS.is_pos_zero a && JS.is_neg_zero b) eqn:Hz.
  - left. split; [reflexivity|].
    apply andb_true_iff in Hz as [Hz1 Hz2].
    apply andb_true_iff in Hz1 as [Hz1 _]. apply andb_true_iff in Hz2 as [Hz2 _].
    apply both_zero_fle; assumption.
  - destruct (b <? a)%float eqn:Hlt.
    + left. split; [reflexivity|]. apply flt_fle. exact Hlt.
    + right. split; reflexivity.
Qed.

(** The clamp of a number lies between its bounds. *)
Lemma clamp_bounds lo hi v :
  flt lo hi -> fnum v -> fle lo (clamp lo hi v) /\ fle (clamp lo hi v) hi.
Proof.
  intros Hlh Hv. destruct (flt_fnum _ _ Hlh) as [Hlo Hhi]. unfold clamp.
  destruct (Math_min_cases hi v Hhi Hv) as [[-> Hm]|[-> Hm]].
  - destruct (Math_max_cases lo v Hlo Hv) as [[-> Hx]|[-> Hx]].
    + split; assumption.
    + split; [apply fle_refl; assumption | apply flt_fle; assumption].
  - destruct (Math_max_cases lo hi Hlo Hhi) as [[-> Hx]|[-> Hx]].
    + split; [assumption | apply fle_refl; assumption].
    + split; [apply fle_refl; assumption | apply flt_fle; assumption].
Qed.

(** A value above the upper bound is pinned exactly at that bound. *)
Lemma clamp_above lo hi v : flt lo hi -> flt hi v -> clamp lo hi v = hi.
Proof.
  intros Hlh Hhv. destruct (flt_fnum _ _ Hlh) as [Hlo Hhi].
  destruct (flt_fnum _ _ Hhv) as [_ Hv]. unfold clamp.
  destruct (Math_min_cases hi v Hhi Hv) as [[-> Hm]|[-> Hm]].
  - exfalso. eapply flt_not_fle; eassumption.
  - destruct (Math_max_cases lo hi Hlo Hhi) as [[-> Hx]|[-> Hx]]; [reflexivity|].
    unfold flt in Hlh. congruence.
Qed.

(** A value below the lower bound is pinned exactly at that bound. *)
Lemma clamp_below lo hi v : flt lo hi -> flt v lo -> clamp lo hi v = lo.
Proof.
  intros Hlh Hvl. destruct (flt_fnum _ _ Hlh) as [Hlo Hhi].
  destruct (flt_fnum _ _ Hvl) as [Hv _]. unfold clamp.
  destruct (Math_min_cases hi v Hhi Hv) as [[-> Hm]|[-> Hm]].
  - destruct (Math_max_cases lo v Hlo Hv) as [[-> Hx]|[-> Hx]]; [|reflexivity].
    exfalso. eapply flt_not_fle; eassumption.
  - pose proof (flt_trans _ _ _ Hvl Hlh) as Hvh. unfold flt in Hvh. congruence.
Qed.

(** A value strictly inside the bounds is left alone. *)
Lemma clamp_inside lo hi v : flt lo v -> flt v hi -> clamp lo hi v = v.
Proof.
  intros Hlv Hvh. destruct (flt_fnum _ _ Hlv) as [Hlo Hv].
  destruct (flt_fnum _ _ Hvh) as [_ Hhi]. unfold clamp.
  destruct (Math_min_cases hi v Hhi Hv) as [[-> Hm]|[-> Hm]].
  - destruct (Math_max_cases lo v Hlo Hv) as [[-> Hx]|[-> Hx]]; [reflexivity|].
    unfold flt in Hlv. congruence.
  - unfold flt in Hvh. congruence.
Qed.

End MathMaxMin.

Section Rounding.

Lemma shr_1_nonneg mrs : (0 <= shr_m mrs)%Z -> (0 <= shr_m (shr_1 mrs))%Z.
Proof.
  destruct mrs as [m r s]. destruct m as [|p|p]; cbn; try lia.
  destruct p; cbn; lia.
Qed.

Lemma iter_shr_1_nonneg p : forall mrs,
  (0 <= shr_m mrs)%Z -> (0 <= shr_m (SpecFloat.iter_pos shr_1 p mrs))%Z.
Proof.
  induction p as [p IH|p IH|]; intros mrs H; cbn.
  - apply IH, IH, shr_1_nonneg, H.
  - apply IH, IH, H.
  - apply shr_1_nonneg, H.
Qed.

Lemma shr_fexp_nonneg m e l :
  (0 <= m)%Z -> (0 <= shr_m (fst (shr_fexp prec emax m e l)))%Z.
Proof.
  intros H. unfold shr_fexp, shr.
  assert (0 <= shr_m (shr_record_of_loc m l))%Z as H0
    by (destruct l as [|[]]; exact H).
  destruct (_ - e)%Z; cbn [fst]; try exact H0.
  apply iter_shr_1_nonneg, H0.
Qed.

Lemma round_nearest_even_nonneg m l : (0 <= m)%Z -> (0 <= round_nearest_even m l)%Z.
Proof.
  intros H. destruct l as [|[]]; cbn; try lia. destruct (Z.even m); lia.
Qed.

(** Rounding a non-negative mantissa keeps the sign and never gives NaN. *)
Lemma binary_round_aux_signed s m e l :
  (0 <= m)%Z -> sf_signed s (binary_round_aux prec emax s m e l).
Proof.
  intros H. unfold binary_round_aux.
  pose proof (shr_fexp_nonneg m e l H) as H1.
  destruct (shr_fexp prec emax m e l) as [mrs' e'] eqn:E1. cbn [fst] in H1.
  pose proof (shr_fexp_nonneg _ e' loc_Exact
                (round_nearest_even_nonneg _ (loc_of_shr_record mrs') H1)) as H2.
  destruct (shr_fexp prec emax _ e' loc_Exact) as [mrs'' e''] eqn:E2. cbn [fst] in H2.
  destruct (shr_m mrs'') as [|p|p]; try lia; cbn; try reflexivity.
  destruct (e'' <=? _)%Z; reflexivity.
Qed.

Lemma binary_round_signed s m e : sf_signed s (binary_round prec emax s m e).
Proof.
  unfold binary_round. destruct (shl_align _ _ _) as [mz ez].
  apply binary_round_aux_signed. lia.
Qed.

Lemma binary_normalize_num m e : binary_normalize prec emax m e false <> S754_nan.
Proof.
  destruct m as [|p|p]; cbn; try congruence.
  - pose proof (binary_round_signed false p e) as H.
    destruct (binary_round _ _ _ _ _); cbn in H; congruence.
  - pose proof (binary_round_signed true p e) as H.
    destruct (binary_round _ _ _ _ _); cbn in H; congruence.
Qed.

Lemma SFadd_finite_num x y : sf_finite x -> sf_finite y -> SF64add x y <> S754_nan.
Proof.
  unfold SF64add.
  destruct x as [sx|sx| |sx mx ex], y as [sy|sy| |sy my ey]; cbn [sf_finite];
    intros Hx Hy; try contradiction.
  - destruct sx, sy; cbn; congruence.
  - cbn; congruence.
  - cbn; congruence.
  - cbn [SFadd]. apply binary_normalize_num.
Qed.

Lemma SFsub_finite_num x y :
  x <> S754_nan -> sf_finite y -> SF64sub x y <> S754_nan.
Proof.
  unfold SF64sub.
  destruct x as [sx|sx| |sx mx ex], y as [sy|sy| |sy my ey]; cbn [sf_finite];
    intros Hx Hy; try contradiction; try congruence.
  - destruct sx, sy; cbn; congruence.
  - cbn; congruence.
  - destruct sx, sy; cbn; congruence.
  - cbn; congruence.
  - cbn; congruence.
  - cbn [SFsub]. apply binary_normalize_num.
Qed.

Lemma SFadd_nonneg x y :
  sf_nonneg x -> sf_nonneg y -> sf_finite y -> sf_nonneg (SF64add x y).
Proof.
  unfold SF64add.
  destruct x as [sx|sx| |sx mx ex], y as [sy|sy| |sy my ey]; cbn [sf_nonneg sf_finite];
    intros Hx Hy Hf; try contradiction; subst.
  - destruct sx, sy; cbn; auto.
  - cbn. reflexivity.
  - cbn. reflexivity.
  - cbn. reflexivity.
  - cbn. reflexivity.
  - cbn [SFadd cond_Zopp].
    destruct (shl_align mx ex _) as [a ?], (shl_align my ey _) as [b ?]. cbn [fst].
    change (Z.pos a + Z.pos b)%Z with (Z.pos (a + b)). cbn [binary_normalize].
    pose proof (binary_round_signed false (a + b) (Z.min ex ey)) as H.
    destruct (binary_round _ _ _ _ _); cbn in H |- *; auto.
Qed.

Lemma fle_0_nonneg x : fle 0%float x <-> sf_nonneg (Prim2SF x).
Proof.
  unfold fle. rewrite FloatAxioms.leb_spec. change (Prim2SF 0) with (S754_zero false).
  unfold SFleb. destruct (Prim2SF x) as [s|s| |s m e]; cbn.
  - tauto.
  - destruct s; split; congruence.
  - split; [discriminate | tauto].
  - destruct s; split; congruence.
Qed.

(** Two finite numbers add to a number. *)
Lemma add_fnum x y : ffinite x -> ffinite y -> fnum (x + y)%float.
Proof. unfold ffinite, fnum. rewrite add_spec. apply SFadd_finite_num. Qed.

(** A number between two finite bounds is finite. *)
Lemma between_ffinite lo hi x : ffinite lo -> ffinite hi -> fle lo x -> fle x hi -> ffinite x.
Proof.
  unfold ffinite, fle. rewrite !FloatAxioms.leb_spec. unfold SFleb.
  destruct (Prim2SF x) as [s|s| |s m e]; cbn [sf_finite]; auto.
  - destruct (Prim2SF lo) as [sl|sl| |sl ml el], (Prim2SF hi) as [sh|sh| |sh mh eh];
      cbn; try tauto; destruct s; try discriminate; try destruct sl; try destruct sh;
      discriminate.
  - destruct (Prim2SF lo); cbn; discriminate.
Qed.

End Rounding.

Section Timers.

(** [pinTimer += dt] keeps a non-negative timer non-negative. *)
Lemma gain_nonneg t : fle 0%float t -> fle 0%float (t + dt)%float.
Proof.
  rewrite !fle_0_nonneg, add_spec. intros H.
  apply SFadd_nonneg; [exact H | |]; vm_compute; auto.
Qed.

(** [Math.max(0, pinTimer - dt * 0.5)] is non-negative for every number. *)
Lemma decay_nonneg t : fnum t -> fle 0%float (JS.Math_max 0%float (t - dt * 0.5)%float).
Proof.
  intros Ht.
  assert (fnum (t - dt * 0.5)%float) as Hs.
  { unfold fnum. rewrite sub_spec. apply SFsub_finite_num; [exact Ht|].
    vm_compute. exact I. }
  assert (fnum 0%float) as H0 by (vm_compute; congruence).
  destruct (Math_max_cases _ _ H0 Hs) as [[-> H]|[-> H]]; [exact H|].
  apply fle_refl, H0.
Qed.

End Timers.

(** * Facts about dictionaries *)

Section ObjFacts.
Context {V : Type}.
Implicit Types (o : list (string * V)) (k : string) (v : V).

Lemma obj_get_set_eq k v o : obj_get k (obj_set k v o) = Some v.
Proof.
  induction o as [|[k' v'] o IH]; cbn.
  - rewrite bool_decide_eq_true_2; reflexivity.
  - destruct (bool_decide (k' = k)) eqn:E; cbn; rewrite E; [reflexivity | exact IH].
Qed.

Lemma obj_get_set_ne k k' v o : k <> k' -> obj_get k' (obj_set k v o) = obj_get k' o.
Proof.
  intros Hne. induction o as [|[k0 v0] o IH]; cbn.
  - rewrite bool_decide_eq_false_2; [reflexivity | exact Hne].
  - destruct (bool_decide (k0 = k)) eqn:E; cbn.
    + apply bool_decide_eq_true_1 in E. subst k0.
      rewrite bool_decide_eq_false_2; [reflexivity | exact Hne].
    + destruct (bool_decide (k0 = k')); [reflexivity | exact IH].
Qed.

Lemma obj_get_None k o : obj_get k o = None <-> k ∉ obj_keys o.
Proof.
  induction o as [|[k' v'] o IH]; cbn.
  - split; [intros _; apply not_elem_of_nil | reflexivity].
  - rewrite not_elem_of_cons. destruct (bool_decide (k' = k)) eqn:E.
    + apply bool_decide_eq_true_1 in E. split; [discriminate | intros [H _]; congruence].
    + apply bool_decide_eq_false_1 in E. rewrite IH.
      split; [intros H; split; [intros ->; apply E; reflexivity | exact H] | tauto].
Qed.

Lemma obj_get_Some_In k v o : obj_get k o = Some v -> (k, v) ∈ o.
Proof.
  induction o as [|[k' v'] o IH]; cbn; [discriminate|].
  destruct (bool_decide (k' = k)) eqn:E.
  - apply bool_decide_eq_true_1 in E. intros [= ->]. subst. apply list_elem_of_here.
  - intros H. apply list_elem_of_further, IH, H.
Qed.

Lemma obj_get_value k v o : obj_get k o = Some v -> v ∈ obj_values o.
Proof.
  intros H. apply obj_get_Some_In in H. unfold obj_values.
  apply (list_elem_of_fmap_2 snd) in H. exact H.
Qed.

(** Assigning to an absent key appends it. *)
Lemma obj_set_new k v o : obj_get k o = None -> obj_set k v o = o ++ [(k, v)].
Proof.
  induction o as [|[k' v'] o IH]; cbn; [reflexivity|].
  destruct (bool_decide (k' = k)); [discriminate|]. intros H. rewrite IH; auto.
Qed.

(** Assigning to a present key keeps the keys as they are. *)
Lemma obj_keys_set_old k v o : obj_get k o <> None -> obj_keys (obj_set k v o) = obj_keys o.
Proof.
  induction o as [|[k' v'] o IH]; cbn; [congruence|].
  destruct (bool_decide (k' = k)); cbn; [reflexivity|]. intros H. f_equal. apply IH, H.
Qed.

Lemma obj_keys_set k v o :
  obj_keys (obj_set k v o) = obj_keys o \/ obj_keys (obj_set k v o) = obj_keys o ++ [k].
Proof.
  destruct (obj_get k o) eqn:E.
  - left. apply obj_keys_set_old. congruence.
  - right. rewrite obj_set_new by exact E. unfold obj_keys. rewrite map_app. reflexivity.
Qed.

Lemma obj_set_length k v o : length o <= length (obj_set k v o).
Proof. induction o as [|[k' v'] o IH]; cbn; [lia|]. destruct (bool_decide _); cbn; lia. Qed.

Lemma obj_set_NoDup k v o : NoDup (obj_keys o) -> NoDup (obj_keys (obj_set k v o)).
Proof.
  intros H. destruct (obj_get k o) eqn:E.
  - rewrite obj_keys_set_old by congruence. exact H.
  - rewrite obj_set_new by exact E. unfold obj_keys. rewrite map_app. cbn.
    apply NoDup_app. split; [exact H|]. split.
    + intros x Hx Hx'. apply list_elem_of_singleton in Hx'. subst x.
      apply obj_get_None in E. contradiction.
    + apply NoDup_singleton.
Qed.

Lemma obj_set_Forall (P : V -> Prop) k v o :
  Forall P (obj_values o) -> P v -> Forall P (obj_values (obj_set k v o)).
Proof.
  intros H Hv. induction o as [|[k' v'] o IH]; cbn.
  - constructor; [exact Hv | constructor].
  - cbn in H. apply Forall_cons in H as [H1 H2].
    destruct (bool_decide (k' = k)); cbn; constructor; auto.
Qed.

Lemma obj_delete_length k o : length (obj_delete k o) <= length o.
Proof. induction o as [|[k' v'] o IH]; cbn; [lia|]. destruct (bool_decide _); cbn; lia. Qed.

Lemma obj_delete_keys_subset k o x : x ∈ obj_keys (obj_delete k o) -> x ∈ obj_keys o.
Proof.
  induction o as [|[k' v'] o IH]; cbn; [auto|].
  destruct (bool_decide (k' = k)); cbn.
  - intros H. apply list_elem_of_further. auto.
  - rewrite !elem_of_cons. intros [H|H]; auto.
Qed.

Lemma obj_delete_NoDup k o : NoDup (obj_keys o) -> NoDup (obj_keys (obj_delete k o)).
Proof.
  induction o as [|[k' v'] o IH]; cbn; [auto|].
  rewrite NoDup_cons. intros [H1 H2].
  destruct (bool_decide (k' = k)); cbn; [auto|].
  apply NoDup_cons. split; [|auto]. intros H. apply H1. eapply obj_delete_keys_subset, H.
Qed.

Lemma obj_delete_Forall (P : V -> Prop) k o :
  Forall P (obj_values o) -> Forall P (obj_values (obj_delete k o)).
Proof.
  induction o as [|[k' v'] o IH]; cbn; [auto|].
  intros H. apply Forall_cons in H as [H1 H2].
  destruct (bool_decide (k' = k)); cbn; [auto|]. constructor; auto.
Qed.

Lemma obj_delete_get k o : obj_get k (obj_delete k o) = None.
Proof.
  induction o as [|[k' v'] o IH]; cbn; [reflexivity|].
  destruct (bool_decide (k' = k)) eqn:E; cbn; [exact IH|]. rewrite E. exact IH.
Qed.

Lemma obj_keys_combine (ks : list string) (vs : list V) :
  length ks = length vs -> obj_keys (combine ks vs) = ks.
Proof.
  revert vs. induction ks as [|k ks IH]; intros [|v vs]; cbn; try discriminate; auto.
  intros [= H]. f_equal. apply IH, H.
Qed.

Lemma obj_values_combine (ks : list string) (vs : list V) :
  length ks = length vs -> obj_values (combine ks vs) = vs.
Proof.
  revert vs. induction ks as [|k ks IH]; intros [|v vs]; cbn; try discriminate; auto.
  intros [= H]. f_equal. apply IH, H.
Qed.

Lemma obj_keys_length o : length (obj_keys o) = length o.
Proof. apply length_map. Qed.

Lemma obj_values_length o : length (obj_values o) = length o.
Proof. apply length_map. Qed.

End ObjFacts.

(** * Facts about the game loop *)

Section PinLoop.
Variable room : Room.

Lemma fold_left_preserve {A B} (Q : A -> Prop) (f : A -> B -> A) (l : list B) :
  (forall a b, Q a -> Q (f a b)) -> forall a, Q a -> Q (fold_left f l a).
Proof. intros Hf. induction l as [|b l IH]; cbn; auto. Qed.

(** A property of the array kept by every [pinStep] is kept by the loop. *)
Lemma pinLoop_preserve (Q : list Player -> Prop) arr :
  (forall i j arr, Q arr -> Q (pinStep room i j arr)) -> Q arr -> Q (pinLoop room arr).
Proof.
  intros Hstep H. unfold pinLoop. apply fold_left_preserve; [|exact H].
  intros a i Ha. unfold pinInner. apply fold_left_preserve; [|exact Ha].
  intros a' j Ha'. apply Hstep, Ha'.
Qed.

Lemma pinPair_static a b :
  pinStatic (pinPair room a b).1 = pinStatic a /\ pinStatic (pinPair room a b).2 = pinStatic b.
Proof.
  unfold pinPair. destruct (_ <? _)%float; cbn [fst snd].
  - destruct (_ && _), (_ && _); split; reflexivity.
  - split; reflexivity.
Qed.

Lemma gain_timer_nonneg p : fle 0%float (p_pinTimer p) -> fle 0%float (p_pinTimer (gain p)).
Proof. apply gain_nonneg. Qed.

Lemma decay_timer_nonneg p : fle 0%float (p_pinTimer p) -> fle 0%float (p_pinTimer (decay p)).
Proof. intros H. apply decay_nonneg. apply (fle_fnum _ _ H). Qed.

Lemma pinPair_timer_nonneg a b :
  fle 0%float (p_pinTimer a) -> fle 0%float (p_pinTimer b) ->
  fle 0%float (p_pinTimer (pinPair room a b).1) /\
  fle 0%float (p_pinTimer (pinPair room a b).2).
Proof.
  intros Ha Hb. unfold pinPair. destruct (_ <? _)%float; cbn [fst snd].
  - destruct (_ && _), (_ && _); split;
      auto using gain_timer_nonneg, decay_timer_nonneg.
  - split; auto using decay_timer_nonneg.
Qed.

Lemma pinStep_length i j arr : length (pinStep room i j arr) = length arr.
Proof.
  unfold pinStep. destruct (arr !! i), (arr !! j); try reflexivity.
  destruct (pinPair room _ _). rewrite !length_insert. reflexivity.
Qed.

Lemma pinStep_static i j arr : pinStatic <$> pinStep room i j arr = pinStatic <$> arr.
Proof.
  unfold pinStep.
  destruct (arr !! i) as [a|] eqn:Ei; [|reflexivity].
  destruct (arr !! j) as [b|] eqn:Ej; [|reflexivity].
  destruct (pinPair_static a b) as [Ha Hb].
  destruct (pinPair room a b) as [a' b']. cbn [fst snd] in Ha, Hb.
  rewrite !list_fmap_insert, Ha, Hb.
  rewrite (list_insert_id (pinStatic <$> arr) i).
  - apply list_insert_id. rewrite list_lookup_fmap, Ej. reflexivity.
  - rewrite list_lookup_fmap, Ei. reflexivity.
Qed.

Lemma pinStep_timers i j arr :
  Forall (fun p => fle 0%float (p_pinTimer p)) arr ->
  Forall (fun p => fle 0%float (p_pinTimer p)) (pinStep room i j arr).
Proof.
  intros H. unfold pinStep.
  destruct (arr !! i) as [a|] eqn:Ei; [|exact H].
  destruct (arr !! j) as [b|] eqn:Ej; [|exact H].
  pose proof (Forall_lookup_1 _ _ _ _ H Ei) as Ha.
  pose proof (Forall_lookup_1 _ _ _ _ H Ej) as Hb.
  destruct (pinPair_timer_nonneg a b Ha Hb) as [Ha' Hb'].
  destruct (pinPair room a b) as [a' b']. cbn [fst snd] in Ha', Hb'.
  apply Forall_insert; [|exact Hb']. apply Forall_insert; [exact H | exact Ha'].
Qed.

Lemma pinLoop_length arr : length (pinLoop room arr) = length arr.
Proof.
  apply (pinLoop_preserve (fun l => length l = length arr)); [|reflexivity].
  intros i j l H. rewrite pinStep_length. exact H.
Qed.

(** The pin loop changes nothing but timers. *)
Lemma pinLoop_static arr : pinStatic <$> pinLoop room arr = pinStatic <$> arr.
Proof.
  apply (pinLoop_preserve (fun l => pinStatic <$> l = pinStatic <$> arr)); [|reflexivity].
  intros i j l H. rewrite pinStep_static. exact H.
Qed.

Lemma pinLoop_timers arr :
  Forall (fun p => fle 0%float (p_pinTimer p)) arr ->
  Forall (fun p => fle 0%float (p_pinTimer p)) (pinLoop room arr).
Proof. apply pinLoop_preserve. intros i j l. apply pinStep_timers. Qed.

(** A property that only reads the static part survives the pin loop. *)
Lemma pinLoop_static_Forall (P : Player -> Prop) arr :
  (forall p q, pinStatic p = pinStatic q -> P p -> P q) ->
  Forall P arr -> Forall P (pinLoop room arr).
Proof.
  intros HP H. apply Forall_lookup. intros i q Hq.
  pose proof (pinLoop_static arr) as Hs.
  apply (f_equal (fun l => l !! i)) in Hs. rewrite !list_lookup_fmap, Hq in Hs.
  destruct (arr !! i) as [p|] eqn:Ep; [|discriminate].
  assert (pinStatic p = pinStatic q) as Hpq by (cbn in Hs; congruence).
  apply (HP p q Hpq). eapply Forall_lookup_1; eassumption.
Qed.

End PinLoop.

(** * Room invariants *)

(** Splits [roomOk] into its seven parts. *)
Ltac split_room := refine (conj _ (conj _ (conj _ (conj _ (conj _ (conj _ _)))))).

(** Reduces the field accesses of updated room and player records. *)
Ltac record_simpl :=
  cbn [players width height radius winPinSeconds winner interval
       set_players set_winner set_interval
       p_id p_role p_x p_y p_vx p_vy p_pressing p_pinTimer p_thumbFile p_z
       set_pinTimer set_z set_pos set_intent] in *.

Section RoomInvariants.

Lemma dominantCount_z (l l' : list Player) :
  p_z <$> l = p_z <$> l' -> dominantCount l = dominantCount l'.
Proof.
  revert l'. induction l as [|p l IH]; intros [|q l']; cbn; try discriminate; auto.
  intros [= Hz Hl]. specialize (IH l' Hl). unfold dominantCount in *. cbn.
  assert (dominant p = dominant q) as -> by (unfold dominant; rewrite Hz; reflexivity).
  destruct (dominant q); cbn; auto.
Qed.

Lemma zFlags_z (l l' : list Player) : p_z <$> l = p_z <$> l' -> zFlags l -> zFlags l'.
Proof.
  revert l'. induction l as [|p l IH]; intros [|q l']; cbn; try discriminate; auto.
  intros [= Hz Hl] H. apply Forall_cons in H as [H1 H2].
  constructor; [rewrite <- Hz; exact H1 | apply IH; assumption].
Qed.

Lemma static_z (l l' : list Player) :
  pinStatic <$> l = pinStatic <$> l' -> p_z <$> l = p_z <$> l'.
Proof.
  revert l'. induction l as [|p l IH]; intros [|q l']; cbn; try discriminate; auto.
  intros [= H1 H2 H3 H4 H5 H6 H7 H8 H9 Hl]. f_equal; auto.
Qed.

Lemma static_role (l l' : list Player) :
  pinStatic <$> l = pinStatic <$> l' -> map p_role l = map p_role l'.
Proof.
  revert l'. induction l as [|p l IH]; intros [|q l']; cbn; try discriminate; auto.
  intros [= H1 H2 H3 H4 H5 H6 H7 H8 H9 Hl]. f_equal; auto.
Qed.

Lemma dominantCount_set (k : string) (v : Player) o :
  dominant v = false ->
  dominantCount (obj_values (obj_set k v o)) <= dominantCount (obj_values o).
Proof.
  intros Hv. unfold dominantCount, obj_values.
  induction o as [|[k' v'] o IH]; cbn [obj_set map List.filter snd].
  - rewrite Hv. cbn. lia.
  - destruct (bool_decide (k' = k)); cbn [obj_set map List.filter snd].
    + rewrite Hv. destruct (dominant v'); cbn [length]; lia.
    + destruct (dominant v'); cbn [length]; lia.
Qed.

Lemma dominantCount_delete (k : string) (o : list (string * Player)) :
  dominantCount (obj_values (obj_delete k o)) <= dominantCount (obj_values o).
Proof.
  unfold dominantCount, obj_values.
  induction o as [|[k' v'] o IH]; cbn [obj_delete map List.filter snd]; [lia|].
  destruct (bool_decide (k' = k)); cbn [obj_delete map List.filter snd];
    destruct (dominant v'); cbn [length]; lia.
Qed.

Lemma roomOk_newRoom : roomOk newRoom.
Proof.
  unfold roomOk, newRoom; cbn. repeat split; try constructor.
  - discriminate.
  - intros [H _]. unfold playerCount in H. cbn in H. lia.
  - unfold atMostOneDominant, dominantCount. cbn. lia.
Qed.

(** Under the default configuration the arena bounds are ordered. *)
Lemma default_bounds room :
  defaultConfig room ->
  flt (radius room) (width room - radius room) /\
  flt (radius room) (height room - radius room) /\
  ffinite (radius room) /\ ffinite (width room - radius room) /\
  ffinite (height room - radius room).
Proof.
  intros (Hw & Hh & Hr & _). rewrite Hw, Hh, Hr.
  repeat split; vm_compute; auto.
Qed.

Lemma movePlayer_ok room p :
  defaultConfig room -> playerOk room p -> playerOk room (movePlayer room p).
Proof.
  intros Hc (Ht & (Hx1 & Hx2 & Hy1 & Hy2) & Hvx & Hvy).
  destruct (default_bounds room Hc) as (Bw & Bh & Fr & Fw & Fh).
  pose proof (between_ffinite _ _ _ Fr Fw Hx1 Hx2) as Fx.
  pose proof (between_ffinite _ _ _ Fr Fh Hy1 Hy2) as Fy.
  destruct (clamp_bounds _ _ _ Bw (add_fnum _ _ Fx Hvx)) as [Cx1 Cx2].
  destruct (clamp_bounds _ _ _ Bh (add_fnum _ _ Fy Hvy)) as [Cy1 Cy2].
  unfold playerOk, inArena, movePlayer. cbn. repeat split; assumption.
Qed.

Lemma tick_values_ok room :
  defaultConfig room ->
  Forall (playerOk room) (obj_values (players room)) ->
  Forall (playerOk room) (pinLoop room (map (movePlayer room) (obj_values (players room)))).
Proof.
  intros Hc H.
  assert (Forall (playerOk room) (map (movePlayer room) (obj_values (players room)))) as Hm.
  { apply Forall_map. eapply Forall_impl; [exact H|]. intros p. apply movePlayer_ok, Hc. }
  pose proof (pinLoop_timers room _ (Forall_impl _ _ _ Hm (fun p Hp => proj1 Hp))) as Ht.
  assert (Forall (fun p => inArena room p /\ ffinite (p_vx p) /\ ffinite (p_vy p))
            (pinLoop room (map (movePlayer room) (obj_values (players room))))) as Hs'.
  { apply pinLoop_static_Forall.
    - intros p q [= E1 E2 E3 E4 E5 E6 E7 E8 E9]. unfold inArena.
      rewrite E3, E4, E5, E6. tauto.
    - eapply Forall_impl; [exact Hm|]. intros p Hp. apply Hp. }
  apply Forall_forall. intros p Hp.
  rewrite Forall_forall in Ht, Hs'. split; [apply Ht, Hp | apply Hs', Hp].
Qed.

Lemma tick_values_z room (vals : list Player) :
  p_z <$> pinLoop room (map (movePlayer room) vals) = p_z <$> vals.
Proof.
  rewrite (static_z _ _ (pinLoop_static room _)).
  induction vals as [|p l IH]; cbn; [reflexivity|]. f_equal. exact IH.
Qed.

Lemma tick_values_role room (vals : list Player) :
  map p_role (pinLoop room (map (movePlayer room) vals)) = map p_role vals.
Proof.
  rewrite (static_role _ _ (pinLoop_static room _)).
  induction vals as [|p l IH]; cbn; [reflexivity|]. f_equal. exact IH.
Qed.

Lemma tick_values_length room (vals : list Player) :
  length (pinLoop room (map (movePlayer room) vals)) = length vals.
Proof. rewrite pinLoop_length, length_map. reflexivity. Qed.

(** One step keeps every room invariant. *)
Lemma roomOk_tick room : roomOk room -> roomOk (tickRoomObj room).
Proof.
  intros Hroom. pose proof Hroom as (Hc & Hk & Hl & Hz & Hd & Hp & Hr). unfold tickRoomObj.
  destruct (length (obj_values (players room)) <? 2)%nat eqn:Hn; [exact Hroom|].
  set (vals := pinLoop room (map (movePlayer room) (obj_values (players room)))).
  assert (length (obj_keys (players room)) = length vals) as Hlen.
  { unfold vals. rewrite tick_values_length, obj_keys_length, obj_values_length. reflexivity. }
  assert (roomOk (set_players (combine (obj_keys (players room)) vals) room)) as Hok.
  { unfold roomOk, loopInv, playerCount, defaultConfig in *. record_simpl.
    rewrite obj_keys_combine, obj_values_combine by exact Hlen.
    split_room; try assumption.
    - apply (zFlags_z (obj_values (players room))); [|exact Hz].
      symmetry. apply tick_values_z.
    - unfold atMostOneDominant.
      rewrite (dominantCount_z _ (obj_values (players room))); [exact Hd|].
      apply tick_values_z.
    - apply (tick_values_ok room); assumption.
    - unfold distinctRoles, vals. rewrite tick_values_role. exact Hr. }
  destruct (findWinner _ vals) as [w|]; [|exact Hok].
  destruct (winner (set_players _ room)) eqn:Hw; [exact Hok|].
  destruct Hok as (Hc' & Hk' & Hl' & Hz' & Hd' & Hp' & Hr').
  unfold roomOk, loopInv, playerCount, defaultConfig in *. record_simpl.
  split_room; try assumption.
  split; [discriminate | intros [_ H]; discriminate].
Qed.

End RoomInvariants.

(** * The handlers keep the room invariants *)

Section HandlerInvariants.

Lemma velocityOf_finite data :
  ffinite (velocityOf data).1 /\ ffinite (velocityOf data).2.
Proof. destruct data as [[] [] [] [] ?]; vm_compute; auto. Qed.

Lemma spawn_inArena room role p :
  defaultConfig room ->
  p_x p = (spawnPositions room role).1 -> p_y p = (spawnPositions room role).2 ->
  inArena room p.
Proof.
  intros (Hw & Hh & Hr & _) Hx Hy. unfold inArena, spawnPositions in *.
  rewrite Hx, Hy, Hw, Hh, Hr. destruct role; vm_compute; auto.
Qed.

Lemma obj_set_roles_subset k (v : Player) (o : list (string * Player)) r :
  r ∈ map p_role (obj_values (obj_set k v o)) ->
  r = p_role v \/ r ∈ map p_role (obj_values o).
Proof.
  unfold obj_values.
  induction o as [|[k' v'] o IH]; cbn [obj_set map snd].
  - rewrite list_elem_of_singleton. auto.
  - destruct (bool_decide (k' = k)); cbn [map snd]; rewrite !elem_of_cons.
    + intros [H|H]; auto.
    + intros [H|H]; [auto|]. destruct (IH H); auto.
Qed.

(** Registering a player on a free seat keeps the seats distinct, also
    when the connection already had a player in the room. *)
Lemma obj_set_distinctRoles k (v : Player) (o : list (string * Player)) :
  distinctRoles (obj_values o) -> p_role v ∉ map p_role (obj_values o) ->
  distinctRoles (obj_values (obj_set k v o)).
Proof.
  unfold distinctRoles, obj_values.
  induction o as [|[k' v'] o IH]; cbn [obj_set map snd].
  - intros _ _. apply NoDup_singleton.
  - rewrite NoDup_cons, not_elem_of_cons. intros [H1 H2] [H3 H4].
    destruct (bool_decide (k' = k)); cbn [map snd]; apply NoDup_cons.
    + split; [exact H4 | exact H2].
    + split; [|apply IH; assumption].
      intros H. apply obj_set_roles_subset in H as [H|H]; [congruence | contradiction].
Qed.

Lemma obj_delete_distinctRoles k (o : list (string * Player)) :
  distinctRoles (obj_values o) -> distinctRoles (obj_values (obj_delete k o)).
Proof.
  unfold distinctRoles, obj_values.
  induction o as [|[k' v'] o IH]; cbn [obj_delete map snd]; [auto|].
  rewrite NoDup_cons. intros [H1 H2].
  destruct (bool_decide (k' = k)); cbn [map snd]; [auto|].
  apply NoDup_cons. split; [|auto]. intros H. apply H1. clear - H.
  induction o as [|[k0 v0] o IH]; cbn [obj_delete map snd] in *; [exact H|].
  destruct (bool_decide (k0 = k)); cbn [map snd] in *.
  - apply list_elem_of_further, IH, H.
  - apply elem_of_cons in H as [H|H];
      [rewrite H; apply list_elem_of_here | apply list_elem_of_further, IH, H].
Qed.

(** [assignRole] returns the first seat of [P1], [P2], [P3] that no player
    of the room holds, and nothing exactly when all three are held. *)
Lemma assignRole_first_free room :
  let roles := map p_role (obj_values (players room)) in
  match assignRole room with
  | Some P1 => P1 ∉ roles
  | Some P2 => P1 ∈ roles /\ P2 ∉ roles
  | Some P3 => P1 ∈ roles /\ P2 ∈ roles /\ P3 ∉ roles
  | None => P1 ∈ roles /\ P2 ∈ roles /\ P3 ∈ roles
  end.
Proof.
  unfold assignRole, includes. cbv zeta.
  repeat case_bool_decide; cbn; tauto.
Qed.

Lemma assignRole_free room role :
  assignRole room = Some role -> role ∉ map p_role (obj_values (players room)).
Proof.
  intros H. pose proof (assignRole_first_free room) as Hf. cbv zeta in Hf.
  rewrite H in Hf. destruct role; tauto.
Qed.

(** The room update of a successful [joinRoom]. *)
Lemma roomOk_join socket role thumbFile room :
  roomOk room -> assignRole room = Some role ->
  let spawn := spawnPositions room role in
  let me := mkPlayer socket role spawn.1 spawn.2 0%float 0%float false 0%float thumbFile 0%Z in
  let room1 := set_players (obj_set socket me (players room)) room in
  roomOk (if (2 <=? length (obj_keys (players room1)))%nat && negb (running (interval room1))
          then set_interval IntervalTimer (set_winner None room1)
          else room1).
Proof.
  intros (Hc & Hk & Hl & Hz & Hd & Hp & Hroles) Hrole spawn me room1.
  apply assignRole_free in Hrole.
  assert (playerOk room me) as Hme.
  { split; [vm_compute; reflexivity|]. split; [eapply spawn_inArena; eauto|].
    split; vm_compute; exact I. }
  pose proof (obj_set_length socket me (players room)) as Hlen.
  subst room1.
  match goal with |- roomOk (if ?c then _ else _) => destruct c eqn:Hcond end;
    unfold roomOk, loopInv, playerCount, defaultConfig in *;
    record_simpl; rewrite !obj_keys_length in *.
  - apply andb_true_iff in Hcond as [Hn Hr]. apply Nat.leb_le in Hn.
    split_room; try assumption.
    + apply obj_set_NoDup, Hk.
    + cbn. split; [intros _; split; [exact Hn | reflexivity] | reflexivity].
    + apply obj_set_Forall; [exact Hz | left; reflexivity].
    + unfold atMostOneDominant in *.
      etransitivity; [apply dominantCount_set; reflexivity | exact Hd].
    + apply obj_set_Forall; [exact Hp | exact Hme].
    + apply obj_set_distinctRoles; [exact Hroles | exact Hrole].
  - split_room; try assumption.
    + apply obj_set_NoDup, Hk.
    + apply andb_false_iff in Hcond as [Hn|Hr].
      * apply Nat.leb_gt in Hn. split.
        -- intros Hrun. apply Hl in Hrun. lia.
        -- intros [Hge _]. lia.
      * apply negb_false_iff in Hr. split.
        -- intros _. apply Hl in Hr. split; [lia | apply Hr].
        -- intros _. exact Hr.
    + apply obj_set_Forall; [exact Hz | left; reflexivity].
    + unfold atMostOneDominant in *.
      etransitivity; [apply dominantCount_set; reflexivity | exact Hd].
    + apply obj_set_Forall; [exact Hp | exact Hme].
    + apply obj_set_distinctRoles; [exact Hroles | exact Hrole].
Qed.

Lemma applyZ_keys socket me ps :
  obj_get socket ps <> None -> obj_keys (applyZ socket me ps) = obj_keys ps.
Proof.
  intros H. unfold applyZ. destruct (p_pressing me).
  - unfold obj_keys. rewrite map_map. apply map_ext. intros [k v]. cbn.
    destruct (bool_decide (k = socket)); reflexivity.
  - apply obj_keys_set_old, H.
Qed.

Lemma raise_count socket me (ps : list (string * Player)) :
  socket ∉ obj_keys ps ->
  dominantCount (obj_values
    (map (fun kv => if bool_decide (kv.1 = socket) then (kv.1, set_z 1 me)
                    else (kv.1, set_z 0 kv.2)) ps)) = 0.
Proof.
  unfold dominantCount, obj_values.
  induction ps as [|[k v] ps IH]; cbn [map obj_keys fst snd List.filter]; [reflexivity|].
  rewrite not_elem_of_cons. intros [Hne Hnot].
  rewrite bool_decide_eq_false_2 by congruence. cbn [snd]. apply IH, Hnot.
Qed.

Lemma raise_atMostOne socket me (ps : list (string * Player)) :
  NoDup (obj_keys ps) ->
  dominantCount (obj_values
    (map (fun kv => if bool_decide (kv.1 = socket) then (kv.1, set_z 1 me)
                    else (kv.1, set_z 0 kv.2)) ps)) <= 1.
Proof.
  induction ps as [|[k v] ps IH]; cbn [map obj_keys fst snd]; [cbn; lia|].
  rewrite NoDup_cons. intros [Hk Hnd].
  destruct (bool_decide (k = socket)) eqn:E.
  - apply bool_decide_eq_true_1 in E. subst k.
    pose proof (raise_count socket me ps Hk) as H0.
    unfold dominantCount, obj_values in *. cbn [map snd List.filter].
    destruct (dominant (set_z 1 me)); cbn [length]; lia.
  - specialize (IH Hnd). unfold dominantCount, obj_values in *.
    cbn [map snd List.filter]. exact IH.
Qed.

Lemma raise_Forall (P : Player -> Prop) socket me (ps : list (string * Player)) :
  P (set_z 1 me) -> (forall p, P p -> P (set_z 0 p)) ->
  Forall P (obj_values ps) ->
  Forall P (obj_values
    (map (fun kv => if bool_decide (kv.1 = socket) then (kv.1, set_z 1 me)
                    else (kv.1, set_z 0 kv.2)) ps)).
Proof.
  intros Hme H0. unfold obj_values.
  induction ps as [|[k v] ps IH]; cbn [map fst snd]; [auto|].
  intros H. apply Forall_cons in H as [H1 H2].
  destruct (bool_decide (k = socket)); cbn [snd]; constructor; auto.
Qed.

Lemma obj_set_same {B} (f : Player -> B) socket (me me' : Player)
    (ps : list (string * Player)) :
  obj_get socket ps = Some me -> f me' = f me ->
  map f (obj_values (obj_set socket me' ps)) = map f (obj_values ps).
Proof.
  intros Hme Hf. unfold obj_values.
  induction ps as [|[k p] l IH]; cbn in Hme |- *; [discriminate|].
  destruct (bool_decide (k = socket)); cbn.
  - injection Hme as ->. rewrite Hf. reflexivity.
  - f_equal. apply IH, Hme.
Qed.

Lemma obj_set_same_z socket (me me' : Player) (ps : list (string * Player)) :
  obj_get socket ps = Some me -> p_z me' = p_z me ->
  p_z <$> obj_values (obj_set socket me' ps) = p_z <$> obj_values ps.
Proof. apply (obj_set_same p_z). Qed.

Lemma raise_roles_absent socket me (ps : list (string * Player)) :
  socket ∉ obj_keys ps ->
  map p_role (obj_values
    (map (fun kv => if bool_decide (kv.1 = socket) then (kv.1, set_z 1 me)
                    else (kv.1, set_z 0 kv.2)) ps)) = map p_role (obj_values ps).
Proof.
  unfold obj_values.
  induction ps as [|[k v] ps IH]; cbn [map obj_keys fst snd]; [reflexivity|].
  rewrite not_elem_of_cons. intros [Hne Hnot].
  rewrite bool_decide_eq_false_2 by congruence. cbn [snd]. f_equal. apply IH, Hnot.
Qed.

(** Raising the sender's thumb changes nobody's seat. *)
Lemma raise_roles socket me (ps : list (string * Player)) :
  NoDup (obj_keys ps) -> obj_get socket ps = Some me ->
  map p_role (obj_values
    (map (fun kv => if bool_decide (kv.1 = socket) then (kv.1, set_z 1 me)
                    else (kv.1, set_z 0 kv.2)) ps)) = map p_role (obj_values ps).
Proof.
  induction ps as [|[k v] ps IH]; cbn [obj_keys obj_get map fst snd]; [discriminate|].
  rewrite NoDup_cons. intros [Hk Hnd].
  destruct (bool_decide (k = socket)) eqn:E.
  - apply bool_decide_eq_true_1 in E. subst k. intros [= ->].
    pose proof (raise_roles_absent socket me ps Hk) as Habs.
    unfold obj_values in *. cbn [map snd]. f_equal. exact Habs.
  - intros Hme. specialize (IH Hnd Hme). unfold obj_values in *. cbn [map snd].
    f_equal. exact IH.
Qed.

(** The room update of an accepted [input]. *)
Lemma roomOk_input socket data room me :
  roomOk room -> obj_get socket (players room) = Some me ->
  let v := velocityOf data in
  let me' := set_intent v.1 v.2 (i_pressing data) me in
  roomOk (set_players (applyZ socket me' (obj_set socket me' (players room))) room).
Proof.
  intros (Hc & Hk & Hl & Hz & Hd & Hp & Hroles) Hme v me'.
  assert (obj_keys (obj_set socket me' (players room)) = obj_keys (players room)) as Hkeys
    by (apply obj_keys_set_old; congruence).
  assert (obj_get socket (obj_set socket me' (players room)) <> None) as Hin
    by (rewrite obj_get_set_eq; discriminate).
  assert (me ∈ obj_values (players room)) as Hmem by (eapply obj_get_value, Hme).
  pose proof (proj1 (list.Forall_forall _ _) Hp _ Hmem) as Hok.
  assert (playerOk room me') as Hok'.
  { destruct Hok as (Ht & Ha & _). destruct (velocityOf_finite data) as [F1 F2].
    split; [exact Ht|]. split; [exact Ha|]. split; assumption. }
  pose proof (proj1 (list.Forall_forall _ _) Hz _ Hmem) as Hzme. cbv beta in Hzme.
  unfold roomOk, loopInv, playerCount, defaultConfig in *. record_simpl.
  rewrite (applyZ_keys _ _ _ Hin), Hkeys.
  split_room; try assumption.
  - unfold applyZ. destruct (p_pressing me').
    + apply raise_Forall; [right; reflexivity | intros; left; reflexivity |].
      apply obj_set_Forall; [exact Hz | exact Hzme].
    + apply obj_set_Forall; [|left; reflexivity].
      apply obj_set_Forall; [exact Hz | exact Hzme].
  - unfold atMostOneDominant, applyZ in *. destruct (p_pressing me').
    + apply raise_atMostOne. rewrite Hkeys. exact Hk.
    + etransitivity; [apply dominantCount_set; reflexivity|].
      rewrite (dominantCount_z _ (obj_values (players room))); [exact Hd|].
      apply (obj_set_same_z socket me me'); [exact Hme | reflexivity].
  - unfold applyZ. destruct (p_pressing me').
    + apply raise_Forall; [exact Hok' | auto |].
      apply obj_set_Forall; [exact Hp | exact Hok'].
    + apply obj_set_Forall; [|exact Hok'].
      apply obj_set_Forall; [exact Hp | exact Hok'].
  - unfold distinctRoles, applyZ. destruct (p_pressing me').
    + rewrite raise_roles;
        [|rewrite Hkeys; exact Hk | apply obj_get_set_eq].
      rewrite (obj_set_same p_role socket me me'); [exact Hroles | exact Hme | reflexivity].
    + rewrite (obj_set_same p_role socket me' (set_z 0 me'));
        [|apply obj_get_set_eq | reflexivity].
      rewrite (obj_set_same p_role socket me me'); [exact Hroles | exact Hme | reflexivity].
Qed.

(** The room update of [disconnect]. *)
Lemma roomOk_disconnect socket room :
  roomOk room ->
  let room1 := set_players (obj_delete socket (players room)) room in
  roomOk (if (length (obj_keys (players room1)) <? 2)%nat && running (interval room1)
          then set_winner None (set_interval IntervalNull room1)
          else room1).
Proof.
  intros (Hc & Hk & Hl & Hz & Hd & Hp & Hroles) room1.
  pose proof (obj_delete_length socket (players room)) as Hlen.
  subst room1.
  match goal with |- roomOk (if ?c then _ else _) => destruct c eqn:Hcond end;
    unfold roomOk, loopInv, playerCount, defaultConfig in *;
    record_simpl; rewrite !obj_keys_length in *.
  - apply andb_true_iff in Hcond as [Hn Hr]. apply Nat.ltb_lt in Hn.
    split_room; try assumption.
    + apply obj_delete_NoDup, Hk.
    + cbn. split; [discriminate | intros [Hge _]; lia].
    + apply obj_delete_Forall, Hz.
    + unfold atMostOneDominant in *.
      etransitivity; [apply dominantCount_delete | exact Hd].
    + apply obj_delete_Forall, Hp.
    + apply obj_delete_distinctRoles, Hroles.
  - split_room; try assumption.
    + apply obj_delete_NoDup, Hk.
    + apply andb_false_iff in Hcond as [Hn|Hr].
      * apply Nat.ltb_ge in Hn. split.
        -- intros Hrun. apply Hl in Hrun. split; [exact Hn | apply Hrun].
        -- intros [_ Hw]. apply Hl. split; [lia | exact Hw].
      * split; [congruence|]. intros [Hge Hw].
        assert (running (interval room) = true) by (apply Hl; split; [lia | exact Hw]).
        congruence.
    + apply obj_delete_Forall, Hz.
    + unfold atMostOneDominant in *.
      etransitivity; [apply dominantCount_delete | exact Hd].
    + apply obj_delete_Forall, Hp.
    + apply obj_delete_distinctRoles, Hroles.
Qed.

End HandlerInvariants.

(** * Server invariants *)

Section ServerInvariants.

Lemma serverOk_insert rs socks socks' roomId room :
  serverOk (mkServer rs socks) -> roomOk room ->
  serverOk (mkServer (<[roomId := room]> rs) socks').
Proof.
  intros Hst Hroom rid r. cbn. rewrite lookup_insert.
  destruct (decide (roomId = rid)); [intros [= <-]; exact Hroom | apply Hst].
Qed.

Lemma serverOk_delete rs socks socks' roomId :
  serverOk (mkServer rs socks) -> serverOk (mkServer (delete roomId rs) socks').
Proof.
  intros Hst rid r. cbn. rewrite lookup_delete.
  destruct (decide (roomId = rid)); [discriminate | apply Hst].
Qed.

Lemma serverOk_sockets st socks : serverOk st -> serverOk (mkServer (rooms st) socks).
Proof. intros Hst rid r. apply Hst. Qed.

Lemma createRoomIfNeeded_lookup roomId rs :
  createRoomIfNeeded roomId rs !! roomId = Some (createRoomIfNeeded roomId rs !!! roomId).
Proof.
  unfold createRoomIfNeeded. destruct (rs !! roomId) as [r|] eqn:E.
  - rewrite E. symmetry. f_equal. apply lookup_total_correct, E.
  - rewrite lookup_insert_eq. f_equal. symmetry. apply lookup_total_insert_eq.
Qed.

(** The room that [joinRoom] works on: the registered one, or a new one. *)
Lemma createRoomIfNeeded_room roomId rs :
  createRoomIfNeeded roomId rs !!! roomId = default newRoom (rs !! roomId).
Proof.
  unfold createRoomIfNeeded. destruct (rs !! roomId) as [r|] eqn:E; cbn.
  - apply lookup_total_correct, E.
  - apply lookup_total_insert_eq.
Qed.

Lemma createRoomIfNeeded_other roomId rid rs :
  rid <> roomId -> createRoomIfNeeded roomId rs !! rid = rs !! rid.
Proof.
  intros Hne. unfold createRoomIfNeeded. destruct (rs !! roomId); [reflexivity|].
  apply lookup_insert_ne. congruence.
Qed.

Lemma createRoomIfNeeded_ok roomId st :
  serverOk st -> serverOk (mkServer (createRoomIfNeeded roomId (rooms st)) (sockets st)).
Proof.
  intros Hst. unfold createRoomIfNeeded. destruct (rooms st !! roomId) eqn:E.
  - apply serverOk_sockets, Hst.
  - apply (serverOk_insert (rooms st) (sockets st)); [exact Hst | apply roomOk_newRoom].
Qed.

Lemma joinRoom_serverOk socket rid data st :
  serverOk st -> serverOk (joinRoom socket rid data st).1.
Proof.
  intros Hst. unfold joinRoom.
  destruct (bool_decide _ || _); [apply serverOk_sockets, Hst|].
  cbn [set_roomId rooms sockets].
  pose proof (createRoomIfNeeded_ok (normalizeRoomId rid) st Hst) as Hrs.
  pose proof (createRoomIfNeeded_lookup (normalizeRoomId rid) (rooms st)) as Hroom.
  set (rs := createRoomIfNeeded (normalizeRoomId rid) (rooms st)) in *.
  set (room := rs !!! normalizeRoomId rid) in *.
  destruct (assignRole room) as [role|] eqn:Hrole; cbn [fst].
  - eapply serverOk_insert; [exact Hrs|].
    apply (roomOk_join socket role (thumbFileOf data) room); [|exact Hrole].
    apply (Hrs _ _ Hroom).
  - intros r' room'. apply Hrs.
Qed.

Lemma input_serverOk socket data st : serverOk st -> serverOk (input socket data st).
Proof.
  intros Hst. unfold input.
  destruct (currentRoomId socket st) as [roomId|]; [|exact Hst].
  destruct (rooms st !! roomId) as [room|] eqn:Hroom; [|exact Hst].
  destruct (obj_get socket (players room)) as [me|] eqn:Hme; [|exact Hst].
  destruct (bool_decide (winner room ≠ None)); [exact Hst|].
  apply (serverOk_insert (rooms st) (sockets st)); [exact Hst|].
  apply roomOk_input; [apply (Hst _ _ Hroom) | exact Hme].
Qed.

Lemma disconnect_serverOk socket st : serverOk st -> serverOk (disconnect socket st).
Proof.
  intros Hst. unfold disconnect.
  destruct (currentRoomId socket st) as [roomId|]; [|exact Hst].
  destruct (rooms st !! roomId) as [room|] eqn:Hroom; [|exact Hst].
  pose proof (roomOk_disconnect socket room (Hst _ _ Hroom)) as Hok. cbv zeta in Hok.
  pose proof (serverOk_insert (rooms st) (sockets st) (sockets st) roomId _ Hst Hok) as Hins.
  destruct (_ =? 0)%nat; [|exact Hins].
  eapply serverOk_delete, Hins.
Qed.

Lemma tickRoom_serverOk roomId st : serverOk st -> serverOk (tickRoom roomId st).
Proof.
  intros Hst. unfold tickRoom.
  destruct (rooms st !! roomId) as [room|] eqn:Hroom; [|exact Hst].
  apply (serverOk_insert (rooms st) (sockets st)); [exact Hst|].
  apply roomOk_tick, (Hst _ _ Hroom).
Qed.

(** Every event keeps every room invariant. *)
Lemma step_serverOk st e : serverOk st -> serverOk (step st e).
Proof.
  intros Hst. destruct e as [s|s rid data|s data|s|rid]; cbn [step].
  - destruct (connected s st); [exact Hst | apply serverOk_sockets, Hst].
  - destruct (connected s st); [apply joinRoom_serverOk, Hst | exact Hst].
  - destruct (connected s st); [apply input_serverOk, Hst | exact Hst].
  - destruct (connected s st); [|exact Hst].
    apply serverOk_sockets, disconnect_serverOk, Hst.
  - destruct (timerLive rid st); [apply tickRoom_serverOk, Hst | exact Hst].
Qed.

Lemma initial_serverOk : serverOk initial.
Proof. intros rid room. cbn. rewrite lookup_empty. discriminate. Qed.

Lemma reachable_serverOk st : reachable st -> serverOk st.
Proof.
  induction 1 as [|st e _ IH]; [apply initial_serverOk | apply step_serverOk, IH].
Qed.

Lemma run_app st tr1 tr2 : run st (tr1 ++ tr2) = run (run st tr1) tr2.
Proof. apply fold_left_app. Qed.

Lemma reachable_run_from st trace : reachable st -> reachable (run st trace).
Proof.
  revert st. induction trace as [|e tr IH]; intros st H; cbn; [exact H|].
  apply IH. constructor. exact H.
Qed.

(** Every state reached by running a trace from the start is reachable. *)
Lemma reachable_run trace : reachable (run initial trace).
Proof. apply reachable_run_from. constructor. Qed.

End ServerInvariants.

(** * Movement: integrate and clamp *)

Section Movement.

(** In every reachable room the arena bounds are ordered and every
    integrated coordinate is a number, so the hypotheses of
    [move_clamps_into_arena] always hold when [tickRoom] runs. *)
Lemma reachable_move_defined st roomId room p :
  reachable st -> rooms st !! roomId = Some room -> p ∈ obj_values (players room) ->
  flt (radius room) (width room - radius room) /\
  flt (radius room) (height room - radius room) /\
  fnum (p_x p + p_vx p) /\ fnum (p_y p + p_vy p).
Proof.
  intros Hreach Hroom Hp.
  destruct (reachable_serverOk st Hreach _ _ Hroom) as (Hc & _ & _ & _ & _ & Hok & _).
  pose proof (proj1 (list.Forall_forall _ _) Hok _ Hp)
    as (_ & (Hx1 & Hx2 & Hy1 & Hy2) & Hvx & Hvy).
  destruct (default_bounds room Hc) as (Bw & Bh & Fr & Fw & Fh).
  split; [exact Bw|]. split; [exact Bh|]. split; apply add_fnum; try assumption.
  - eapply between_ffinite; [exact Fr | exact Fw | exact Hx1 | exact Hx2].
  - eapply between_ffinite; [exact Fr | exact Fh | exact Hy1 | exact Hy2].
Qed.

(** C6: after the move-and-clamp body of a step, a player's [x] lies in
    [[radius, width - radius]] and its [y] in [[radius, height - radius]],
    whatever the prior position and velocity (as long as their sum is a
    number, which it is in every reachable state); a coordinate
    carried past a bound is pinned exactly at that bound. *)
Theorem move_clamps_into_arena room p :
  flt (radius room) (width room - radius room) ->
  flt (radius room) (height room - radius room) ->
  fnum (p_x p + p_vx p) -> fnum (p_y p + p_vy p) ->
  let q := movePlayer room p in
  (fle (radius room) (p_x q) /\ fle (p_x q) (width room - radius room) /\
   fle (radius room) (p_y q) /\ fle (p_y q) (height room - radius room)) /\
  (flt (width room - radius room) (p_x p + p_vx p) -> p_x q = (width room - radius room)%float) /\
  (flt (p_x p + p_vx p) (radius room) -> p_x q = radius room) /\
  (flt (height room - radius room) (p_y p + p_vy p) -> p_y q = (height room - radius room)%float) /\
  (flt (p_y p + p_vy p) (radius room) -> p_y q = radius room).
Proof.
  intros Bw Bh Nx Ny q. subst q. unfold movePlayer. record_simpl.
  destruct (clamp_bounds _ _ _ Bw Nx) as [Cx1 Cx2].
  destruct (clamp_bounds _ _ _ Bh Ny) as [Cy1 Cy2].
  split; [repeat split; assumption|].
  split; [apply clamp_above, Bw|]. split; [apply clamp_below, Bw|].
  split; [apply clamp_above, Bh | apply clamp_below, Bh].
Qed.

End Movement.

(** * Input: the stored velocity *)

Section InputVelocity.

Lemma raise_get socket me (ps : list (string * Player)) :
  obj_get socket ps <> None ->
  obj_get socket
    (map (fun kv => if bool_decide (kv.1 = socket) then (kv.1, set_z 1 me)
                    else (kv.1, set_z 0 kv.2)) ps) = Some (set_z 1 me).
Proof.
  induction ps as [|[k v] ps IH]; cbn [map obj_get fst snd]; [congruence|].
  destruct (bool_decide (k = socket)) eqn:E; cbn [obj_get]; rewrite E; auto.
Qed.

Lemma raise_get_other socket k me (ps : list (string * Player)) :
  k <> socket ->
  obj_get k
    (map (fun kv => if bool_decide (kv.1 = socket) then (kv.1, set_z 1 me)
                    else (kv.1, set_z 0 kv.2)) ps) = set_z 0 <$> obj_get k ps.
Proof.
  intros Hne. induction ps as [|[k' v] ps IH]; cbn [map obj_get fst snd]; [reflexivity|].
  destruct (bool_decide (k' = socket)) eqn:E; cbn [obj_get].
  - apply bool_decide_eq_true_1 in E. subst k'.
    rewrite bool_decide_eq_false_2 by congruence. exact IH.
  - destruct (bool_decide (k' = k)); [reflexivity | exact IH].
Qed.

(** What an accepted [input] leaves in the store. *)
Lemma input_accepted socket data st roomId room me :
  currentRoomId socket st = Some roomId -> rooms st !! roomId = Some room ->
  obj_get socket (players room) = Some me -> winner room = None ->
  let v := velocityOf data in
  let me' := set_intent v.1 v.2 (i_pressing data) me in
  input socket data st =
    mkServer (<[roomId := set_players (applyZ socket me' (obj_set socket me' (players room))) room]>
                (rooms st)) (sockets st).
Proof.
  intros Hc Hroom Hme Hw. unfold input. rewrite Hc, Hroom, Hme, Hw.
  rewrite bool_decide_eq_false_2 by (intros H; apply H; reflexivity). reflexivity.
Qed.

Lemma applyZ_get socket me' (ps : list (string * Player)) :
  obj_get socket ps <> None ->
  obj_get socket (applyZ socket me' ps)
  = Some (set_z (if p_pressing me' then 1 else 0) me').
Proof.
  intros H. unfold applyZ. destruct (p_pressing me').
  - apply raise_get, H.
  - apply obj_get_set_eq.
Qed.

(** C9: an input from a registered player of a room without winner stores
    the direction vector [(right - left, down - up)] divided by its
    magnitude and multiplied by [speed]; the divisor is [1] when the raw
    vector is zero, so the stored velocity is then exactly zero, and the
    stored velocity is a number in every case. *)
Theorem input_stores_scaled_direction socket data st roomId room me :
  currentRoomId socket st = Some roomId -> rooms st !! roomId = Some room ->
  obj_get socket (players room) = Some me -> winner room = None ->
  exists room' me',
    rooms (input socket data st) !! roomId = Some room' /\
    obj_get socket (players room') = Some me' /\
    let d := rawDirection data in
    let mag := JS.or_else (JS.Math_hypot d.1 d.2) 1%float in
    p_vx me' = (d.1 / mag * speed)%float /\
    p_vy me' = (d.2 / mag * speed)%float /\
    fnum (p_vx me') /\ fnum (p_vy me') /\
    (d = (0%float, 0%float) ->
     mag = 1%float /\ p_vx me' = 0%float /\ p_vy me' = 0%float).
Proof.
  intros Hc Hroom Hme Hw.
  rewrite (input_accepted socket data st roomId room me Hc Hroom Hme Hw).
  cbn [rooms]. rewrite lookup_insert_eq.
  eexists. eexists. split; [reflexivity|]. record_simpl.
  split; [apply applyZ_get; rewrite obj_get_set_eq; discriminate|].
  record_simpl. split; [reflexivity|]. split; [reflexivity|].
  destruct data as [[] [] [] [] pr]; vm_compute;
    repeat split; try congruence; try reflexivity.
Qed.

(** The nine velocities an input can store. *)
Lemma velocityOf_table data :
  let d := rawDirection data in
  let diag := 2.2627416997969521%float in
  velocityOf data =
    ((if (d.1 =? 0)%float then 0
      else if (d.2 =? 0)%float then d.1 * speed else d.1 * diag)%float,
     (if (d.2 =? 0)%float then 0
      else if (d.1 =? 0)%float then d.2 * speed else d.2 * diag)%float).
Proof. destruct data as [[] [] [] [] pr]; vm_compute; reflexivity. Qed.

End InputVelocity.

(** * Tick loop, dominance flag and timers in reachable states *)

Section ReachableRooms.


Lemma dominantCount_two (ps : list (string * Player)) k1 k2 p1 p2 :
  NoDup (obj_keys ps) -> k1 <> k2 ->
  obj_get k1 ps = Some p1 -> obj_get k2 ps = Some p2 ->
  dominant p1 = true -> dominant p2 = true ->
  2 <= dominantCount (obj_values ps).
Proof.
  unfold dominantCount, obj_values.
  induction ps as [|[k v] ps IH]; cbn [obj_keys map obj_get fst snd List.filter];
    [discriminate|].
  rewrite NoDup_cons. intros [Hk Hnd] Hne H1 H2 D1 D2.
  assert (forall k' p', obj_get k' ps = Some p' -> dominant p' = true ->
                        1 <= length (List.filter dominant (map snd ps))) as Hone.
  { clear. intros k' p'. induction ps as [|[k v] ps IH]; cbn [obj_get map snd List.filter];
      [discriminate|].
    destruct (bool_decide (k = k')).
    - intros [= ->] ->. cbn. lia.
    - intros H D. specialize (IH H D). destruct (dominant v); cbn; lia. }
  destruct (bool_decide (k = k1)) eqn:E1, (bool_decide (k = k2)) eqn:E2.
  - apply bool_decide_eq_true_1 in E1, E2. congruence.
  - injection H1 as ->. rewrite D1. cbn [length]. specialize (Hone _ _ H2 D2). lia.
  - injection H2 as ->. rewrite D2. cbn [length]. specialize (Hone _ _ H1 D1). lia.
  - specialize (IH Hnd Hne H1 H2 D1 D2). destruct (dominant v); cbn [length]; lia.
Qed.

(** C7: in every reachable state at most one player of a room is
    dominant ([z = 1]), so no two distinct players are; an accepted input
    with [pressing] set makes the sender dominant and clears the flag of
    every other player of the room, and one with [pressing] unset clears
    the sender's own flag. *)
Theorem at_most_one_dominant st :
  reachable st ->
  (forall roomId room, rooms st !! roomId = Some room ->
     atMostOneDominant (obj_values (players room)) /\
     (forall k1 k2 p1 p2, obj_get k1 (players room) = Some p1 ->
        obj_get k2 (players room) = Some p2 ->
        p_z p1 = 1%Z -> p_z p2 = 1%Z -> k1 = k2)) /\
  (forall socket data roomId room me,
     currentRoomId socket st = Some roomId -> rooms st !! roomId = Some room ->
     obj_get socket (players room) = Some me -> winner room = None ->
     exists room', rooms (input socket data st) !! roomId = Some room' /\
       (i_pressing data = true ->
          forall k p, obj_get k (players room') = Some p ->
            p_z p = if bool_decide (k = socket) then 1%Z else 0%Z) /\
       (i_pressing data = false ->
          exists me', obj_get socket (players room') = Some me' /\ p_z me' = 0%Z)).
Proof.
  intros Hreach. split.
  - intros roomId room Hroom.
    destruct (reachable_serverOk st Hreach _ _ Hroom) as (_ & Hk & _ & _ & Hd & _).
    split; [exact Hd|]. intros k1 k2 p1 p2 H1 H2 Z1 Z2.
    destruct (decide (k1 = k2)) as [|Hne]; [assumption|]. exfalso.
    pose proof (dominantCount_two (players room) k1 k2 p1 p2 Hk Hne H1 H2) as H.
    unfold atMostOneDominant in Hd. unfold dominant in H.
    rewrite !bool_decide_eq_true in H. specialize (H Z1 Z2). lia.
  - intros socket data roomId room me Hc Hroom Hme Hw.
    rewrite (input_accepted socket data st roomId room me Hc Hroom Hme Hw).
    cbn [rooms]. rewrite lookup_insert_eq. eexists. split; [reflexivity|].
    record_simpl. unfold applyZ. record_simpl.
    assert (forall m, obj_get socket (obj_set socket m (players room)) <> None) as Hin
      by (intros m; rewrite obj_get_set_eq; discriminate).
    split.
    + intros ->. intros k p. destruct (bool_decide (k = socket)) eqn:E.
      * apply bool_decide_eq_true_1 in E. subst k.
        rewrite raise_get by apply Hin. intros [= <-]. reflexivity.
      * apply bool_decide_eq_false_1 in E. rewrite raise_get_other by exact E.
        destruct (obj_get k _); cbn; [intros [= <-]; reflexivity | discriminate].
    + intros ->. eexists. split; [apply obj_get_set_eq | reflexivity].
Qed.

(** C2 (amended): in every reachable state the dominance timer of every
    player is a number that is not negative.  No upper bound is part of
    the statement: the code never clamps the timer to the threshold. *)
Theorem pinTimer_never_negative st roomId room p :
  reachable st -> rooms st !! roomId = Some room -> p ∈ obj_values (players room) ->
  fle 0%float (p_pinTimer p) /\ (p_pinTimer p <? 0)%float = false.
Proof.
  intros Hreach Hroom Hp.
  destruct (reachable_serverOk st Hreach _ _ Hroom) as (_ & _ & _ & _ & _ & Hok & _).
  pose proof (proj1 (list.Forall_forall _ _) Hok _ Hp) as (Ht & _).
  split; [exact Ht|].
  destruct (p_pinTimer p <? 0)%float eqn:E; [|reflexivity].
  exfalso. eapply flt_not_fle; [exact E | exact Ht].
Qed.

Lemma roles_at_most_three (l : list Role) : NoDup l -> length l <= 3.
Proof.
  intros H. change 3 with (length [P1; P2; P3]).
  apply submseteq_length, NoDup_submseteq; [exact H|].
  intros [] _; rewrite !elem_of_cons; auto.
Qed.

(** In every reachable room the seats held are distinct, so a room never has
    more than three players: the two- and three-player cases of
    [pin_loop_pairwise_rule] are all the cases a step can meet. *)
Lemma reachable_at_most_three st roomId room :
  reachable st -> rooms st !! roomId = Some room ->
  distinctRoles (obj_values (players room)) /\ playerCount room <= 3.
Proof.
  intros Hreach Hroom.
  destruct (reachable_serverOk st Hreach _ _ Hroom) as (_ & _ & _ & _ & _ & _ & Hr).
  split; [exact Hr|]. apply roles_at_most_three in Hr.
  unfold playerCount. rewrite length_map in Hr. unfold obj_values in Hr.
  rewrite length_map in Hr. rewrite obj_keys_length. exact Hr.
Qed.

End ReachableRooms.

(** * The pairwise pin rule *)

Section PinRule.
Variable room : Room.

Lemma flags_pair a b :
  zFlags [a; b] -> atMostOneDominant [a; b] ->
  ((p_z a >? p_z b)%Z = dominant a) /\ ((p_z b >? p_z a)%Z = dominant b).
Proof.
  unfold zFlags, atMostOneDominant, dominantCount, dominant. intros Hz Hd.
  apply Forall_cons in Hz as [Ha Hz]. apply Forall_cons in Hz as [Hb _].
  cbn [List.filter] in Hd.
  destruct Ha as [Ha|Ha], Hb as [Hb|Hb]; rewrite Ha, Hb in *;
    try (split; reflexivity).
  vm_compute in Hd. lia.
Qed.

(** The loop body applies the specification's rule to both members. *)
Lemma pinPair_rule a b :
  zFlags [a; b] -> atMostOneDominant [a; b] ->
  pinPair room a b = (pairRule (contact room a b) a, pairRule (contact room a b) b).
Proof.
  intros Hz Hd. destruct (flags_pair a b Hz Hd) as [Ea Eb].
  unfold pinPair, pairRule, contact, dominantActing.
  destruct (_ <? _)%float; cbn [andb]; [|reflexivity].
  rewrite Ea, Eb. reflexivity.
Qed.

Lemma pairRule_static k p : pinStatic (pairRule k p) = pinStatic p.
Proof. unfold pairRule. destruct (_ && _); reflexivity. Qed.

Lemma contact_static a a' b b' :
  pinStatic a' = pinStatic a -> pinStatic b' = pinStatic b ->
  contact room a' b' = contact room a b.
Proof.
  intros [= _ _ Ax Ay _ _ _ _ _] [= _ _ Bx By _ _ _ _ _].
  unfold contact. rewrite Ax, Ay, Bx, By. reflexivity.
Qed.

Lemma zFlags_static (l l' : list Player) :
  pinStatic <$> l' = pinStatic <$> l -> zFlags l -> zFlags l'.
Proof. intros H. apply zFlags_z. symmetry. apply static_z, H. Qed.

Lemma atMostOne_static (l l' : list Player) :
  pinStatic <$> l' = pinStatic <$> l -> atMostOneDominant l -> atMostOneDominant l'.
Proof.
  intros H. unfold atMostOneDominant.
  rewrite (dominantCount_z l' l); [auto | apply static_z, H].
Qed.

Lemma zFlags_sub2 a b c :
  zFlags [a; b; c] -> zFlags [a; b] /\ zFlags [a; c] /\ zFlags [b; c].
Proof.
  unfold zFlags. intros H.
  apply Forall_cons in H as [Ha H]. apply Forall_cons in H as [Hb H].
  apply Forall_cons in H as [Hc _].
  repeat split; repeat (first [apply Forall_nil_2 | apply Forall_cons_2]); assumption.
Qed.

Lemma atMostOne_sub2 a b c :
  atMostOneDominant [a; b; c] ->
  atMostOneDominant [a; b] /\ atMostOneDominant [a; c] /\ atMostOneDominant [b; c].
Proof.
  unfold atMostOneDominant, dominantCount. cbn [List.filter].
  destruct (dominant a), (dominant b), (dominant c); cbn [length]; lia.
Qed.

Lemma fold_left_flat_map {A B C} (f : A -> C -> A) (g : B -> list C) (l : list B) :
  forall a, fold_left f (flat_map g l) a = fold_left (fun a x => fold_left f (g x) a) l a.
Proof.
  induction l as [|x l IH]; intros a; cbn; [reflexivity|].
  rewrite fold_left_app. apply IH.
Qed.

Lemma pin_fold_pairs n (idx : list nat) : forall a,
  fold_left (fun arr i => pinInner room n i arr) idx a =
  fold_left (fun a i => fold_left (fun arr ij => pinStep room ij.1 ij.2 arr)
                          (map (fun j => (i, j)) (seq (S i) (n - S i))) a) idx a.
Proof.
  induction idx as [|i idx IH]; intros a; cbn [fold_left]; [reflexivity|].
  rewrite IH. f_equal. unfold pinInner.
  generalize (seq (S i) (n - S i)). intros js. revert a.
  induction js as [|j js IHj]; intros a; cbn; [reflexivity | apply IHj].
Qed.

(** The two nested loops resolve every unordered pair of array positions
    exactly once, in the order of [indexPairs]. *)
Lemma pinLoop_pairs arr :
  pinLoop room arr =
    fold_left (fun arr ij => pinStep room ij.1 ij.2 arr) (indexPairs (length arr)) arr.
Proof.
  unfold pinLoop, indexPairs. rewrite fold_left_flat_map. apply pin_fold_pairs.
Qed.

Lemma indexPairs_lt n i j : In (i, j) (indexPairs n) -> i < j.
Proof.
  unfold indexPairs. rewrite in_flat_map. intros (i' & _ & Hj).
  apply in_map_iff in Hj as (j' & [= <- <-] & Hj). apply in_seq in Hj. lia.
Qed.

Lemma dominantCount_lookup (arr : list Player) j b :
  arr !! j = Some b -> dominantCount [b] <= dominantCount arr.
Proof.
  unfold dominantCount. revert j.
  induction arr as [|p arr IH]; intros [|j]; cbn [lookup list_lookup List.filter];
    try discriminate.
  - intros [= ->]. destruct (dominant b); cbn [length]; lia.
  - intros H. specialize (IH j H). cbn [List.filter] in IH.
    destruct (dominant p); cbn [length]; lia.
Qed.

Lemma dominantCount_lookup2 (arr : list Player) : forall i j a b,
  i < j -> arr !! i = Some a -> arr !! j = Some b ->
  dominantCount [a; b] <= dominantCount arr.
Proof.
  induction arr as [|p arr IH]; intros [|i] [|j] a b Hlt; try lia;
    cbn [lookup list_lookup]; try discriminate.
  - intros [= ->] Hb. pose proof (dominantCount_lookup arr j b Hb) as H.
    unfold dominantCount in *. cbn [List.filter] in *.
    destruct (dominant a), (dominant b); cbn [length] in *; lia.
  - intros Ha Hb. assert (i < j) as Hlt' by lia.
    pose proof (IH i j a b Hlt' Ha Hb) as H.
    unfold dominantCount in *. cbn [List.filter] in *.
    destruct (dominant p); cbn [length] in *; lia.
Qed.

(** On an array whose flags are in order, one iteration of the inner loop
    is the specification's rule on the pair it visits. *)
Lemma pinStep_rule i j arr :
  zFlags arr -> atMostOneDominant arr -> i < j ->
  pinStep room i j arr = ruleStep room (i, j) arr.
Proof.
  intros Hz Hd Hlt. unfold pinStep, ruleStep. cbn [fst snd].
  destruct (arr !! i) as [a|] eqn:Ea; [|reflexivity].
  destruct (arr !! j) as [b|] eqn:Eb; [|reflexivity].
  rewrite pinPair_rule; [reflexivity | |].
  - unfold zFlags in *.
    apply Forall_cons_2; [exact (Forall_lookup_1 _ _ _ _ Hz Ea)|].
    apply Forall_cons_2; [exact (Forall_lookup_1 _ _ _ _ Hz Eb) | apply Forall_nil_2].
  - unfold atMostOneDominant in *.
    etransitivity; [eapply dominantCount_lookup2; eassumption | exact Hd].
Qed.

(** For any number of players the pin loop is the specification's rule
    applied to every unordered pair once, in the order of [indexPairs]. *)
Lemma pinLoop_rule arr :
  zFlags arr -> atMostOneDominant arr ->
  pinLoop room arr = fold_left (fun arr ij => ruleStep room ij arr) (indexPairs (length arr)) arr.
Proof.
  intros Hz Hd. rewrite pinLoop_pairs.
  assert (forall ij, In ij (indexPairs (length arr)) -> ij.1 < ij.2) as Hlt
    by (intros [i j]; apply indexPairs_lt).
  revert Hlt. generalize (indexPairs (length arr)). intros l.
  revert arr Hz Hd. induction l as [|[i j] l IH]; intros arr Hz Hd Hlt; [reflexivity|].
  cbn [fold_left fst snd].
  assert (i < j) as Hij by (apply (Hlt (i, j)); left; reflexivity).
  rewrite <- (pinStep_rule i j arr Hz Hd Hij).
  apply IH.
  - apply (zFlags_static arr); [apply pinStep_static | exact Hz].
  - apply (atMostOne_static arr); [apply pinStep_static | exact Hd].
  - intros ij Hin. apply Hlt. right. exact Hin.
Qed.

(** C3: for a pair of players (with the dominant flag held by at most one
    of them, as in every reachable room) the loop body applies [pairRule]
    to both members: in contact, a dominant and acting member gains [dt]
    and any other member decays by [dt * 0.5] floored at [0]; out of
    contact both decay.  With two players the step resolves that one pair;
    with three it resolves [(a, b)], [(a, c)], [(b, c)] in turn, each
    player being updated once for each of its two opposing pairs, the
    updates compounding. *)
Theorem pin_loop_pairwise_rule :
  (forall k p,
     p_pinTimer (pairRule k p) =
       if k && dominantActing p then (p_pinTimer p + dt)%float
       else JS.Math_max 0%float (p_pinTimer p - dt * 0.5)%float) /\
  (forall arr, zFlags arr -> atMostOneDominant arr ->
     pinLoop room arr =
       fold_left (fun arr ij => ruleStep room ij arr) (indexPairs (length arr)) arr) /\
  (forall a b, zFlags [a; b] -> atMostOneDominant [a; b] ->
     pinPair room a b = (pairRule (contact room a b) a, pairRule (contact room a b) b) /\
     pinLoop room [a; b] = [pairRule (contact room a b) a; pairRule (contact room a b) b]) /\
  (forall a b c, zFlags [a; b; c] -> atMostOneDominant [a; b; c] ->
     pinLoop room [a; b; c] =
       [pairRule (contact room a c) (pairRule (contact room a b) a);
        pairRule (contact room b c) (pairRule (contact room a b) b);
        pairRule (contact room b c) (pairRule (contact room a c) c)]).
Proof.
  split; [|split; [|split]].
  - intros k p. unfold pairRule. destruct (k && dominantActing p); reflexivity.
  - apply pinLoop_rule.
  - intros a b Hz Hd. pose proof (pinPair_rule a b Hz Hd) as Hab.
    split; [exact Hab|].
    unfold pinLoop, pinInner. cbn [length seq fold_left Nat.sub].
    unfold pinStep. cbn [lookup list_lookup]. rewrite Hab. reflexivity.
  - intros a b c Hz Hd.
    destruct (zFlags_sub2 a b c Hz) as (Zab & Zac & Zbc).
    destruct (atMostOne_sub2 a b c Hd) as (Dab & Dac & Dbc).
    set (a1 := pairRule (contact room a b) a).
    set (b1 := pairRule (contact room a b) b).
    set (c1 := pairRule (contact room a c) c).
    assert (pinStatic a1 = pinStatic a) as Sa by apply pairRule_static.
    assert (pinStatic b1 = pinStatic b) as Sb by apply pairRule_static.
    assert (pinStatic c1 = pinStatic c) as Sc by apply pairRule_static.
    assert (pinPair room a1 c = (pairRule (contact room a c) a1, c1)) as Hac.
    { rewrite pinPair_rule.
      - rewrite (contact_static a a1 c c Sa eq_refl).
        unfold c1, pairRule at 2 4. unfold dominantActing, dominant. reflexivity.
      - apply (zFlags_static [a; c]); [cbn; rewrite Sa; reflexivity | exact Zac].
      - apply (atMostOne_static [a; c]); [cbn; rewrite Sa; reflexivity | exact Dac]. }
    assert (pinPair room b1 c1 = (pairRule (contact room b c) b1, pairRule (contact room b c) c1))
      as Hbc.
    { rewrite pinPair_rule.
      - rewrite (contact_static b b1 c c1 Sb Sc). reflexivity.
      - apply (zFlags_static [b; c]); [cbn; rewrite Sb, Sc; reflexivity | exact Zbc].
      - apply (atMostOne_static [b; c]); [cbn; rewrite Sb, Sc; reflexivity | exact Dbc]. }
    unfold pinLoop, pinInner. cbn [length seq fold_left Nat.sub].
    unfold pinStep at 3. cbn [lookup list_lookup].
    rewrite (pinPair_rule a b Zab Dab). fold a1 b1. cbn [insert list_insert].
    unfold pinStep at 2. cbn [lookup list_lookup]. rewrite Hac. cbn [insert list_insert].
    unfold pinStep. cbn [lookup list_lookup]. rewrite Hbc. reflexivity.
Qed.

End PinRule.

(** * Joining *)

Section Joining.

(** [joinRoom] on a well-formed room code. *)
Lemma joinRoom_valid socket rid data st :
  normalizeRoomId rid <> "" -> String.length (normalizeRoomId rid) <= 12 ->
  joinRoom socket rid data st =
    let roomId := normalizeRoomId rid in
    let socks := <[socket := Some roomId]> (sockets st) in
    let rs := createRoomIfNeeded roomId (rooms st) in
    let room := default newRoom (rooms st !! roomId) in
    match assignRole room with
    | None => (mkServer rs socks, AckError "Room is full")
    | Some role =>
        let spawn := spawnPositions room role in
        let me := mkPlayer socket role spawn.1 spawn.2 0%float 0%float
                           false 0%float (thumbFileOf data) 0%Z in
        let room1 := set_players (obj_set socket me (players room)) room in
        let room2 :=
          if (2 <=? playerCount room1)%nat && negb (running (interval room1))
          then set_interval IntervalTimer (set_winner None room1)
          else room1 in
        (mkServer (<[roomId := room2]> rs) socks, AckOk role (configOf room2))
    end.
Proof.
  intros Hne Hlen. unfold joinRoom.
  rewrite bool_decide_eq_false_2 by exact Hne.
  assert ((12 <? String.length (normalizeRoomId rid))%nat = false) as ->
    by (apply Nat.ltb_ge; exact Hlen).
  cbn [orb set_roomId rooms sockets]. rewrite createRoomIfNeeded_room. reflexivity.
Qed.

Lemma createRoomIfNeeded_present roomId room rs :
  rs !! roomId = Some room -> createRoomIfNeeded roomId rs = rs.
Proof. intros H. unfold createRoomIfNeeded. rewrite H. reflexivity. Qed.


(** The three connections of C5 must differ: a connection that joins again
    replaces its own player, so its seat at that moment counts as held and
    it alternates between [P1] and [P2]. *)
Lemma rejoin_replaces_own_player :
  let r1 := joinRoom "a" (Some "TEST") None initial in
  let r2 := joinRoom "a" (Some "TEST") None r1.1 in
  let r3 := joinRoom "a" (Some "TEST") None r2.1 in
  (exists c, r1.2 = AckOk P1 c) /\ (exists c, r2.2 = AckOk P2 c) /\
  (exists c, r3.2 = AckOk P1 c) /\
  map (fun kv => (kv.1, p_role kv.2)) (playersOf "TEST" r3.1) = [("a", P1)].
Proof.
  cbv zeta. split; [eexists; vm_compute; reflexivity|].
  split; [eexists; vm_compute; reflexivity|].
  split; [eexists; vm_compute; reflexivity|]. vm_compute. reflexivity.
Qed.

(** C8 (amended): a room code that normalises to the empty string or to
    more than twelve characters is rejected with the validation error,
    and the room registry is left exactly as it was: no room is created
    and no room, player, winner or timer is touched. *)
Theorem invalid_room_code_rejected socket rid data st :
  normalizeRoomId rid = "" \/ 12 < String.length (normalizeRoomId rid) ->
  (joinRoom socket rid data st).2 = AckError "Invalid room id" /\
  rooms (joinRoom socket rid data st).1 = rooms st.
Proof.
  intros H. unfold joinRoom.
  assert (bool_decide (normalizeRoomId rid = "")
          || (12 <? String.length (normalizeRoomId rid))%nat = true) as ->.
  { destruct H as [H|H].
    - rewrite bool_decide_eq_true_2 by exact H. reflexivity.
    - apply orb_true_iff. right. apply Nat.ltb_lt. exact H. }
  split; reflexivity.
Qed.

(** What the rejected join does change: the connection's own [roomId]. *)
Lemma invalid_room_code_sockets socket rid data st :
  normalizeRoomId rid = "" \/ 12 < String.length (normalizeRoomId rid) ->
  sockets (joinRoom socket rid data st).1
  = <[socket := Some (normalizeRoomId rid)]> (sockets st).
Proof.
  intros H. unfold joinRoom.
  assert (bool_decide (normalizeRoomId rid = "")
          || (12 <? String.length (normalizeRoomId rid))%nat = true) as ->.
  { destruct H as [H|H].
    - rewrite bool_decide_eq_true_2 by exact H. reflexivity.
    - apply orb_true_iff. right. apply Nat.ltb_lt. exact H. }
  reflexivity.
Qed.

(** C10: after a join that is answered with a role, if the caller
    supplied no data, no [thumbFile] or an empty one, the registered
    player's [thumbFile] is ['thumb1.png']. *)
Theorem join_defaults_thumbFile socket rid data st role config :
  (joinRoom socket rid data st).2 = AckOk role config ->
  (data = None \/ (exists d, data = Some d /\
                     (jd_thumbFile d = None \/ jd_thumbFile d = Some ""))) ->
  exists room me,
    rooms (joinRoom socket rid data st).1 !! normalizeRoomId rid = Some room /\
    obj_get socket (players room) = Some me /\
    p_thumbFile me = "thumb1.png".
Proof.
  intros Hack Hdata.
  assert (thumbFileOf data = "thumb1.png") as Hthumb.
  { destruct Hdata as [->|(d & -> & [Hd|Hd])]; unfold thumbFileOf; try rewrite Hd;
      reflexivity. }
  unfold joinRoom in *.
  destruct (bool_decide _ || _); [discriminate|].
  cbn [set_roomId rooms sockets] in *.
  destruct (assignRole _) as [r|]; [|discriminate].
  cbn [fst rooms]. rewrite lookup_insert_eq. eexists. eexists.
  split; [reflexivity|].
  destruct (_ && _); record_simpl;
    (split; [apply obj_get_set_eq | exact Hthumb]).
Qed.

End Joining.

(** * After a win *)

Section AfterWin.

Lemma joinRoom_other_room socket rid data st roomId :
  normalizeRoomId rid <> roomId ->
  rooms (joinRoom socket rid data st).1 !! roomId = rooms st !! roomId.
Proof.
  intros Hne. unfold joinRoom. destruct (bool_decide _ || _); [reflexivity|].
  cbn [set_roomId rooms sockets]. destruct (assignRole _); cbn [fst rooms].
  - rewrite lookup_insert_ne by exact Hne. apply createRoomIfNeeded_other. congruence.
  - apply createRoomIfNeeded_other. congruence.
Qed.


(** Inputs are ignored by a room with a recorded winner. *)
Lemma input_frozen socket data st roomId room :
  rooms st !! roomId = Some room -> winner room <> None ->
  rooms (input socket data st) !! roomId = Some room.
Proof.
  intros Hroom Hw. unfold input.
  destruct (currentRoomId socket st) as [rid|]; [|exact Hroom].
  destruct (decide (rid = roomId)) as [->|Hne].
  - rewrite Hroom. destruct (obj_get socket (players room)); [|exact Hroom].
    rewrite bool_decide_eq_true_2 by exact Hw. exact Hroom.
  - destruct (rooms st !! rid); [|exact Hroom].
    destruct (obj_get socket _); [|exact Hroom].
    destruct (bool_decide _); [exact Hroom|].
    cbn [rooms]. rewrite lookup_insert_ne by exact Hne. exact Hroom.
Qed.

(** A disconnect from a stopped room keeps it stopped and keeps its winner. *)
Lemma disconnect_stopped socket st roomId room :
  rooms st !! roomId = Some room -> running (interval room) = false ->
  match rooms (disconnect socket st) !! roomId with
  | Some room' => winner room' = winner room /\ running (interval room') = false
  | None => True
  end.
Proof.
  intros Hroom Hrun. unfold disconnect.
  destruct (currentRoomId socket st) as [rid|]; [|rewrite Hroom; auto].
  destruct (decide (rid = roomId)) as [->|Hne].
  - rewrite Hroom. record_simpl. rewrite Hrun, andb_false_r. cbn [rooms].
    destruct (_ =? 0)%nat.
    + rewrite lookup_delete_eq. exact I.
    + rewrite lookup_insert_eq. record_simpl. auto.
  - destruct (rooms st !! rid); [|rewrite Hroom; auto]. cbn [rooms].
    destruct (_ =? 0)%nat.
    + rewrite lookup_delete_ne, lookup_insert_ne by exact Hne. rewrite Hroom. auto.
    + rewrite lookup_insert_ne by exact Hne. rewrite Hroom. auto.
Qed.

Lemma tickRoom_other_room rid st roomId :
  rid <> roomId -> rooms (tickRoom rid st) !! roomId = rooms st !! roomId.
Proof.
  intros Hne. unfold tickRoom. destruct (rooms st !! rid); [|reflexivity].
  cbn [rooms]. apply lookup_insert_ne, Hne.
Qed.


End AfterWin.

(** * The properties on a played-out game *)

Section Scenarios.

Lemma lobby_room : rooms lobby !! "TEST" = Some lobbyRoom.
Proof. vm_compute. reflexivity. Qed.

Lemma afterWin_room : rooms afterWin !! "TEST" = Some afterWinRoom.
Proof. vm_compute. reflexivity. Qed.

Lemma afterWin_champion : obj_get "a" (players afterWinRoom) = Some champion.
Proof. vm_compute. reflexivity. Qed.

Lemma lobby_reachable : reachable lobby.
Proof. apply reachable_run. Qed.

Lemma afterWin_reachable : reachable afterWin.
Proof. apply reachable_run. Qed.


(** C2, as stated, fails: the winner's timer in [afterWin] is above the
    room's threshold of [2] seconds. *)
Lemma pinTimer_exceeds_threshold :
  reachable afterWin /\
  rooms afterWin !! "TEST" = Some afterWinRoom /\
  obj_get "a" (players afterWinRoom) = Some champion /\
  p_pinTimer champion = 2.0083333333333315%float /\
  winPinSeconds afterWinRoom = 2%float /\
  flt (winPinSeconds afterWinRoom) (p_pinTimer champion) /\
  ~ fle (p_pinTimer champion) (winPinSeconds afterWinRoom).
Proof.
  split; [apply afterWin_reachable|]. split; [apply afterWin_room|].
  split; [apply afterWin_champion|].
  repeat split; try (vm_compute; reflexivity).
  vm_compute. discriminate.
Qed.

(** C8, as stated, fails: connection [a] is seated in room [TEST]; a join
    with a blank room code is rejected, yet it overwrites the connection's
    [roomId], so the state is not the one before, and a later disconnect
    of [a] no longer removes its player. *)
Lemma invalid_join_overwrites_roomId :
  reachable lobby /\
  (joinRoom "a" (Some "   ") None lobby).2 = AckError "Invalid room id" /\
  (joinRoom "a" (Some "   ") None lobby).1 <> lobby /\
  sockets lobby !! "a" = Some (Some "TEST") /\
  sockets (joinRoom "a" (Some "   ") None lobby).1 !! "a" = Some (Some "") /\
  obj_keys (playersOf "TEST" (run lobby [Disconnect "a"])) = ["b"] /\
  obj_keys (playersOf "TEST" (run lobby [JoinRoom "a" (Some "   ") None; Disconnect "a"]))
    = ["a"; "b"].
Proof.
  split; [apply lobby_reachable|]. split; [vm_compute; reflexivity|]. split.
  - intros H. apply (f_equal (fun st => sockets st !! "a")) in H.
    vm_compute in H. discriminate.
  - repeat split; vm_compute; reflexivity.
Qed.

End Scenarios.

(** * The theorems at concrete inputs *)

Section Witnesses.


Lemma pinTimer_never_negative_witness :
  reachable afterWin /\ rooms afterWin !! "TEST" = Some afterWinRoom /\
  champion ∈ obj_values (players afterWinRoom) /\
  fle 0%float (p_pinTimer champion) /\ (p_pinTimer champion <? 0)%float = false.
Proof.
  assert (champion ∈ obj_values (players afterWinRoom)) as H3
    by (exact (obj_get_value _ _ _ afterWin_champion)).
  split; [exact afterWin_reachable|]. split; [exact afterWin_room|]. split; [exact H3|].
  exact (pinTimer_never_negative afterWin "TEST" afterWinRoom champion
           afterWin_reachable afterWin_room H3).
Defined.

Lemma pin_loop_pairwise_rule_witness :
  (zFlags [champion; opponent] /\ atMostOneDominant [champion; opponent] /\
   pinLoop afterWinRoom [champion; opponent] =
     [pairRule (contact afterWinRoom champion opponent) champion;
      pairRule (contact afterWinRoom champion opponent) opponent]) /\
  (zFlags [champion; opponent; newcomer] /\
   atMostOneDominant [champion; opponent; newcomer] /\
   pinLoop afterWinRoom [champion; opponent; newcomer] =
     [pairRule (contact afterWinRoom champion newcomer)
        (pairRule (contact afterWinRoom champion opponent) champion);
      pairRule (contact afterWinRoom opponent newcomer)
        (pairRule (contact afterWinRoom champion opponent) opponent);
      pairRule (contact afterWinRoom opponent newcomer)
        (pairRule (contact afterWinRoom champion newcomer) newcomer)]).
Proof.
  assert (zFlags [champion; opponent]) as Z2
    by (repeat (first [apply Forall_nil_2 | apply Forall_cons_2]); vm_compute; auto).
  assert (atMostOneDominant [champion; opponent]) as D2 by (vm_compute; lia).
  assert (zFlags [champion; opponent; newcomer]) as Z3
    by (repeat (first [apply Forall_nil_2 | apply Forall_cons_2]); vm_compute; auto).
  assert (atMostOneDominant [champion; opponent; newcomer]) as D3 by (vm_compute; lia).
  split.
  - split; [exact Z2|]. split; [exact D2|].
    exact (proj2 (proj1 (proj2 (proj2 (pin_loop_pairwise_rule afterWinRoom)))
                    champion opponent Z2 D2)).
  - split; [exact Z3|]. split; [exact D3|].
    exact (proj2 (proj2 (proj2 (pin_loop_pairwise_rule afterWinRoom)))
             champion opponent newcomer Z3 D3).
Defined.



Lemma move_clamps_into_arena_witness :
  flt (radius newRoom) (width newRoom - radius newRoom) /\
  fnum (p_x runner + p_vx runner) /\
  flt (width newRoom - radius newRoom) (p_x runner + p_vx runner) /\
  p_x (movePlayer newRoom runner) = 770%float /\
  p_y (movePlayer newRoom runner) = 250%float.
Proof.
  assert (flt (radius newRoom) (width newRoom - radius newRoom)) as Bw
    by (vm_compute; reflexivity).
  assert (flt (radius newRoom) (height newRoom - radius newRoom)) as Bh
    by (vm_compute; reflexivity).
  assert (fnum (p_x runner + p_vx runner)) as Nx by (vm_compute; discriminate).
  assert (fnum (p_y runner + p_vy runner)) as Ny by (vm_compute; discriminate).
  assert (flt (width newRoom - radius newRoom) (p_x runner + p_vx runner)) as Hx
    by (vm_compute; reflexivity).
  split; [exact Bw|]. split; [exact Nx|]. split; [exact Hx|].
  split; [|vm_compute; reflexivity].
  exact (proj1 (proj2 (move_clamps_into_arena newRoom runner Bw Bh Nx Ny)) Hx).
Defined.

Lemma at_most_one_dominant_witness :
  reachable lobby /\
  (forall roomId room, rooms lobby !! roomId = Some room ->
     atMostOneDominant (obj_values (players room)) /\
     (forall k1 k2 p1 p2, obj_get k1 (players room) = Some p1 ->
        obj_get k2 (players room) = Some p2 ->
        p_z p1 = 1%Z -> p_z p2 = 1%Z -> k1 = k2)) /\
  (forall socket data roomId room me,
     currentRoomId socket lobby = Some roomId -> rooms lobby !! roomId = Some room ->
     obj_get socket (players room) = Some me -> winner room = None ->
     exists room', rooms (input socket data lobby) !! roomId = Some room' /\
       (i_pressing data = true ->
          forall k p, obj_get k (players room') = Some p ->
            p_z p = if bool_decide (k = socket) then 1%Z else 0%Z) /\
       (i_pressing data = false ->
          exists me', obj_get socket (players room') = Some me' /\ p_z me' = 0%Z)).
Proof.
  split; [exact lobby_reachable|].
  exact (at_most_one_dominant lobby lobby_reachable).
Defined.

Lemma invalid_room_code_rejected_witness :
  (normalizeRoomId (Some "   ") = "" \/ 12 < String.length (normalizeRoomId (Some "   "))) /\
  (joinRoom "a" (Some "   ") None lobby).2 = AckError "Invalid room id" /\
  rooms (joinRoom "a" (Some "   ") None lobby).1 = rooms lobby.
Proof.
  assert (normalizeRoomId (Some "   ") = ""
          \/ 12 < String.length (normalizeRoomId (Some "   "))) as H
    by (left; reflexivity).
  split; [exact H|].
  exact (invalid_room_code_rejected "a" (Some "   ") None lobby H).
Defined.

Lemma input_stores_scaled_direction_witness :
  currentRoomId "a" lobby = Some "TEST" /\ rooms lobby !! "TEST" = Some lobbyRoom /\
  obj_get "a" (players lobbyRoom) = Some lobbyP1 /\ winner lobbyRoom = None /\
  exists room' me',
    rooms (input "a" pressRight lobby) !! "TEST" = Some room' /\
    obj_get "a" (players room') = Some me' /\
    let d := rawDirection pressRight in
    let mag := JS.or_else (JS.Math_hypot d.1 d.2) 1%float in
    p_vx me' = (d.1 / mag * speed)%float /\
    p_vy me' = (d.2 / mag * speed)%float /\
    fnum (p_vx me') /\ fnum (p_vy me') /\
    (d = (0%float, 0%float) ->
     mag = 1%float /\ p_vx me' = 0%float /\ p_vy me' = 0%float).
Proof.
  assert (currentRoomId "a" lobby = Some "TEST") as H1 by (vm_compute; reflexivity).
  assert (obj_get "a" (players lobbyRoom) = Some lobbyP1) as H3 by (vm_compute; reflexivity).
  assert (winner lobbyRoom = None) as H4 by reflexivity.
  split; [exact H1|]. split; [exact lobby_room|]. split; [exact H3|]. split; [exact H4|].
  exact (input_stores_scaled_direction "a" pressRight lobby "TEST" lobbyRoom lobbyP1
           H1 lobby_room H3 H4).
Defined.

Lemma join_defaults_thumbFile_witness :
  (joinRoom "a" (Some "test") None initial).2 = AckOk P1 (configOf newRoom) /\
  exists room me,
    rooms (joinRoom "a" (Some "test") None initial).1 !! normalizeRoomId (Some "test")
      = Some room /\
    obj_get "a" (players room) = Some me /\
    p_thumbFile me = "thumb1.png".
Proof.
  assert ((joinRoom "a" (Some "test") None initial).2 = AckOk P1 (configOf newRoom)) as H
    by (vm_compute; reflexivity).
  split; [exact H|].
  exact (join_defaults_thumbFile "a" (Some "test") None initial P1 (configOf newRoom) H
           (or_introl eq_refl)).
Defined.

End Witnesses.

(** * Timer callbacks for any room *)

Lemma act_serverOk st a : serverOk st -> serverOk (act st a).
Proof.
  intros Hst. destruct a as [e|r]; cbn [act].
  - apply step_serverOk, Hst.
  - apply tickRoom_serverOk, Hst.
Qed.

Lemma reachableAny_serverOk st : reachableAny st -> serverOk st.
Proof.
  induction 1 as [|st a _ IH]; [apply initial_serverOk | apply act_serverOk, IH].
Qed.

(** The states of the event loop are states of the loop with free timers. *)
Lemma reachable_any st : reachable st -> reachableAny st.
Proof.
  induction 1 as [|st e _ IH]; [constructor|]. exact (reachableAny_act st (Handle e) IH).
Qed.

Lemma lobby_reachableAny : reachableAny lobby.
Proof. exact (reachable_any _ lobby_reachable). Qed.

Lemma afterWin_reachableAny : reachableAny afterWin.
Proof. exact (reachable_any _ afterWin_reachable). Qed.

(** * Further properties of the handlers *)

(** ** Seats and joins *)

Lemma roles_all_three (l : list Role) :
  NoDup l -> (P1 ∈ l /\ P2 ∈ l /\ P3 ∈ l <-> length l = 3).
Proof.
  intros Hnd. split.
  - intros (H1 & H2 & H3). pose proof (roles_at_most_three l Hnd) as Hle.
    assert ([P1; P2; P3] ⊆+ l) as Hsub.
    { apply NoDup_submseteq.
      - repeat (constructor; [rewrite ?elem_of_cons, elem_of_nil; intuition discriminate|]).
        constructor.
      - intros x Hx. destruct x; assumption. }
    apply submseteq_length in Hsub. cbn in Hsub. lia.
  - intros Hlen.
    assert (forall r, r ∈ l) as Hall.
    { intros r. destruct (decide (r ∈ l)) as [Hin|Hout]; [exact Hin|exfalso].
      assert (exists l2 : list Role, length l2 = 2 /\ forall x, x <> r -> x ∈ l2)
        as (l2 & Hl2 & Hin2).
      { destruct r; [exists [P2; P3] | exists [P1; P3] | exists [P1; P2]];
          (split; [reflexivity|]); intros [] Hx; rewrite !elem_of_cons; tauto. }
      assert (l ⊆+ l2) as Hsub.
      { apply NoDup_submseteq; [exact Hnd|]. intros x Hx. apply Hin2.
        intros ->. contradiction. }
      apply submseteq_length in Hsub. lia. }
    auto.
Qed.

(** X1: [assignRole] hands out the lowest seat of P1, P2, P3 that no
    player of the room holds: the seat it returns is free and every lower
    seat is taken; it returns nothing exactly when all three seats are
    taken. *)
Theorem assignRole_lowest_free_seat room :
  let roles := map p_role (obj_values (players room)) in
  (forall r, assignRole room = Some r ->
     (r ∉ roles) /\ (forall r', roleIndex r' < roleIndex r -> r' ∈ roles)) /\
  (assignRole room = None <-> forall r, r ∈ roles).
Proof.
  intros roles. pose proof (assignRole_first_free room) as H. cbv zeta in H.
  fold roles in H. split.
  - intros r Hr. rewrite Hr in H. split.
    + destruct r; tauto.
    + intros r' Hlt. destruct r, r'; cbn in Hlt; try lia; tauto.
  - split.
    + intros Hn r. rewrite Hn in H. destruct r; tauto.
    + intros Hall. destruct (assignRole room) as [r|]; [exfalso|reflexivity].
      destruct r; [apply H | apply (proj2 H) | apply (proj2 (proj2 H))]; apply Hall.
Qed.

Lemma assignRole_newRoom : assignRole newRoom = Some P1.
Proof. reflexivity. Qed.

Lemma assignRole_full_iff room :
  distinctRoles (obj_values (players room)) ->
  (assignRole room = None <-> length (players room) = 3).
Proof.
  intros Hd. pose proof (assignRole_first_free room) as H. cbv zeta in H.
  pose proof (roles_all_three _ Hd) as H3.
  rewrite length_map in H3. unfold obj_values in H3. rewrite length_map in H3.
  split.
  - intros Hn. rewrite Hn in H. apply H3, H.
  - intros Hlen. apply H3 in Hlen.
    destruct (assignRole room) as [[]|]; [exfalso; tauto..|reflexivity].
Qed.

(** X2: in every state the server can reach, timers firing for any room
    included, a join with a valid code is answered "Room is full" exactly
    when the room has three players, whoever asks; a join answered that way
    changes no room. *)
Theorem room_full_iff_three_players st socket rid data :
  reachableAny st ->
  normalizeRoomId rid <> "" -> String.length (normalizeRoomId rid) <= 12 ->
  ((joinRoom socket rid data st).2 = AckError "Room is full" <->
   length (playersOf (normalizeRoomId rid) st) = 3) /\
  ((joinRoom socket rid data st).2 = AckError "Room is full" ->
   rooms (joinRoom socket rid data st).1 = rooms st).
Proof.
  intros Hreach Hne Hlen. rewrite (joinRoom_valid _ _ _ _ Hne Hlen). cbv zeta.
  unfold playersOf.
  destruct (rooms st !! normalizeRoomId rid) as [room|] eqn:Hroom.
  - change (default newRoom (Some room)) with room.
    pose proof (reachableAny_serverOk _ Hreach _ _ Hroom) as (_ & _ & _ & _ & _ & _ & Hd).
    pose proof (assignRole_full_iff room Hd) as Hfull.
    destruct (assignRole room) as [role|] eqn:Hrole; cbn [fst snd rooms].
    + split; [split|]; [discriminate | | discriminate].
      intros H3. apply Hfull in H3. discriminate.
    + split; [split; [intros _; apply Hfull; reflexivity | reflexivity]|].
      intros _. apply (createRoomIfNeeded_present _ _ _ Hroom).
  - change (default newRoom None) with newRoom. rewrite assignRole_newRoom.
    cbn [fst snd]. split; [split|]; [discriminate | cbn; lia | discriminate].
Qed.

Lemma room_full_iff_three_players_witness :
  reachableAny lobby /\ normalizeRoomId (Some " test ") <> "" /\
  String.length (normalizeRoomId (Some " test ")) <= 12 /\
  ((joinRoom "c" (Some " test ") None lobby).2 = AckError "Room is full" <->
   length (playersOf (normalizeRoomId (Some " test ")) lobby) = 3) /\
  ((joinRoom "c" (Some " test ") None lobby).2 = AckError "Room is full" ->
   rooms (joinRoom "c" (Some " test ") None lobby).1 = rooms lobby).
Proof.
  assert (normalizeRoomId (Some " test ") <> "") as H2 by (vm_compute; discriminate).
  assert (String.length (normalizeRoomId (Some " test ")) <= 12) as H3 by (vm_compute; lia).
  split; [exact lobby_reachableAny|]. split; [exact H2|]. split; [exact H3|].
  exact (room_full_iff_three_players lobby "c" (Some " test ") None
           lobby_reachableAny H2 H3).
Defined.

(** The x coordinate of a seat's spawn position in the default arena. *)
Lemma spawn_default room role :
  defaultConfig room ->
  spawnPositions room role =
    (match role with P1 => 160 | P2 => 400 | P3 => 640 end, 250)%float.
Proof.
  intros (Hw & Hh & _ & _). unfold spawnPositions. rewrite Hw, Hh.
  destruct role; vm_compute; reflexivity.
Qed.

Lemma default_newRoom_ok st roomId :
  serverOk st -> roomOk (default newRoom (rooms st !! roomId)).
Proof.
  intros Hok. destruct (rooms st !! roomId) as [room|] eqn:E; cbn.
  - exact (Hok _ _ E).
  - exact roomOk_newRoom.
Qed.

Lemma players_restart (r : Room) :
  players (if (2 <=? playerCount r)%nat && negb (running (interval r))
           then set_interval IntervalTimer (set_winner None r) else r) = players r.
Proof. destruct (_ && _); reflexivity. Qed.

(** The result of an accepted join. *)
Lemma joinRoom_accepted socket rid data st role config :
  (joinRoom socket rid data st).2 = AckOk role config ->
  let roomId := normalizeRoomId rid in
  let room := default newRoom (rooms st !! roomId) in
  let room1 := set_players (obj_set socket (newPlayer socket role room data) (players room)) room in
  let room2 :=
    if (2 <=? playerCount room1)%nat && negb (running (interval room1))
    then set_interval IntervalTimer (set_winner None room1)
    else room1 in
  assignRole room = Some role /\
  config = configOf room /\
  joinRoom socket rid data st =
    (mkServer (<[roomId := room2]> (createRoomIfNeeded roomId (rooms st)))
              (<[socket := Some roomId]> (sockets st)),
     AckOk role config).
Proof.
  intros Hack. cbv zeta.
  assert (normalizeRoomId rid <> "" /\ String.length (normalizeRoomId rid) <= 12) as [Hne Hlen].
  { unfold joinRoom in Hack. cbv zeta in Hack.
    destruct (bool_decide (normalizeRoomId rid = "")) eqn:E1;
      [cbn in Hack; discriminate|].
    destruct (12 <? String.length (normalizeRoomId rid))%nat eqn:E2;
      [cbn in Hack; discriminate|].
    apply bool_decide_eq_false_1 in E1. apply Nat.ltb_ge in E2. auto. }
  rewrite (joinRoom_valid _ _ _ _ Hne Hlen) in Hack |- *. cbv zeta in Hack |- *.
  destruct (assignRole (default newRoom (rooms st !! normalizeRoomId rid))) as [r|];
    [|cbn in Hack; discriminate].
  cbn [snd] in Hack. injection Hack as -> <-.
  split; [reflexivity|]. split.
  - unfold configOf. destruct (_ && _); reflexivity.
  - reflexivity.
Qed.

(** X3: in every state the server can reach an accepted join registers
    the joiner under its socket id with the seat of the reply, at that
    seat's spawn position (160, 400 or 640 by 250), at rest, not pressing,
    with a zero pin timer, z = 0 and the chosen thumb image; the reply
    carries the arena 800 by 500, radius 30 and 2 seconds to win. *)
Theorem join_seats_player_at_spawn st socket rid data role config :
  reachableAny st ->
  (joinRoom socket rid data st).2 = AckOk role config ->
  config = mkConfig 800 500 30 2 /\
  exists room,
    rooms (joinRoom socket rid data st).1 !! normalizeRoomId rid = Some room /\
    obj_get socket (players room) =
      Some (mkPlayer socket role
              (match role with P1 => 160 | P2 => 400 | P3 => 640 end)%float 250%float
              0%float 0%float false 0%float (thumbFileOf data) 0%Z).
Proof.
  intros Hreach Hack.
  destruct (joinRoom_accepted _ _ _ _ _ _ Hack) as (Hrole & Hcfg & Hjoin).
  cbv zeta in Hrole, Hcfg, Hjoin.
  pose proof (default_newRoom_ok st (normalizeRoomId rid) (reachableAny_serverOk _ Hreach))
    as (Hc & _).
  set (room := default newRoom (rooms st !! normalizeRoomId rid)) in *.
  split.
  - rewrite Hcfg. unfold configOf. destruct Hc as (-> & -> & -> & ->). reflexivity.
  - rewrite Hjoin. cbn [fst rooms]. rewrite lookup_insert_eq. eexists. split; [reflexivity|].
    rewrite players_restart. cbn [players set_players]. rewrite obj_get_set_eq.
    unfold newPlayer. cbv zeta. rewrite (spawn_default _ _ Hc). reflexivity.
Qed.

Lemma join_seats_player_at_spawn_witness :
  reachableAny lobby /\
  (joinRoom "c" (Some "test") None lobby).2 = AckOk P3 (mkConfig 800 500 30 2) /\
  mkConfig 800 500 30 2 = mkConfig 800 500 30 2 /\
  exists room,
    rooms (joinRoom "c" (Some "test") None lobby).1 !! normalizeRoomId (Some "test")
      = Some room /\
    obj_get "c" (players room) =
      Some (mkPlayer "c" P3 640%float 250%float
              0%float 0%float false 0%float (thumbFileOf None) 0%Z).
Proof.
  assert ((joinRoom "c" (Some "test") None lobby).2 = AckOk P3 (mkConfig 800 500 30 2)) as H2
    by (vm_compute; reflexivity).
  split; [exact lobby_reachableAny|]. split; [exact H2|].
  exact (join_seats_player_at_spawn lobby "c" (Some "test") None P3 _
           lobby_reachableAny H2).
Defined.

(** The player table after an accepted join. *)
Lemma joinRoom_accepted_players socket rid data st role config :
  (joinRoom socket rid data st).2 = AckOk role config ->
  let roomId := normalizeRoomId rid in
  playersOf roomId (joinRoom socket rid data st).1
  = obj_set socket (newPlayer socket role (default newRoom (rooms st !! roomId)) data)
      (playersOf roomId st) /\
  (forall rid', rid' <> roomId ->
     rooms (joinRoom socket rid data st).1 !! rid' = rooms st !! rid').
Proof.
  intros Hack. cbv zeta.
  destruct (joinRoom_accepted _ _ _ _ _ _ Hack) as (_ & _ & Hjoin). cbv zeta in Hjoin.
  assert (players (default newRoom (rooms st !! normalizeRoomId rid))
          = playersOf (normalizeRoomId rid) st) as Hold.
  { unfold playersOf. destruct (rooms st !! normalizeRoomId rid); reflexivity. }
  split.
  - rewrite Hjoin. unfold playersOf at 1. cbn [fst rooms]. rewrite lookup_insert_eq.
    rewrite <- Hold. apply players_restart.
  - intros rid' Hne. apply joinRoom_other_room. congruence.
Qed.

(** X4: an accepted join touches nothing but the joiner's own entry: every
    other player object of the room is kept as it is (position, pin timer
    and flags included) and in the same order, the joiner is appended last
    unless it was already in the room, every other room is unchanged, and
    among the connection variables only the joiner's changes. *)
Theorem join_leaves_others_alone st socket rid data role config :
  (joinRoom socket rid data st).2 = AckOk role config ->
  let roomId := normalizeRoomId rid in
  let st' := (joinRoom socket rid data st).1 in
  (role ∉ map p_role (obj_values (playersOf roomId st))) /\
  (forall k, k <> socket ->
     obj_get k (playersOf roomId st') = obj_get k (playersOf roomId st)) /\
  (obj_get socket (playersOf roomId st) = None ->
     exists me, playersOf roomId st' = playersOf roomId st ++ [(socket, me)]) /\
  (obj_get socket (playersOf roomId st) <> None ->
     obj_keys (playersOf roomId st') = obj_keys (playersOf roomId st)) /\
  (forall rid', rid' <> roomId -> rooms st' !! rid' = rooms st !! rid') /\
  sockets st' = <[socket := Some roomId]> (sockets st).
Proof.
  intros Hack. cbv zeta.
  destruct (joinRoom_accepted _ _ _ _ _ _ Hack) as (Hrole & _ & Hjoin).
  cbv zeta in Hrole, Hjoin.
  destruct (joinRoom_accepted_players _ _ _ _ _ _ Hack) as (Hnew & Hother).
  assert (players (default newRoom (rooms st !! normalizeRoomId rid))
          = playersOf (normalizeRoomId rid) st) as Hold.
  { unfold playersOf. destruct (rooms st !! normalizeRoomId rid); reflexivity. }
  rewrite Hnew. split; [|split; [|split; [|split; [|split]]]].
  - rewrite <- Hold. apply assignRole_free, Hrole.
  - intros k Hk. apply obj_get_set_ne. congruence.
  - intros Hnone. eexists. apply obj_set_new, Hnone.
  - intros Hsome. apply obj_keys_set_old, Hsome.
  - exact Hother.
  - rewrite Hjoin. reflexivity.
Qed.

Lemma join_leaves_others_alone_witness :
  (joinRoom "c" (Some "test") None lobby).2 = AckOk P3 (mkConfig 800 500 30 2) /\
  (P3 ∉ map p_role (obj_values (playersOf "TEST" lobby))) /\
  (forall k, k <> "c" ->
     obj_get k (playersOf "TEST" (joinRoom "c" (Some "test") None lobby).1)
     = obj_get k (playersOf "TEST" lobby)).
Proof.
  assert ((joinRoom "c" (Some "test") None lobby).2 = AckOk P3 (mkConfig 800 500 30 2)) as H
    by (vm_compute; reflexivity).
  split; [exact H|].
  pose proof (join_leaves_others_alone lobby "c" (Some "test") None P3 _ H) as T.
  cbv zeta in T. split; [exact (proj1 T) | exact (proj1 (proj2 T))].
Defined.

(** ** Inputs *)

(** X5: an input changes nothing at all unless its sender is a player of
    the room its connection points to and that room has no winner: inputs
    from a connection that has not joined, whose room is gone, that is not
    in the room's player table, or that arrive after the game has ended are
    dropped. *)
Theorem input_ignored_unless_playing socket data st :
  (forall roomId room me,
     currentRoomId socket st = Some roomId -> rooms st !! roomId = Some room ->
     obj_get socket (players room) = Some me -> winner room <> None) ->
  input socket data st = st.
Proof.
  intros H. unfold input.
  destruct (currentRoomId socket st) as [roomId|]; [|reflexivity].
  destruct (rooms st !! roomId) as [room|] eqn:Hroom; [|reflexivity].
  destruct (obj_get socket (players room)) as [me|] eqn:Hme; [|reflexivity].
  rewrite bool_decide_eq_true_2; [reflexivity|].
  exact (H roomId room me eq_refl Hroom Hme).
Qed.

Lemma input_ignored_unless_playing_witness :
  input "a" pressRight afterWin = afterWin.
Proof.
  apply (input_ignored_unless_playing "a" pressRight afterWin).
  intros roomId room me H1 H2 _.
  assert (currentRoomId "a" afterWin = Some "TEST") as Hc by (vm_compute; reflexivity).
  rewrite Hc in H1. injection H1 as <-.
  rewrite afterWin_room in H2. injection H2 as <-.
  vm_compute. discriminate.
Defined.

(** X6: an accepted input rewrites only the sender's velocity and
    pressing flag and the z flags of the room.  The player table keeps its
    keys and their order; the sender keeps id, seat, position, pin timer and
    thumb image; every other player is kept as it is, except that its z is
    lowered to 0 when the sender presses; arena, winner and loop handle,
    every other room and the connection variables are unchanged. *)
Theorem input_changes_only_intent socket data st roomId room me :
  currentRoomId socket st = Some roomId -> rooms st !! roomId = Some room ->
  obj_get socket (players room) = Some me -> winner room = None ->
  let st' := input socket data st in
  let v := velocityOf data in
  exists room',
    rooms st' !! roomId = Some room' /\
    obj_keys (players room') = obj_keys (players room) /\
    obj_get socket (players room') =
      Some (set_z (if i_pressing data then 1 else 0)
                  (set_intent v.1 v.2 (i_pressing data) me)) /\
    (forall k, k <> socket ->
       obj_get k (players room') =
         (fun p => if i_pressing data then set_z 0 p else p) <$> obj_get k (players room)) /\
    (width room', height room', radius room', winPinSeconds room', winner room', interval room')
    = (width room, height room, radius room, winPinSeconds room, winner room, interval room) /\
    (forall rid, rid <> roomId -> rooms st' !! rid = rooms st !! rid) /\
    sockets st' = sockets st.
Proof.
  intros Hc Hroom Hme Hw. cbv zeta.
  rewrite (input_accepted _ data _ _ _ _ Hc Hroom Hme Hw). cbv zeta.
  set (me' := set_intent _ _ _ me).
  assert (obj_get socket (obj_set socket me' (players room)) <> None) as Hin
    by (rewrite obj_get_set_eq; discriminate).
  eexists. split; [cbn [rooms]; apply lookup_insert_eq|]. cbn [players set_players].
  split; [|split; [|split; [|split; [|split]]]].
  - rewrite (applyZ_keys _ _ _ Hin). apply obj_keys_set_old. rewrite Hme. discriminate.
  - rewrite (applyZ_get _ _ _ Hin). reflexivity.
  - intros k Hk. unfold applyZ. change (p_pressing me') with (i_pressing data).
    destruct (i_pressing data).
    + rewrite (raise_get_other _ _ _ _ Hk). rewrite obj_get_set_ne by congruence.
      reflexivity.
    + rewrite !obj_get_set_ne by congruence.
      destruct (obj_get k (players room)); reflexivity.
  - reflexivity.
  - intros rid Hne. cbn [rooms]. apply lookup_insert_ne. congruence.
  - reflexivity.
Qed.

Lemma input_changes_only_intent_witness :
  exists room',
    rooms (input "a" pressRight lobby) !! "TEST" = Some room' /\
    obj_keys (players room') = obj_keys (players lobbyRoom) /\
    obj_get "a" (players room') = Some (set_z 1 (set_intent 3.2 0 true lobbyP1)).
Proof.
  assert (currentRoomId "a" lobby = Some "TEST") as H1 by (vm_compute; reflexivity).
  assert (obj_get "a" (players lobbyRoom) = Some lobbyP1) as H3 by (vm_compute; reflexivity).
  assert (winner lobbyRoom = None) as H4 by (vm_compute; reflexivity).
  destruct (input_changes_only_intent "a" pressRight lobby "TEST" lobbyRoom lobbyP1
              H1 lobby_room H3 H4) as (room' & T1 & T2 & T3 & _).
  exists room'. split; [exact T1|]. split; [exact T2|]. exact T3.
Defined.

(** ** Disconnects *)

Lemma obj_delete_get_ne {V} (k k' : string) (o : list (string * V)) :
  k <> k' -> obj_get k' (obj_delete k o) = obj_get k' o.
Proof.
  intros Hne. induction o as [|[k0 v0] o IH]; cbn; [reflexivity|].
  destruct (bool_decide (k0 = k)) eqn:E; cbn.
  - apply bool_decide_eq_true_1 in E. subst k0.
    rewrite bool_decide_eq_false_2 by exact Hne. exact IH.
  - rewrite IH. reflexivity.
Qed.

Lemma obj_delete_absent {V} (k : string) (o : list (string * V)) :
  obj_get k o = None -> obj_delete k o = o.
Proof.
  induction o as [|[k0 v0] o IH]; cbn; [reflexivity|].
  destruct (bool_decide (k0 = k)); [discriminate|]. intros H. rewrite (IH H). reflexivity.
Qed.

Lemma obj_delete_app {V} (k : string) (o1 o2 : list (string * V)) :
  obj_delete k (o1 ++ o2) = obj_delete k o1 ++ obj_delete k o2.
Proof.
  induction o1 as [|[k0 v0] o1 IH]; cbn; [reflexivity|].
  destruct (bool_decide (k0 = k)); cbn; rewrite IH; reflexivity.
Qed.

(** The result of a disconnect that finds its room. *)
Lemma disconnect_found socket st roomId room :
  currentRoomId socket st = Some roomId -> rooms st !! roomId = Some room ->
  let rest := obj_delete socket (players room) in
  let room1 := set_players rest room in
  let room2 :=
    if (length rest <? 2)%nat && running (interval room)
    then set_winner None (set_interval IntervalNull room1) else room1 in
  disconnect socket st =
    mkServer (if (length rest =? 0)%nat then delete roomId (rooms st)
              else <[roomId := room2]> (rooms st)) (sockets st).
Proof.
  intros Hc Hroom. cbv zeta. unfold disconnect. rewrite Hc, Hroom. cbv zeta.
  cbn [players set_players interval]. rewrite obj_keys_length.
  destruct (length (obj_delete socket (players room)) =? 0)%nat; [|reflexivity].
  f_equal. apply delete_insert_eq.
Qed.

(** X7: a disconnect removes exactly the leaving connection's entry from
    its room's player table and keeps the other entries and their order.
    The room is destroyed exactly when no player is left; otherwise the
    arena is kept, and the winner is cleared and the loop stopped exactly
    when fewer than two players are left in a room whose loop was running.
    Other rooms are unchanged. *)
Theorem disconnect_removes_player socket st roomId room :
  currentRoomId socket st = Some roomId -> rooms st !! roomId = Some room ->
  let st' := disconnect socket st in
  let rest := obj_delete socket (players room) in
  playersOf roomId st' = rest /\
  obj_get socket rest = None /\
  (forall k, k <> socket -> obj_get k rest = obj_get k (players room)) /\
  (rooms st' !! roomId = None <-> rest = []) /\
  (forall room', rooms st' !! roomId = Some room' ->
     (width room', height room', radius room', winPinSeconds room')
     = (width room, height room, radius room, winPinSeconds room) /\
     if (length rest <? 2)%nat && running (interval room)
     then winner room' = None /\ interval room' = IntervalNull
     else winner room' = winner room /\ interval room' = interval room) /\
  (forall rid, rid <> roomId -> rooms st' !! rid = rooms st !! rid).
Proof.
  intros Hc Hroom. cbv zeta. rewrite (disconnect_found _ _ _ _ Hc Hroom). cbv zeta.
  unfold playersOf. cbn [rooms].
  set (rest := obj_delete socket (players room)).
  split; [|split; [|split; [|split; [|split]]]].
  - destruct rest as [|kv rest'] eqn:E; cbn [length Nat.eqb].
    + rewrite lookup_delete_eq. reflexivity.
    + rewrite lookup_insert_eq. destruct (_ && _); reflexivity.
  - apply obj_delete_get.
  - intros k Hk. apply obj_delete_get_ne. congruence.
  - destruct rest as [|kv rest'] eqn:E; cbn [length Nat.eqb].
    + rewrite lookup_delete_eq. tauto.
    + rewrite lookup_insert_eq. split; discriminate.
  - intros room'. destruct rest as [|kv rest'] eqn:E; cbn [length Nat.eqb].
    + rewrite lookup_delete_eq. discriminate.
    + rewrite lookup_insert_eq. intros [= <-].
      destruct (_ && _); (split; [reflexivity | split; reflexivity]).
  - intros rid Hne. destruct (length rest =? 0)%nat.
    + apply lookup_delete_ne. congruence.
    + apply lookup_insert_ne. congruence.
Qed.

Lemma disconnect_removes_player_witness :
  playersOf "TEST" (disconnect "b" lobby) = obj_delete "b" (players lobbyRoom) /\
  (forall room', rooms (disconnect "b" lobby) !! "TEST" = Some room' ->
     winner room' = None /\ interval room' = IntervalNull).
Proof.
  assert (currentRoomId "b" lobby = Some "TEST") as H1 by (vm_compute; reflexivity).
  pose proof (disconnect_removes_player "b" lobby "TEST" lobbyRoom H1 lobby_room) as T.
  cbv zeta in T. destruct T as (T1 & _ & _ & _ & T5 & _).
  split; [exact T1|]. intros room' Hr. exact (proj2 (T5 room' Hr)).
Defined.

Lemma currentRoomId_joined socket rid data st role config :
  (joinRoom socket rid data st).2 = AckOk role config ->
  currentRoomId socket (joinRoom socket rid data st).1 = Some (normalizeRoomId rid).
Proof.
  intros Hack. destruct (joinRoom_accepted _ _ _ _ _ _ Hack) as (_ & _ & Hjoin).
  cbv zeta in Hjoin. rewrite Hjoin. unfold currentRoomId. cbn [fst sockets].
  rewrite lookup_insert_eq.
  assert (normalizeRoomId rid <> "") as Hne.
  { intros E. unfold joinRoom in Hack. cbv zeta in Hack. rewrite E in Hack.
    cbn in Hack. discriminate. }
  rewrite bool_decide_eq_false_2 by exact Hne. reflexivity.
Qed.

(** X8: joining and leaving undo each other on the player table: when a
    connection that is not in a room joins it and then disconnects, the
    room has exactly the entries it had before, and a room that did not
    exist before the join does not exist afterwards (the room registry is
    as it was). *)
Theorem join_then_disconnect_restores_players st socket rid data role config :
  (joinRoom socket rid data st).2 = AckOk role config ->
  obj_get socket (playersOf (normalizeRoomId rid) st) = None ->
  let st' := disconnect socket (joinRoom socket rid data st).1 in
  playersOf (normalizeRoomId rid) st' = playersOf (normalizeRoomId rid) st /\
  (rooms st !! normalizeRoomId rid = None -> rooms st' = rooms st).
Proof.
  intros Hack Hout. cbv zeta.
  pose proof (currentRoomId_joined _ _ _ _ _ _ Hack) as Hc.
  destruct (joinRoom_accepted_players _ _ _ _ _ _ Hack) as (Hnew & Hother).
  set (roomId := normalizeRoomId rid) in *.
  set (st1 := (joinRoom socket rid data st).1) in *.
  destruct (rooms st1 !! roomId) as [room1|] eqn:Hroom1.
  2:{ exfalso. unfold playersOf in Hnew at 1. rewrite Hroom1 in Hnew.
      apply (f_equal (obj_get socket)) in Hnew. rewrite obj_get_set_eq in Hnew.
      discriminate. }
  assert (players room1 = playersOf roomId st ++ [(socket, newPlayer socket role
            (default newRoom (rooms st !! roomId)) data)]) as Hp.
  { unfold playersOf in Hnew at 1. rewrite Hroom1 in Hnew. rewrite Hnew.
    apply obj_set_new, Hout. }
  assert (obj_delete socket (players room1) = playersOf roomId st) as Hrest.
  { rewrite Hp, obj_delete_app, (obj_delete_absent _ _ Hout). cbn.
    rewrite bool_decide_eq_true_2 by reflexivity. apply app_nil_r. }
  rewrite (disconnect_found _ _ _ _ Hc Hroom1). cbv zeta. rewrite Hrest.
  split.
  - unfold playersOf at 1. cbn [rooms].
    destruct (playersOf roomId st) as [|kv l] eqn:E; cbn [length Nat.eqb].
    + rewrite lookup_delete_eq. reflexivity.
    + rewrite lookup_insert_eq. destruct (_ && _); reflexivity.
  - intros Hnone. cbn [rooms].
    assert (playersOf roomId st = []) as -> by (unfold playersOf; rewrite Hnone; reflexivity).
    cbn [length Nat.eqb]. apply map_eq. intros rid'.
    destruct (decide (rid' = roomId)) as [->|Hne].
    + rewrite lookup_delete_eq, Hnone. reflexivity.
    + rewrite lookup_delete_ne by congruence. apply Hother, Hne.
Qed.

Lemma join_then_disconnect_restores_players_witness :
  (joinRoom "c" (Some "den") None lobby).2 = AckOk P1 (mkConfig 800 500 30 2) /\
  obj_get "c" (playersOf (normalizeRoomId (Some "den")) lobby) = None /\
  playersOf (normalizeRoomId (Some "den"))
    (disconnect "c" (joinRoom "c" (Some "den") None lobby).1)
  = playersOf (normalizeRoomId (Some "den")) lobby.
Proof.
  assert ((joinRoom "c" (Some "den") None lobby).2 = AckOk P1 (mkConfig 800 500 30 2)) as H1
    by (vm_compute; reflexivity).
  assert (obj_get "c" (playersOf (normalizeRoomId (Some "den")) lobby) = None) as H2
    by (vm_compute; reflexivity).
  split; [exact H1|]. split; [exact H2|].
  exact (proj1 (join_then_disconnect_restores_players lobby "c" (Some "den") None P1 _ H1 H2)).
Defined.

(** ** The game loop *)

Section MoreFloats.

(** Numbers that compare equal and are not zero are the same value. *)
Lemma fkey_inj a b :
  fnum a -> fnum b -> fkey a = fkey b -> fkey a <> (0, 0, 0)%Z -> a = b.
Proof.
  unfold fnum, fkey. intros Ha Hb Hk Hz. apply Prim2SF_inj.
  destruct (Prim2SF a) as [sa|sa| |sa ma ea], (Prim2SF b) as [sb|sb| |sb mb eb];
    try congruence; try destruct sa; try destruct sb; cbn in Hk, Hz;
    try congruence; try discriminate;
    injection Hk as H1 H2; f_equal; lia.
Qed.

Lemma above_positive_key lo v : flt 0 lo -> fle lo v -> fkey v <> (0, 0, 0)%Z.
Proof.
  intros H0 Hv E. float_keys. change (fkey 0%float) with (0, 0, 0)%Z in H0.
  rewrite E in Hv. lex_solve.
Qed.

(** A value between positive bounds, the bounds included, is left alone. *)
Lemma clamp_within lo hi v :
  flt 0 lo -> flt lo hi -> fle lo v -> fle v hi -> clamp lo hi v = v.
Proof.
  intros H0 Hlh Hlv Hvh.
  pose proof (above_positive_key _ _ H0 Hlv) as Kv.
  assert (fkey lo <> (0, 0, 0)%Z) as Klo.
  { apply (above_positive_key lo lo H0). apply fle_refl. apply (flt_fnum _ _ Hlh). }
  destruct (flt_fnum _ _ Hlh) as [Hlo Hhi]. destruct (fle_fnum _ _ Hlv) as [_ Hv].
  unfold clamp.
  destruct (Math_min_cases hi v Hhi Hv) as [[-> Hm]|[-> Hm]].
  - destruct (Math_max_cases lo v Hlo Hv) as [[-> Hx]|[-> Hx]]; [reflexivity|].
    apply fkey_inj; try assumption.
    apply (nlt_key _ _ Hlo Hv) in Hx. apply (fle_key _ _ Hlo Hv) in Hlv.
    destruct Hlv as [Hlt|Heq]; [contradiction | exact Heq].
  - assert (hi = v) as Ehv.
    { apply (nlt_key _ _ Hv Hhi) in Hm. apply (fle_key _ _ Hv Hhi) in Hvh.
      destruct Hvh as [Hlt|Heq]; [contradiction|].
      symmetry. apply fkey_inj; assumption. }
    destruct (Math_max_cases lo hi Hlo Hhi) as [[-> Hx]|[-> Hx]]; [exact Ehv|].
    unfold flt in Hlh. congruence.
Qed.

(** Adding [+0] to anything but [-0] gives the same value back. *)
Lemma add_zero_r x : fkey x <> (0, 0, 0)%Z -> (x + 0)%float = x.
Proof.
  unfold fkey. intros H. apply Prim2SF_inj. rewrite add_spec.
  change (Prim2SF 0) with (S754_zero false).
  destruct (Prim2SF x) as [s|s| |s m e]; try reflexivity.
  exfalso. apply H. reflexivity.
Qed.

End MoreFloats.

Lemma combine_keys_map {B} (f : Player -> B) (ps : list (string * Player)) (vs : list Player) :
  map (fun kv => (kv.1, f kv.2)) (combine (obj_keys ps) vs)
  = combine (obj_keys ps) (map f vs).
Proof.
  unfold obj_keys. revert vs. induction ps as [|[k v] ps IH]; intros [|w vs]; cbn;
    try reflexivity. f_equal. apply IH.
Qed.

Lemma combine_keys_values {B} (f : Player -> B) (ps : list (string * Player)) :
  combine (obj_keys ps) (map f (obj_values ps)) = map (fun kv => (kv.1, f kv.2)) ps.
Proof.
  unfold obj_keys, obj_values. induction ps as [|[k v] ps IH]; cbn; [reflexivity|].
  f_equal. exact IH.
Qed.

(** A function of the static part takes the same values after the pin
    loop. *)
Lemma pinLoop_static_map {B} (g : Player -> B) room (arr : list Player) :
  (forall p q, pinStatic p = pinStatic q -> g p = g q) ->
  map g (pinLoop room arr) = map g arr.
Proof.
  intros Hg. pose proof (pinLoop_static room arr) as Hs.
  pose proof (pinLoop_length room arr) as Hlen.
  revert Hs Hlen. generalize (pinLoop room arr). intros l. revert arr.
  induction l as [|p l IH]; intros [|q arr]; cbn; try discriminate; [reflexivity|].
  intros Hs [= Hlen]. apply (f_equal head) in Hs as Hpq. cbn in Hpq.
  apply (f_equal tail) in Hs. cbn in Hs.
  f_equal; [apply Hg; congruence | apply IH; assumption].
Qed.

Lemma tickRoomObj_players room :
  players (tickRoomObj room) =
    if (length (obj_values (players room)) <? 2)%nat then players room
    else combine (obj_keys (players room))
           (pinLoop room (map (movePlayer room) (obj_values (players room)))).
Proof.
  unfold tickRoomObj. destruct (_ <? 2)%nat; [reflexivity|].
  destruct (findWinner _ _); [|reflexivity].
  destruct (winner _); reflexivity.
Qed.

Lemma tickRoomObj_config room :
  (width (tickRoomObj room), height (tickRoomObj room), radius (tickRoomObj room),
   winPinSeconds (tickRoomObj room))
  = (width room, height room, radius room, winPinSeconds room).
Proof.
  unfold tickRoomObj. destruct (_ <? 2)%nat; [reflexivity|].
  destruct (findWinner _ _); [|reflexivity].
  destruct (winner _); reflexivity.
Qed.

Lemma tickRoomObj_values room :
  (length (obj_values (players room)) <? 2)%nat = false ->
  obj_values (players (tickRoomObj room))
  = pinLoop room (map (movePlayer room) (obj_values (players room))).
Proof.
  intros Hn. rewrite tickRoomObj_players, Hn. apply obj_values_combine.
  rewrite tick_values_length, obj_keys_length, obj_values_length. reflexivity.
Qed.

(** A step keeps the keys of the player table and the static part of every
    player. *)
Lemma tickRoomObj_static room :
  map (fun kv => (kv.1, tickStatic kv.2)) (players (tickRoomObj room))
  = map (fun kv => (kv.1, tickStatic kv.2)) (players room).
Proof.
  rewrite tickRoomObj_players. destruct (_ <? 2)%nat; [reflexivity|].
  rewrite combine_keys_map.
  rewrite (pinLoop_static_map tickStatic)
    by (intros p q [= E1 E2 E3 E4 E5 E6 E7 E8 E9]; unfold tickStatic; congruence).
  rewrite map_map. change (fun x => tickStatic (movePlayer room x)) with tickStatic.
  apply combine_keys_values.
Qed.

(** X9: a simulation step changes nothing of a room but positions, pin
    timers, the winner and the loop handle.  The player table keeps its keys
    and their order, and every player keeps id, seat, velocity, pressing
    flag, thumb image and z; the arena is kept.  With two players or more
    the new position of every player is the one [movePlayer] computes from
    the old one; with fewer the step does nothing at all. *)
Theorem tick_changes_only_position_and_timer room :
  let room' := tickRoomObj room in
  map (fun kv => (kv.1, tickStatic kv.2)) (players room')
  = map (fun kv => (kv.1, tickStatic kv.2)) (players room) /\
  (width room', height room', radius room', winPinSeconds room')
  = (width room, height room, radius room, winPinSeconds room) /\
  (2 <= playerCount room ->
   map (fun p => (p_x p, p_y p)) (obj_values (players room'))
   = map (fun p => (p_x (movePlayer room p), p_y (movePlayer room p)))
       (obj_values (players room))) /\
  (playerCount room < 2 -> room' = room).
Proof.
  cbv zeta. unfold playerCount. rewrite obj_keys_length, <- (obj_values_length (players room)).
  split; [|split; [|split]].
  - apply tickRoomObj_static.
  - apply tickRoomObj_config.
  - intros Hn. rewrite tickRoomObj_values by (apply Nat.ltb_ge; exact Hn).
    rewrite (pinLoop_static_map (fun p => (p_x p, p_y p)))
      by (intros p q [= E1 E2 E3 E4 E5 E6 E7 E8 E9]; congruence).
    apply map_map.
  - intros Hn. unfold tickRoomObj. apply Nat.ltb_lt in Hn. rewrite Hn. reflexivity.
Qed.

Lemma find_first {A} (f : A -> bool) (l : list A) x :
  List.find f l = Some x ->
  exists i, l !! i = Some x /\ f x = true /\
    forall j y, j < i -> l !! j = Some y -> f y = false.
Proof.
  induction l as [|a l IH]; cbn; [discriminate|].
  destruct (f a) eqn:Efa.
  - intros [= ->]. exists 0. split; [reflexivity|]. split; [exact Efa|]. intros j y Hj. lia.
  - intros H. destruct (IH H) as (i & Hi & Hx & Hbefore).
    exists (S i). split; [exact Hi|]. split; [exact Hx|].
    intros [|j] y Hj; cbn.
    + intros [= <-]. exact Efa.
    + apply Hbefore. lia.
Qed.

Lemma find_nobody {A} (f : A -> bool) (l : list A) :
  List.find f l = None -> forall x, x ∈ l -> f x = false.
Proof.
  induction l as [|a l IH]; cbn; intros H x Hx.
  - apply elem_of_nil in Hx. contradiction.
  - destruct (f a) eqn:Efa; [discriminate|].
    apply elem_of_cons in Hx as [->|Hx]; [exact Efa | apply IH; assumption].
Qed.

(** X10: how a simulation step of a room with two players or more treats
    the winner.  A recorded winner is never overwritten and leaves the loop
    handle alone.  With no winner recorded, the step records the seat of
    the first player, in the order of the player table, whose pin timer
    after the step is at least [winPinSeconds], and clears the loop handle;
    when no player's timer is that high, winner and loop handle stay as
    they are. *)
Theorem tick_records_first_player_over_threshold room :
  2 <= playerCount room ->
  let room' := tickRoomObj room in
  let arr := obj_values (players room') in
  (forall w, winner room = Some w ->
     winner room' = Some w /\ interval room' = interval room) /\
  (winner room = None ->
     match winner room' with
     | Some r =>
         interval room' = IntervalNull /\
         exists i p, arr !! i = Some p /\ p_role p = r /\
           (winPinSeconds room <=? p_pinTimer p)%float = true /\
           forall j q, j < i -> arr !! j = Some q ->
             (winPinSeconds room <=? p_pinTimer q)%float = false
     | None =>
         interval room' = interval room /\
         forall p, p ∈ arr -> (winPinSeconds room <=? p_pinTimer p)%float = false
     end).
Proof.
  intros Hn. cbv zeta.
  assert ((length (obj_values (players room)) <? 2)%nat = false) as Hc.
  { apply Nat.ltb_ge. unfold playerCount in Hn.
    rewrite obj_keys_length, <- (obj_values_length (players room)) in Hn. exact Hn. }
  rewrite (tickRoomObj_values room Hc).
  unfold tickRoomObj. rewrite Hc.
  set (vals := pinLoop room (map (movePlayer room) (obj_values (players room)))).
  unfold findWinner.
  change (winner (set_players (combine (obj_keys (players room)) vals) room))
    with (winner room).
  change (winPinSeconds (set_players (combine (obj_keys (players room)) vals) room))
    with (winPinSeconds room).
  split.
  - intros w Hw. rewrite Hw. destruct (List.find _ vals); (split; [exact Hw | reflexivity]).
  - intros Hw. rewrite Hw.
    destruct (List.find _ vals) as [p|] eqn:Hfind.
    + split; [reflexivity|].
      destruct (find_first _ _ _ Hfind) as (i & Hi & Hp & Hbefore).
      exists i, p. split; [exact Hi|]. split; [reflexivity|]. split; [exact Hp|].
      exact Hbefore.
    + change (winner (set_players (combine (obj_keys (players room)) vals) room))
        with (winner room).
      rewrite Hw. split; [reflexivity|]. apply (find_nobody _ _ Hfind).
Qed.

Lemma tick_records_first_player_over_threshold_witness :
  2 <= playerCount lobbyRoom /\
  (winner lobbyRoom = None ->
     match winner (tickRoomObj lobbyRoom) with
     | Some r => interval (tickRoomObj lobbyRoom) = IntervalNull
     | None =>
         interval (tickRoomObj lobbyRoom) = interval lobbyRoom /\
         forall p, p ∈ obj_values (players (tickRoomObj lobbyRoom)) ->
           (winPinSeconds lobbyRoom <=? p_pinTimer p)%float = false
     end).
Proof.
  assert (2 <= playerCount lobbyRoom) as H by (vm_compute; lia).
  split; [exact H|]. intros Hw.
  pose proof (proj2 (tick_records_first_player_over_threshold lobbyRoom H) Hw) as T.
  cbv zeta in T. destruct (winner (tickRoomObj lobbyRoom)); [exact (proj1 T) | exact T].
Defined.

(** X11: in every state the server can reach movement is exact inside the
    arena: a player whose new coordinate lies within the bounds (30 to 770
    horizontally, 30 to 470 vertically, bounds included) gets exactly
    position plus velocity, and a player with zero velocity along an axis
    keeps its coordinate on that axis. *)
Theorem move_exact_inside_arena st roomId room p :
  reachableAny st -> rooms st !! roomId = Some room -> p ∈ obj_values (players room) ->
  let q := movePlayer room p in
  (fle 30 (p_x p + p_vx p) -> fle (p_x p + p_vx p) 770 -> p_x q = (p_x p + p_vx p)%float) /\
  (fle 30 (p_y p + p_vy p) -> fle (p_y p + p_vy p) 470 -> p_y q = (p_y p + p_vy p)%float) /\
  (p_vx p = 0%float -> p_x q = p_x p) /\
  (p_vy p = 0%float -> p_y q = p_y p).
Proof.
  intros Hreach Hroom Hp. cbv zeta.
  pose proof (reachableAny_serverOk _ Hreach _ _ Hroom) as (Hc & _ & _ & _ & _ & Hok & _).
  rewrite list.Forall_forall in Hok. specialize (Hok p Hp).
  destruct Hok as (_ & (Hx1 & Hx2 & Hy1 & Hy2) & _).
  destruct Hc as (Hw & Hh & Hr & _). rewrite Hw, Hh, Hr in *.
  unfold movePlayer. cbn [p_x p_y set_pos]. rewrite Hw, Hh, Hr.
  change (800 - 30)%float with 770%float in *. change (500 - 30)%float with 470%float in *.
  assert (flt 0 30) as H0 by reflexivity.
  assert (flt 30 770) as Bw by reflexivity.
  assert (flt 30 470) as Bh by reflexivity.
  split; [|split; [|split]].
  - intros H1 H2. apply clamp_within; assumption.
  - intros H1 H2. apply clamp_within; assumption.
  - intros ->. rewrite (add_zero_r _ (above_positive_key _ _ H0 Hx1)).
    apply clamp_within; assumption.
  - intros ->. rewrite (add_zero_r _ (above_positive_key _ _ H0 Hy1)).
    apply clamp_within; assumption.
Qed.

Lemma move_exact_inside_arena_witness :
  reachableAny lobby /\ rooms lobby !! "TEST" = Some lobbyRoom /\
  lobbyP1 ∈ obj_values (players lobbyRoom) /\
  (p_vx lobbyP1 = 0%float -> p_x (movePlayer lobbyRoom lobbyP1) = p_x lobbyP1).
Proof.
  assert (lobbyP1 ∈ obj_values (players lobbyRoom)) as H3
    by (apply (obj_get_value "a"); vm_compute; reflexivity).
  split; [exact lobby_reachableAny|]. split; [exact lobby_room|].
  split; [exact H3|].
  exact (proj1 (proj2 (proj2
    (move_exact_inside_arena lobby "TEST" lobbyRoom lobbyP1
       lobby_reachableAny lobby_room H3)))).
Defined.

(** ** More invariants of reachable states *)

Section Sound.

Lemma obj_set_entries (Q : string -> Player -> Prop) k v (o : list (string * Player)) :
  Forall (fun kv => Q kv.1 kv.2) o -> Q k v ->
  Forall (fun kv => Q kv.1 kv.2) (obj_set k v o).
Proof.
  induction o as [|[k' v'] o IH]; cbn [obj_set]; intros H Hv.
  - constructor; [exact Hv | constructor].
  - apply Forall_cons in H as [H1 H2]. destruct (bool_decide (k' = k)) eqn:E.
    + apply bool_decide_eq_true_1 in E. subst k'. constructor; assumption.
    + constructor; [exact H1 | apply IH; assumption].
Qed.

Lemma obj_delete_entries (Q : string -> Player -> Prop) k (o : list (string * Player)) :
  Forall (fun kv => Q kv.1 kv.2) o -> Forall (fun kv => Q kv.1 kv.2) (obj_delete k o).
Proof.
  induction o as [|[k' v'] o IH]; cbn [obj_delete]; intros H; [constructor|].
  apply Forall_cons in H as [H1 H2].
  destruct (bool_decide (k' = k)); [apply IH, H2 | constructor; [exact H1 | apply IH, H2]].
Qed.

Lemma obj_set_twice {V} k (v v' : V) (o : list (string * V)) :
  obj_set k v (obj_set k v' o) = obj_set k v o.
Proof.
  induction o as [|[k0 v0] o IH]; cbn.
  - rewrite bool_decide_eq_true_2 by reflexivity. reflexivity.
  - destruct (bool_decide (k0 = k)) eqn:E; cbn; rewrite E; [reflexivity|].
    rewrite IH. reflexivity.
Qed.

Lemma obj_set_nonempty {V} k (v : V) (o : list (string * V)) : obj_set k v o <> [].
Proof.
  intros H. apply (f_equal (obj_get k)) in H. rewrite obj_get_set_eq in H. discriminate.
Qed.

Lemma raise_entries (Q : string -> Player -> Prop) socket me (ps : list (string * Player)) :
  Q socket (set_z 1 me) -> (forall k p, Q k p -> Q k (set_z 0 p)) ->
  Forall (fun kv => Q kv.1 kv.2) ps ->
  Forall (fun kv => Q kv.1 kv.2)
    (map (fun kv => if bool_decide (kv.1 = socket) then (kv.1, set_z 1 me)
                    else (kv.1, set_z 0 kv.2)) ps).
Proof.
  intros Hme H0. induction ps as [|[k v] ps IH]; cbn [map fst snd]; intros H; [constructor|].
  apply Forall_cons in H as [H1 H2]. constructor; [|apply IH, H2].
  destruct (bool_decide (k = socket)) eqn:E; cbn [fst snd].
  - apply bool_decide_eq_true_1 in E. subst k. exact Hme.
  - apply H0, H1.
Qed.

Lemma values_entries (P : Player -> Prop) (ps : list (string * Player)) :
  Forall P (obj_values ps) <-> Forall (fun kv => P kv.2) ps.
Proof. unfold obj_values. apply Forall_map. Qed.

(** A property of keys and static parts moves along equal static views. *)
Lemma static_entries (Q : string -> Player -> Prop) (ps ps' : list (string * Player)) :
  (forall k p q, tickStatic p = tickStatic q -> Q k p -> Q k q) ->
  map (fun kv => (kv.1, tickStatic kv.2)) ps' = map (fun kv => (kv.1, tickStatic kv.2)) ps ->
  Forall (fun kv => Q kv.1 kv.2) ps -> Forall (fun kv => Q kv.1 kv.2) ps'.
Proof.
  intros HQ. revert ps'. induction ps as [|[k p] ps IH]; intros [|[k' p'] ps'];
    cbn [map fst snd]; try discriminate; [constructor|].
  intros Heq H. apply Forall_cons in H as [Hp Hps].
  apply (f_equal head) in Heq as Hhd. apply (f_equal tail) in Heq. cbn in Hhd, Heq.
  constructor; [|apply IH; assumption]. cbn [fst snd] in *.
  assert (k' = k /\ tickStatic p = tickStatic p') as [-> Hs]
    by (split; congruence).
  apply (HQ _ p); [exact Hs | exact Hp].
Qed.

Lemma velocityOf_speedLimited data :
  let v := velocityOf data in
  fle (- speed)%float v.1 /\ fle v.1 speed /\ fle (- speed)%float v.2 /\ fle v.2 speed.
Proof. destruct data as [[] [] [] [] pr]; vm_compute; auto. Qed.

Lemma entriesSound_set k v ps :
  entriesSound ps -> p_id v = k -> (p_z v = 1%Z -> p_pressing v = true) -> speedLimited v ->
  entriesSound (obj_set k v ps).
Proof.
  intros (H1 & H2 & H3) Hid Hz Hs. split; [|split].
  - apply (obj_set_entries (fun k p => p_id p = k)); assumption.
  - apply obj_set_Forall; assumption.
  - apply obj_set_Forall; assumption.
Qed.

Lemma entriesSound_delete k ps : entriesSound ps -> entriesSound (obj_delete k ps).
Proof.
  intros (H1 & H2 & H3). split; [|split].
  - apply (obj_delete_entries (fun k p => p_id p = k)), H1.
  - apply obj_delete_Forall, H2.
  - apply obj_delete_Forall, H3.
Qed.

Lemma entriesSound_get k p ps :
  entriesSound ps -> obj_get k ps = Some p ->
  p_id p = k /\ (p_z p = 1%Z -> p_pressing p = true) /\ speedLimited p.
Proof.
  intros (H1 & H2 & H3) Hget.
  rewrite list.Forall_forall in H1. rewrite list.Forall_forall in H2.
  rewrite list.Forall_forall in H3.
  split; [exact (H1 _ (obj_get_Some_In _ _ _ Hget))|].
  split; [apply H2 | apply H3]; apply (obj_get_value _ _ _ Hget).
Qed.

Lemma entriesSound_input socket data me ps :
  entriesSound ps -> obj_get socket ps = Some me ->
  let v := velocityOf data in
  let me' := set_intent v.1 v.2 (i_pressing data) me in
  entriesSound (applyZ socket me' (obj_set socket me' ps)).
Proof.
  intros Hps Hme. cbv zeta.
  destruct (entriesSound_get _ _ _ Hps Hme) as (Hid & _ & _).
  pose proof (velocityOf_speedLimited data) as Hv. cbv zeta in Hv.
  set (me' := set_intent _ _ _ me). unfold applyZ.
  change (p_pressing me') with (i_pressing data).
  destruct (i_pressing data) eqn:Hpr.
  - assert (entriesSound (obj_set socket me' ps)) as (H1 & H2 & H3).
    { apply entriesSound_set; try assumption. intros _. reflexivity. }
    split; [|split].
    + apply (raise_entries (fun k p => p_id p = k)); [exact Hid | auto | exact H1].
    + apply raise_Forall; [intros _; reflexivity | intros p _ Hz; discriminate | exact H2].
    + apply raise_Forall; [exact Hv | auto | exact H3].
  - rewrite obj_set_twice. apply entriesSound_set; try assumption. intros Hz. discriminate.
Qed.

Lemma entriesSound_tick room :
  entriesSound (players room) -> entriesSound (players (tickRoomObj room)).
Proof.
  intros (H1 & H2 & H3). pose proof (tickRoomObj_static room) as Hs.
  rewrite values_entries in H2. rewrite values_entries in H3.
  unfold entriesSound. rewrite !values_entries.
  split; [|split].
  - apply (static_entries (fun k p => p_id p = k) _ _) with (2 := Hs); [|exact H1].
    intros k p q [= E1 E2 E3 E4 E5 E6 E7]. congruence.
  - apply (static_entries (fun _ p => p_z p = 1%Z -> p_pressing p = true) _ _) with (2 := Hs);
      [|exact H2].
    intros k p q [= E1 E2 E3 E4 E5 E6 E7] H Hz. rewrite <- E5. apply H. congruence.
  - apply (static_entries (fun _ p => speedLimited p) _ _) with (2 := Hs); [|exact H3].
    intros k p q [= E1 E2 E3 E4 E5 E6 E7]. unfold speedLimited. rewrite E3, E4. tauto.
Qed.

Lemma roomSound_entries room :
  roomSound room <-> players room <> [] /\ entriesSound (players room).
Proof. reflexivity. Qed.

Lemma tickRoomObj_nonempty room : players room <> [] -> players (tickRoomObj room) <> [].
Proof.
  intros H E. pose proof (tickRoomObj_static room) as Hs. rewrite E in Hs.
  destruct (players room); [contradiction | discriminate].
Qed.

Lemma serverSound_insert rs socks socks' roomId room :
  serverSound (mkServer rs socks) -> roomSound room ->
  serverSound (mkServer (<[roomId := room]> rs) socks').
Proof.
  intros Hst Hroom rid r. cbn. rewrite lookup_insert.
  destruct (decide (roomId = rid)); [intros [= <-]; exact Hroom | apply Hst].
Qed.

Lemma serverSound_delete rs socks socks' roomId :
  serverSound (mkServer rs socks) -> serverSound (mkServer (delete roomId rs) socks').
Proof.
  intros Hst rid r. cbn. rewrite lookup_delete.
  destruct (decide (roomId = rid)); [discriminate | apply Hst].
Qed.

Lemma joinRoom_serverSound socket rid data st :
  serverSound st -> serverSound (joinRoom socket rid data st).1.
Proof.
  intros Hst.
  destruct (joinRoom socket rid data st).2 as [role config|err] eqn:Hack.
  - destruct (joinRoom_accepted _ _ _ _ _ _ Hack) as (_ & _ & Hjoin). cbv zeta in Hjoin.
    rewrite Hjoin. cbn [fst].
    set (roomId := normalizeRoomId rid) in *.
    assert (entriesSound (players (default newRoom (rooms st !! roomId)))) as Hold.
    { destruct (rooms st !! roomId) as [room|] eqn:E; cbn.
      - apply (Hst _ _ E).
      - split; [|split]; constructor. }
    match goal with |- context [<[_ := ?r]> _] => set (room2 := r) end.
    intros rid' r. cbn [rooms]. rewrite lookup_insert.
    destruct (decide (roomId = rid')) as [<-|Hne].
    + intros [= <-]. unfold roomSound, room2. rewrite players_restart.
      cbn [players set_players]. split; [apply obj_set_nonempty|].
      apply entriesSound_set; [exact Hold | reflexivity | intros Hz; discriminate|].
      unfold speedLimited, newPlayer. cbn. repeat split; reflexivity.
    + rewrite createRoomIfNeeded_other by congruence. apply Hst.
  - intros rid' r Hr. apply (Hst rid' r).
    unfold joinRoom in Hack, Hr. cbv zeta in Hack, Hr.
    destruct (bool_decide _ || _); [exact Hr|].
    cbn [set_roomId rooms sockets] in Hack, Hr.
    rewrite createRoomIfNeeded_room in Hack, Hr.
    destruct (rooms st !! normalizeRoomId rid) as [room|] eqn:E.
    + rewrite (createRoomIfNeeded_present _ _ _ E) in Hr.
      cbn [default] in Hack, Hr.
      destruct (assignRole _); [cbn in Hack; discriminate | exact Hr].
    + cbn in Hack. discriminate.
Qed.

Lemma input_serverSound socket data st : serverSound st -> serverSound (input socket data st).
Proof.
  intros Hst. unfold input.
  destruct (currentRoomId socket st) as [roomId|]; [|exact Hst].
  destruct (rooms st !! roomId) as [room|] eqn:Hroom; [|exact Hst].
  destruct (obj_get socket (players room)) as [me|] eqn:Hme; [|exact Hst].
  destruct (bool_decide (winner room ≠ None)); [exact Hst|].
  apply (serverSound_insert (rooms st) (sockets st)); [exact Hst|].
  destruct (Hst _ _ Hroom) as [Hne Hps].
  apply roomSound_entries. cbn [players set_players]. split.
  - intros E. apply (f_equal obj_keys) in E. rewrite applyZ_keys in E.
    + rewrite obj_keys_set_old in E by (rewrite Hme; discriminate).
      destruct (players room); [contradiction | discriminate].
    + rewrite obj_get_set_eq. discriminate.
  - apply entriesSound_input; assumption.
Qed.

Lemma disconnect_serverSound socket st : serverSound st -> serverSound (disconnect socket st).
Proof.
  intros Hst.
  destruct (currentRoomId socket st) as [roomId|] eqn:Hc;
    [|unfold disconnect; rewrite Hc; exact Hst].
  destruct (rooms st !! roomId) as [room|] eqn:Hroom;
    [|unfold disconnect; rewrite Hc, Hroom; exact Hst].
  rewrite (disconnect_found _ _ _ _ Hc Hroom). cbv zeta.
  destruct (Hst _ _ Hroom) as [_ Hps].
  destruct (obj_delete socket (players room)) as [|kv rest] eqn:E; cbn [length Nat.eqb].
  - apply (serverSound_delete (rooms st) (sockets st)). exact Hst.
  - apply (serverSound_insert (rooms st) (sockets st)); [exact Hst|].
    apply roomSound_entries.
    assert (forall r : Room, players (if (length (kv :: rest) <? 2)%nat && running (interval room)
              then set_winner None (set_interval IntervalNull r) else r) = players r) as Hp
      by (intros r; destruct (_ && _); reflexivity).
    rewrite Hp. cbn [players set_players]. split; [discriminate|].
    rewrite <- E. apply entriesSound_delete, Hps.
Qed.

Lemma tickRoom_serverSound roomId st : serverSound st -> serverSound (tickRoom roomId st).
Proof.
  intros Hst. unfold tickRoom.
  destruct (rooms st !! roomId) as [room|] eqn:Hroom; [|exact Hst].
  apply (serverSound_insert (rooms st) (sockets st)); [exact Hst|].
  destruct (Hst _ _ Hroom) as [Hne Hps]. apply roomSound_entries. split.
  - apply tickRoomObj_nonempty, Hne.
  - apply entriesSound_tick, Hps.
Qed.

Lemma step_serverSound st e : serverSound st -> serverSound (step st e).
Proof.
  intros Hst. destruct e as [s|s rid data|s data|s|rid]; cbn [step].
  - destruct (connected s st); exact Hst.
  - destruct (connected s st); [apply joinRoom_serverSound, Hst | exact Hst].
  - destruct (connected s st); [apply input_serverSound, Hst | exact Hst].
  - destruct (connected s st); [|exact Hst].
    intros rid r. apply (disconnect_serverSound s st Hst).
  - destruct (timerLive rid st); [apply tickRoom_serverSound, Hst | exact Hst].
Qed.

Lemma reachableAny_serverSound st : reachableAny st -> serverSound st.
Proof.
  induction 1 as [|st a _ IH].
  - intros rid room. cbn. rewrite lookup_empty. discriminate.
  - destruct a as [e|r]; cbn [act].
    + apply step_serverSound, IH.
    + apply tickRoom_serverSound, IH.
Qed.

End Sound.

Lemma seats_distinct (ps : list (string * Player)) k1 k2 p1 p2 :
  distinctRoles (obj_values ps) ->
  obj_get k1 ps = Some p1 -> obj_get k2 ps = Some p2 ->
  p_role p1 = p_role p2 -> k1 = k2.
Proof.
  unfold distinctRoles, obj_values.
  induction ps as [|[k v] ps IH]; cbn [obj_get map snd]; [discriminate|].
  rewrite NoDup_cons. intros [Hout Hnd] H1 H2 Hrole.
  assert (forall k' p', obj_get k' ps = Some p' -> p_role p' <> p_role v) as Hrest.
  { intros k' p' Hget E. apply Hout. rewrite <- E.
    apply (list_elem_of_fmap_2 p_role). exact (obj_get_value _ _ _ Hget). }
  destruct (bool_decide (k = k1)) eqn:E1; destruct (bool_decide (k = k2)) eqn:E2.
  - apply bool_decide_eq_true_1 in E1, E2. congruence.
  - injection H1 as <-. exfalso. apply (Hrest _ _ H2). congruence.
  - injection H2 as <-. exfalso. apply (Hrest _ _ H1). congruence.
  - apply IH; assumption.
Qed.

(** X12: in every state the server can reach every room has the arena 800 by 500
    with radius 30 and 2 seconds to win, and every player of it stands
    inside the arena: x between 30 and 770, y between 30 and 470. *)
Theorem reachable_players_inside_arena st roomId room :
  reachableAny st -> rooms st !! roomId = Some room ->
  (width room, height room, radius room, winPinSeconds room)
  = (800, 500, 30, 2)%float /\
  forall p, p ∈ obj_values (players room) ->
    fle 30 (p_x p) /\ fle (p_x p) 770 /\ fle 30 (p_y p) /\ fle (p_y p) 470.
Proof.
  intros Hreach Hroom.
  pose proof (reachableAny_serverOk _ Hreach _ _ Hroom) as (Hc & _ & _ & _ & _ & Hok & _).
  destruct Hc as (Hw & Hh & Hr & Hs). split; [congruence|].
  intros p Hp. rewrite list.Forall_forall in Hok.
  destruct (Hok p Hp) as (_ & Hin & _). unfold inArena in Hin.
  rewrite Hw, Hh, Hr in Hin. exact Hin.
Qed.

Lemma reachable_players_inside_arena_witness :
  reachableAny afterWin /\ rooms afterWin !! "TEST" = Some afterWinRoom /\
  (width afterWinRoom, height afterWinRoom, radius afterWinRoom, winPinSeconds afterWinRoom)
  = (800, 500, 30, 2)%float /\
  forall p, p ∈ obj_values (players afterWinRoom) ->
    fle 30 (p_x p) /\ fle (p_x p) 770 /\ fle 30 (p_y p) /\ fle (p_y p) 470.
Proof.
  split; [exact afterWin_reachableAny|]. split; [exact afterWin_room|].
  exact (reachable_players_inside_arena afterWin "TEST" afterWinRoom
           afterWin_reachableAny afterWin_room).
Defined.

(** X13: in every state the server can reach a registered room has at least one
    player and at most three, no socket id occurs twice in its player table,
    and every player object is stored under its own id: rooms without
    players do not stay in the registry. *)
Theorem reachable_rooms_have_players st roomId room :
  reachableAny st -> rooms st !! roomId = Some room ->
  1 <= playerCount room <= 3 /\
  NoDup (obj_keys (players room)) /\
  forall k p, obj_get k (players room) = Some p -> p_id p = k.
Proof.
  intros Hreach Hroom.
  pose proof (reachableAny_serverOk _ Hreach _ _ Hroom) as (_ & Hnd & _).
  destruct (reachableAny_serverSound _ Hreach _ _ Hroom) as [Hne Hps].
  assert (playerCount room <= 3) as Hle.
  { pose proof (reachableAny_serverOk _ Hreach _ _ Hroom) as (_ & _ & _ & _ & _ & _ & Hr).
    apply roles_at_most_three in Hr. unfold playerCount.
    rewrite length_map in Hr. unfold obj_values in Hr.
    rewrite length_map in Hr. rewrite obj_keys_length. exact Hr. }
  split; [|split; [exact Hnd|]].
  - split; [|exact Hle]. unfold playerCount. rewrite obj_keys_length.
    destruct (players room); [contradiction | cbn; lia].
  - intros k p Hget. apply (entriesSound_get _ _ _ Hps Hget).
Qed.

Lemma reachable_rooms_have_players_witness :
  reachableAny lobby /\ rooms lobby !! "TEST" = Some lobbyRoom /\
  1 <= playerCount lobbyRoom <= 3 /\
  NoDup (obj_keys (players lobbyRoom)) /\
  forall k p, obj_get k (players lobbyRoom) = Some p -> p_id p = k.
Proof.
  split; [exact lobby_reachableAny|]. split; [exact lobby_room|].
  exact (reachable_rooms_have_players lobby "TEST" lobbyRoom
           lobby_reachableAny lobby_room).
Defined.

(** X14: in every state the server can reach a player's z is 0 or 1, and a player
    with z = 1 is pressing: the test [a.z > b.z && a.pressing] of the pin
    loop is decided by z alone. *)
Theorem raised_thumb_is_pressed st roomId room p :
  reachableAny st -> rooms st !! roomId = Some room -> p ∈ obj_values (players room) ->
  (p_z p = 0%Z \/ p_z p = 1%Z) /\
  (p_z p = 1%Z -> p_pressing p = true) /\
  dominantActing p = dominant p.
Proof.
  intros Hreach Hroom Hp.
  pose proof (reachableAny_serverOk _ Hreach _ _ Hroom) as (_ & _ & _ & Hz & _).
  destruct (reachableAny_serverSound _ Hreach _ _ Hroom) as (_ & _ & Hraise & _).
  unfold zFlags in Hz. rewrite list.Forall_forall in Hz. rewrite list.Forall_forall in Hraise.
  specialize (Hz p Hp). specialize (Hraise p Hp).
  split; [exact Hz|]. split; [exact Hraise|].
  unfold dominantActing, dominant. case_bool_decide as E; [|reflexivity].
  rewrite (Hraise E). reflexivity.
Qed.

Lemma raised_thumb_is_pressed_witness :
  reachableAny afterWin /\ rooms afterWin !! "TEST" = Some afterWinRoom /\
  champion ∈ obj_values (players afterWinRoom) /\
  (p_z champion = 0%Z \/ p_z champion = 1%Z) /\
  (p_z champion = 1%Z -> p_pressing champion = true) /\
  dominantActing champion = dominant champion.
Proof.
  assert (champion ∈ obj_values (players afterWinRoom)) as H3
    by (exact (obj_get_value _ _ _ afterWin_champion)).
  split; [exact afterWin_reachableAny|]. split; [exact afterWin_room|]. split; [exact H3|].
  exact (raised_thumb_is_pressed afterWin "TEST" afterWinRoom champion
           afterWin_reachableAny afterWin_room H3).
Defined.

(** X15: in every state the server can reach every player's velocity is within the
    speed limit along both axes: between -3.2 and 3.2. *)
Theorem reachable_speed_limit st roomId room p :
  reachableAny st -> rooms st !! roomId = Some room -> p ∈ obj_values (players room) ->
  fle (-3.2) (p_vx p) /\ fle (p_vx p) 3.2 /\ fle (-3.2) (p_vy p) /\ fle (p_vy p) 3.2.
Proof.
  intros Hreach Hroom Hp.
  destruct (reachableAny_serverSound _ Hreach _ _ Hroom) as (_ & _ & _ & Hs).
  rewrite list.Forall_forall in Hs. exact (Hs p Hp).
Qed.

Lemma reachable_speed_limit_witness :
  reachableAny afterWin /\ rooms afterWin !! "TEST" = Some afterWinRoom /\
  champion ∈ obj_values (players afterWinRoom) /\
  fle (-3.2) (p_vx champion) /\ fle (p_vx champion) 3.2 /\
  fle (-3.2) (p_vy champion) /\ fle (p_vy champion) 3.2.
Proof.
  assert (champion ∈ obj_values (players afterWinRoom)) as H3
    by (exact (obj_get_value _ _ _ afterWin_champion)).
  split; [exact afterWin_reachableAny|]. split; [exact afterWin_room|]. split; [exact H3|].
  exact (reachable_speed_limit afterWin "TEST" afterWinRoom champion
           afterWin_reachableAny afterWin_room H3).
Defined.

(** X16: in every state the server can reach two different connections in a room
    hold different seats. *)
Theorem reachable_distinct_seats st roomId room k1 k2 p1 p2 :
  reachableAny st -> rooms st !! roomId = Some room ->
  obj_get k1 (players room) = Some p1 -> obj_get k2 (players room) = Some p2 ->
  k1 <> k2 -> p_role p1 <> p_role p2.
Proof.
  intros Hreach Hroom H1 H2 Hne Hrole. apply Hne.
  pose proof (reachableAny_serverOk _ Hreach _ _ Hroom) as (_ & _ & _ & _ & _ & _ & Hd).
  exact (seats_distinct _ _ _ _ _ Hd H1 H2 Hrole).
Qed.

Lemma reachable_distinct_seats_witness :
  reachableAny afterWin /\ rooms afterWin !! "TEST" = Some afterWinRoom /\
  obj_get "a" (players afterWinRoom) = Some champion /\
  obj_get "b" (players afterWinRoom) = Some opponent /\
  "a" <> "b" /\ p_role champion <> p_role opponent.
Proof.
  assert (obj_get "b" (players afterWinRoom) = Some opponent) as H4
    by (vm_compute; reflexivity).
  assert ("a" <> "b") as H5 by discriminate.
  split; [exact afterWin_reachableAny|]. split; [exact afterWin_room|].
  split; [exact afterWin_champion|]. split; [exact H4|]. split; [exact H5|].
  exact (reachable_distinct_seats afterWin "TEST" afterWinRoom "a" "b" champion opponent
           afterWin_reachableAny afterWin_room afterWin_champion H4 H5).
Defined.

(** ** Where rooms come from *)

Lemma joinRoom_room_origin socket raw data st rid :
  rooms (joinRoom socket raw data st).1 !! rid <> None ->
  rooms st !! rid <> None \/
  (normalizeRoomId raw = rid /\ rid <> "" /\ String.length rid <= 12).
Proof.
  intros H. destruct (decide (normalizeRoomId raw = rid)) as [E|Hne].
  - unfold joinRoom in H. cbv zeta in H.
    destruct (bool_decide (normalizeRoomId raw = "")) eqn:E1;
      [left; exact H|].
    destruct (12 <? String.length (normalizeRoomId raw))%nat eqn:E2;
      [left; exact H|].
    right. apply bool_decide_eq_false_1 in E1. apply Nat.ltb_ge in E2.
    rewrite <- E. auto.
  - left. rewrite joinRoom_other_room in H by exact Hne. exact H.
Qed.

Lemma input_room_origin socket data st rid :
  rooms (input socket data st) !! rid <> None -> rooms st !! rid <> None.
Proof.
  unfold input.
  destruct (currentRoomId socket st) as [roomId|]; [|auto].
  destruct (rooms st !! roomId) as [room|] eqn:Hroom; [|auto].
  destruct (obj_get socket (players room)); [|auto].
  destruct (bool_decide _); [auto|]. cbn [rooms].
  destruct (decide (roomId = rid)) as [<-|Hne].
  - rewrite Hroom. discriminate.
  - rewrite lookup_insert_ne by exact Hne. auto.
Qed.

Lemma disconnect_room_origin socket st rid :
  rooms (disconnect socket st) !! rid <> None -> rooms st !! rid <> None.
Proof.
  destruct (currentRoomId socket st) as [roomId|] eqn:Hc;
    [|unfold disconnect; rewrite Hc; auto].
  destruct (rooms st !! roomId) as [room|] eqn:Hroom;
    [|unfold disconnect; rewrite Hc, Hroom; auto].
  rewrite (disconnect_found _ _ _ _ Hc Hroom). cbv zeta. cbn [rooms].
  destruct (decide (roomId = rid)) as [<-|Hne].
  - rewrite Hroom. discriminate.
  - destruct (_ =? 0)%nat.
    + rewrite lookup_delete_ne by exact Hne. auto.
    + rewrite lookup_insert_ne by exact Hne. auto.
Qed.

Lemma tickRoom_room_origin roomId st rid :
  rooms (tickRoom roomId st) !! rid <> None -> rooms st !! rid <> None.
Proof.
  unfold tickRoom. destruct (rooms st !! roomId) as [room|] eqn:Hroom; [|auto].
  cbn [rooms]. destruct (decide (roomId = rid)) as [<-|Hne].
  - rewrite Hroom. discriminate.
  - rewrite lookup_insert_ne by exact Hne. auto.
Qed.

Lemma act_room_origin st a rid :
  rooms (act st a) !! rid <> None ->
  rooms st !! rid <> None \/
  exists socket raw data,
    a = Handle (JoinRoom socket raw data) /\ normalizeRoomId raw = rid /\
    rid <> "" /\ String.length rid <= 12.
Proof.
  destruct a as [[s|s raw data|s data|s|r]|r]; cbn [act step].
  - destruct (connected s st); auto.
  - destruct (connected s st); [|auto]. intros H.
    destruct (joinRoom_room_origin _ _ _ _ _ H) as [Hold|Hnew]; [auto|].
    right. exists s, raw, data. auto.
  - destruct (connected s st); [|auto]. intros H. left.
    exact (input_room_origin _ _ _ _ H).
  - destruct (connected s st); [|auto]. cbn [rooms]. intros H. left.
    exact (disconnect_room_origin _ _ _ H).
  - destruct (timerLive r st); [|auto]. intros H. left.
    exact (tickRoom_room_origin _ _ _ H).
  - intros H. left. exact (tickRoom_room_origin _ _ _ H).
Qed.

(** X17: rooms are created by joins only, and only under valid codes.  In
    every state the server can reach the code of every registered room is
    not empty, has at most 12 characters and is the normal form (trimmed,
    upper case) of the code some client sent; a room that appears in an
    action is the one a [joinRoom] of that action asked for. *)
Theorem reachable_room_codes_valid st :
  reachableAny st ->
  (forall roomId room, rooms st !! roomId = Some room ->
     roomId <> "" /\ String.length roomId <= 12 /\
     exists raw, normalizeRoomId raw = roomId) /\
  (forall a roomId,
     rooms st !! roomId = None -> rooms (act st a) !! roomId <> None ->
     exists socket raw data,
       a = Handle (JoinRoom socket raw data) /\ normalizeRoomId raw = roomId).
Proof.
  intros Hreach. split.
  - induction Hreach as [|st a _ IH]; intros roomId room Hroom.
    + cbn in Hroom. rewrite lookup_empty in Hroom. discriminate.
    + assert (rooms (act st a) !! roomId <> None) as Hin by (rewrite Hroom; discriminate).
      destruct (act_room_origin _ _ _ Hin) as [Hold|(s & raw & data & _ & Hraw & Hne & Hlen)].
      * destruct (rooms st !! roomId) as [room0|] eqn:E; [|contradiction].
        exact (IH _ _ E).
      * split; [exact Hne|]. split; [exact Hlen|]. exists raw. exact Hraw.
  - intros a roomId Hnone Hin.
    destruct (act_room_origin _ _ _ Hin) as [Hold|(s & raw & data & He & Hraw & _)].
    + contradiction.
    + exists s, raw, data. auto.
Qed.

Lemma reachable_room_codes_valid_witness :
  reachableAny lobby /\
  (forall roomId room, rooms lobby !! roomId = Some room ->
     roomId <> "" /\ String.length roomId <= 12 /\
     exists raw, normalizeRoomId raw = roomId).
Proof.
  split; [exact lobby_reachableAny|].
  exact (proj1 (reachable_room_codes_valid lobby lobby_reachableAny)).
Defined.

(** ** Broadcasts *)

Section Broadcasts.

Lemma endCount_app roomId (l1 l2 : list Emit) :
  endCount roomId (l1 ++ l2) = endCount roomId l1 + endCount roomId l2.
Proof. unfold endCount. rewrite List.filter_app, length_app. reflexivity. Qed.

(** The messages of a step, read off the room before and after it. *)
Lemma tickRoomEmits_spec roomId st room :
  rooms st !! roomId = Some room ->
  tickRoomEmits roomId st =
    if (length (obj_values (players room)) <? 2)%nat then []
    else
      let room' := tickRoomObj room in
      let state :=
        EmitState roomId (map snapshot (obj_values (players room'))) (winner room') in
      match winner room, winner room' with
      | None, Some r => [EmitEnd roomId r; state]
      | _, _ => [state]
      end.
Proof.
  intros Hroom. unfold tickRoomEmits. rewrite Hroom.
  destruct (length (obj_values (players room)) <? 2)%nat eqn:Hn; [reflexivity|].
  cbv zeta. rewrite (tickRoomObj_values room Hn).
  unfold tickRoomObj. rewrite Hn.
  set (vals := pinLoop room (map (movePlayer room) (obj_values (players room)))).
  unfold findWinner.
  change (winner (set_players (combine (obj_keys (players room)) vals) room))
    with (winner room).
  change (winPinSeconds (set_players (combine (obj_keys (players room)) vals) room))
    with (winPinSeconds room).
  destruct (List.find _ vals) as [w|]; destruct (winner room) as [r|] eqn:Hw;
    cbn [winner set_winner set_interval set_players]; rewrite ?Hw; reflexivity.
Qed.

(** X18: the messages of a simulation step of a room with two players or
    more.  The step always ends with one [state] message, which lists the
    players in the order of the player table as they are after the step and
    carries the winner recorded after the step; it is preceded by one [end]
    message, naming that winner, exactly when the step records a winner.
    A step of a room with fewer players sends nothing. *)
Theorem tick_announces_new_winner roomId st room :
  rooms st !! roomId = Some room ->
  let room' := tickRoomObj room in
  let state := EmitState roomId (map snapshot (obj_values (players room'))) (winner room') in
  rooms (tickRoom roomId st) !! roomId = Some room' /\
  (2 <= playerCount room ->
   tickRoomEmits roomId st =
     match winner room, winner room' with
     | None, Some r => [EmitEnd roomId r; state]
     | _, _ => [state]
     end) /\
  (playerCount room < 2 -> tickRoomEmits roomId st = []).
Proof.
  intros Hroom. cbv zeta. rewrite (tickRoomEmits_spec _ _ _ Hroom).
  unfold playerCount. rewrite obj_keys_length, <- (obj_values_length (players room)).
  split; [|split].
  - unfold tickRoom. rewrite Hroom. cbn [rooms]. apply lookup_insert_eq.
  - intros Hn. apply Nat.ltb_ge in Hn. rewrite Hn. reflexivity.
  - intros Hn. apply Nat.ltb_lt in Hn. rewrite Hn. reflexivity.
Qed.

Lemma tick_announces_new_winner_witness :
  rooms lobby !! "TEST" = Some lobbyRoom /\
  rooms (tickRoom "TEST" lobby) !! "TEST" = Some (tickRoomObj lobbyRoom).
Proof.
  split; [exact lobby_room|].
  exact (proj1 (tick_announces_new_winner "TEST" lobby lobbyRoom lobby_room)).
Defined.

Lemma gameOpen_same roomId st st' :
  rooms st' !! roomId = rooms st !! roomId -> gameOpen roomId st' = gameOpen roomId st.
Proof. unfold gameOpen. intros ->. reflexivity. Qed.

Lemma gameOpen_closed roomId st st' :
  gameOpen roomId st = false ->
  (rooms st !! roomId = None -> rooms st' !! roomId = None) ->
  (forall room, rooms st !! roomId = Some room -> winner room <> None ->
     match rooms st' !! roomId with
     | Some room' => winner room' <> None
     | None => True
     end) ->
  gameOpen roomId st' = false.
Proof.
  unfold gameOpen. intros Hclosed Habsent Hwon.
  destruct (rooms st !! roomId) as [room|] eqn:Hroom.
  - apply bool_decide_eq_false_1 in Hclosed. specialize (Hwon room eq_refl Hclosed).
    destruct (rooms st' !! roomId) as [room'|]; [|reflexivity].
    apply bool_decide_eq_false_2, Hwon.
  - rewrite (Habsent eq_refl). reflexivity.
Qed.

Lemma joinRoomEmits_no_end roomId socket raw data st :
  endCount roomId (joinRoomEmits socket raw data st) = 0.
Proof.
  unfold joinRoomEmits. cbv zeta. destruct (_ || _); [reflexivity|].
  destruct (assignRole _); reflexivity.
Qed.

Lemma disconnectEmits_no_end roomId socket st :
  endCount roomId (disconnectEmits socket st) = 0.
Proof.
  unfold disconnectEmits. destruct (currentRoomId socket st) as [r|]; [|reflexivity].
  destruct (rooms st !! r); reflexivity.
Qed.

Lemma none_not_none {A} (o o' : option A) :
  (o' <> None -> o <> None) -> o = None -> o' = None.
Proof.
  intros H E. destruct o' as [a|]; [|reflexivity].
  exfalso. apply H; [discriminate | exact E].
Qed.

Lemma tickRoom_end_budget roomId r st :
  endCount roomId (tickRoomEmits r st) + (if gameOpen roomId (tickRoom r st) then 1 else 0)
  <= (if gameOpen roomId st then 1 else 0).
Proof.
  destruct (decide (r = roomId)) as [->|Hne].
  - destruct (rooms st !! roomId) as [room|] eqn:Hroom.
    2:{ unfold tickRoomEmits, tickRoom. rewrite Hroom. unfold endCount.
        cbn [List.filter length]. lia. }
    rewrite (tickRoomEmits_spec _ _ _ Hroom).
    assert (gameOpen roomId (tickRoom roomId st)
            = bool_decide (winner (tickRoomObj room) = None)) as ->.
    { unfold gameOpen, tickRoom. rewrite Hroom. cbn [rooms].
      rewrite lookup_insert_eq. reflexivity. }
    assert (gameOpen roomId st = bool_decide (winner room = None)) as ->.
    { unfold gameOpen. rewrite Hroom. reflexivity. }
    destruct (length (obj_values (players room)) <? 2)%nat eqn:Hn.
    + unfold tickRoomObj. rewrite Hn. unfold endCount. cbn [List.filter length].
      destruct (bool_decide _); lia.
    + cbv zeta.
      assert (winner room <> None -> winner (tickRoomObj room) = winner room) as Hkeep.
      { intros Hw. unfold tickRoomObj. rewrite Hn.
        destruct (findWinner _ _); [|reflexivity].
        destruct (winner room) eqn:E; [|contradiction].
        change (winner (set_players ?ps room)) with (winner room).
        rewrite E. exact E. }
      destruct (winner room) as [w|] eqn:Hw.
      * rewrite Hkeep by discriminate. unfold endCount. cbn [List.filter isEnd length].
        rewrite !bool_decide_eq_false_2 by discriminate. lia.
      * rewrite (bool_decide_eq_true_2 (None = None)) by reflexivity.
        destruct (winner (tickRoomObj room)) as [w'|]; unfold endCount;
          cbn [List.filter isEnd length].
        -- rewrite (bool_decide_eq_true_2 (roomId = roomId)) by reflexivity.
           rewrite bool_decide_eq_false_2 by discriminate. cbn [length]. lia.
        -- destruct (bool_decide _); lia.
  - assert (endCount roomId (tickRoomEmits r st) = 0) as ->.
    { unfold tickRoomEmits. destruct (rooms st !! r) as [room|]; [|reflexivity].
      destruct (_ <? 2)%nat; [reflexivity|]. cbv zeta.
      destruct (findWinner _ _); [destruct (winner room)|];
        unfold endCount; cbn; rewrite ?bool_decide_eq_false_2 by exact Hne; reflexivity. }
    rewrite (gameOpen_same roomId st (tickRoom r st)); [lia|].
    apply tickRoom_other_room, Hne.
Qed.

(** An action that is no join for the room sends at most one [end] to it,
    only while its game is open, and closes the game when it does; a closed
    game stays closed. *)
Lemma act_end_budget roomId st a :
  serverOk st -> notJoinOf roomId a ->
  endCount roomId (actEmits st a) + (if gameOpen roomId (act st a) then 1 else 0)
  <= (if gameOpen roomId st then 1 else 0).
Proof.
  intros Hok Hjoin.
  assert (forall st', (gameOpen roomId st = false -> gameOpen roomId st' = false) ->
            0 + (if gameOpen roomId st' then 1 else 0) <= (if gameOpen roomId st then 1 else 0))
    as Hmono.
  { intros st' H. destruct (gameOpen roomId st); [destruct (gameOpen roomId st'); lia|].
    rewrite (H eq_refl). lia. }
  destruct a as [[s|s raw data|s data|s|r]|r]; cbn [act actEmits step stepEmits].
  - apply Hmono. destruct (connected s st); auto.
  - destruct (connected s st); [|apply Hmono; auto].
    rewrite joinRoomEmits_no_end. apply Hmono. intros Hc. rewrite <- Hc.
    apply gameOpen_same, joinRoom_other_room. exact (Hjoin s raw data eq_refl).
  - apply Hmono. destruct (connected s st); [|auto]. intros Hc.
    apply (gameOpen_closed roomId st _ Hc).
    + apply none_not_none, input_room_origin.
    + intros room Hroom Hw. rewrite (input_frozen _ _ _ _ _ Hroom Hw). exact Hw.
  - destruct (connected s st); [|apply Hmono; auto].
    rewrite disconnectEmits_no_end. apply Hmono. intros Hc.
    apply (gameOpen_closed roomId st _ Hc); cbn [rooms].
    + apply none_not_none, disconnect_room_origin.
    + intros room Hroom Hw.
      assert (running (interval room) = false) as Hstop.
      { pose proof (Hok _ _ Hroom) as (_ & _ & Hl & _). unfold loopInv in Hl.
        destruct (running (interval room)); [|reflexivity].
        destruct (proj1 Hl eq_refl) as [_ Hnone]. contradiction. }
      pose proof (disconnect_stopped s _ _ _ Hroom Hstop) as Hd.
      destruct (rooms (disconnect s st) !! roomId) as [room'|]; [|exact I].
      destruct Hd as [-> _]. exact Hw.
  - destruct (timerLive r st); [|apply Hmono; auto]. apply tickRoom_end_budget.
  - apply tickRoom_end_budget.
Qed.

Lemma run_end_budget roomId trace :
  Forall (notJoinOf roomId) trace ->
  forall st, serverOk st ->
    endCount roomId (runEmits st trace) <= (if gameOpen roomId st then 1 else 0).
Proof.
  induction 1 as [|a trace Ha _ IH]; intros st Hok; cbn [runEmits].
  - unfold endCount. cbn. lia.
  - rewrite endCount_app.
    pose proof (act_end_budget roomId st a Hok Ha) as Hstep.
    pose proof (IH _ (act_serverOk _ a Hok)) as Hrest.
    destruct (gameOpen roomId (act st a)); lia.
Qed.

(** X19: from any state the server can reach, along any sequence of
    events and timer callbacks (for whatever rooms) that contains no
    [joinRoom] for a room, that room is sent at most one [end] message, and
    none at all when it does not exist or already has a winner at the
    start. *)
Theorem end_sent_at_most_once st roomId trace :
  reachableAny st ->
  Forall (notJoinOf roomId) trace ->
  endCount roomId (runEmits st trace) <= 1 /\
  (gameOpen roomId st = false -> endCount roomId (runEmits st trace) = 0).
Proof.
  intros Hreach Htrace.
  pose proof (run_end_budget roomId trace Htrace st (reachableAny_serverOk _ Hreach)) as H.
  split.
  - destruct (gameOpen roomId st); lia.
  - intros Hc. rewrite Hc in H. lia.
Qed.

Lemma end_sent_at_most_once_witness :
  reachableAny lobby /\
  Forall (notJoinOf "TEST")
    [Handle (Input "a" pressRight); Fire "TEST"; Handle (Disconnect "b")] /\
  endCount "TEST"
    (runEmits lobby [Handle (Input "a" pressRight); Fire "TEST"; Handle (Disconnect "b")])
  <= 1.
Proof.
  assert (Forall (notJoinOf "TEST")
            [Handle (Input "a" pressRight); Fire "TEST"; Handle (Disconnect "b")]) as H2
    by (repeat (first [apply Forall_nil_2 | apply Forall_cons_2]);
        intros socket raw data E; discriminate).
  split; [exact lobby_reachableAny|]. split; [exact H2|].
  exact (proj1 (end_sent_at_most_once lobby "TEST" _ lobby_reachableAny H2)).
Defined.

Lemma disconnect_playersOf socket st roomId room :
  currentRoomId socket st = Some roomId -> rooms st !! roomId = Some room ->
  playersOf roomId (disconnect socket st) = obj_delete socket (players room).
Proof.
  intros Hc Hroom. rewrite (disconnect_found _ _ _ _ Hc Hroom). cbv zeta.
  unfold playersOf. cbn [rooms].
  destruct (obj_delete socket (players room)) as [|kv rest]; cbn [length Nat.eqb].
  - rewrite lookup_delete_eq. reflexivity.
  - rewrite lookup_insert_eq. destruct (_ && _); reflexivity.
Qed.

Lemma tickRoomEmits_no_lobby r st rid n : EmitLobby rid n ∉ tickRoomEmits r st.
Proof.
  intros Hin. unfold tickRoomEmits in Hin.
  destruct (rooms st !! r) as [room|]; [|apply elem_of_nil in Hin; contradiction].
  destruct (_ <? 2)%nat; [apply elem_of_nil in Hin; contradiction|].
  cbv zeta in Hin.
  destruct (findWinner _ _); [destruct (winner room)|];
    repeat (apply elem_of_cons in Hin as [Hin|Hin]; [discriminate|]);
    apply elem_of_nil in Hin; contradiction.
Qed.

(** X20: every [lobby] message tells the truth: the count it carries is
    the number of players the room has once the event is handled (0 when a
    disconnect has destroyed the room), and it goes to the room the event
    works on.  Only joins and disconnects send it, and a join that is
    refused sends nothing. *)
Theorem lobby_count_is_membership st a :
  (forall rid n, EmitLobby rid n ∈ actEmits st a ->
     n = length (playersOf rid (act st a)) /\ actionRoom st a = Some rid /\
     ((exists socket raw data, a = Handle (JoinRoom socket raw data)) \/
      (exists socket, a = Handle (Disconnect socket)))) /\
  (forall socket raw data error,
     a = Handle (JoinRoom socket raw data) ->
     (joinRoom socket raw data st).2 = AckError error -> actEmits st a = []).
Proof.
  split.
  - intros rid n Hin.
    destruct a as [[s|s raw data|s data|s|r]|r];
      cbn [act actEmits actionRoom step stepEmits eventRoom] in *.
    + apply elem_of_nil in Hin. contradiction.
    + destruct (connected s st); [|apply elem_of_nil in Hin; contradiction].
      unfold joinRoomEmits in Hin. cbv zeta in Hin.
      destruct (bool_decide (normalizeRoomId raw = "")) eqn:E1;
        [apply elem_of_nil in Hin; contradiction|].
      destruct (12 <? String.length (normalizeRoomId raw))%nat eqn:E2;
        [apply elem_of_nil in Hin; contradiction|].
      cbn [orb] in Hin. apply bool_decide_eq_false_1 in E1. apply Nat.ltb_ge in E2.
      rewrite createRoomIfNeeded_room in Hin.
      pose proof (joinRoom_valid s raw data st E1 E2) as Hjoin. cbv zeta in Hjoin.
      destruct (assignRole (default newRoom (rooms st !! normalizeRoomId raw)))
        as [role|] eqn:Hrole; [|apply elem_of_nil in Hin; contradiction].
      apply list_elem_of_singleton in Hin. injection Hin as -> ->.
      assert ((joinRoom s raw data st).2 = AckOk role
                (configOf (default newRoom (rooms st !! normalizeRoomId raw)))) as Hack.
      { rewrite Hjoin. cbn [snd]. unfold configOf. destruct (_ && _); reflexivity. }
      destruct (joinRoom_accepted_players _ _ _ _ _ _ Hack) as [Hnew _].
      rewrite Hnew, obj_keys_length.
      assert (players (default newRoom (rooms st !! normalizeRoomId raw))
              = playersOf (normalizeRoomId raw) st) as ->
        by (unfold playersOf; destruct (rooms st !! normalizeRoomId raw); reflexivity).
      split; [reflexivity|]. split; [reflexivity|]. left. eauto.
    + apply elem_of_nil in Hin. contradiction.
    + destruct (connected s st); [|apply elem_of_nil in Hin; contradiction].
      unfold disconnectEmits in Hin.
      destruct (currentRoomId s st) as [roomId|] eqn:Hc;
        [|apply elem_of_nil in Hin; contradiction].
      destruct (rooms st !! roomId) as [room|] eqn:Hroom;
        [|apply elem_of_nil in Hin; contradiction].
      apply list_elem_of_singleton in Hin. injection Hin as -> ->.
      split; [|split; [reflexivity | right; eauto]].
      rewrite obj_keys_length.
      rewrite <- (disconnect_playersOf _ _ _ _ Hc Hroom). reflexivity.
    + destruct (timerLive r st); [|apply elem_of_nil in Hin; contradiction].
      exfalso. exact (tickRoomEmits_no_lobby _ _ _ _ Hin).
    + exfalso. exact (tickRoomEmits_no_lobby _ _ _ _ Hin).
  - intros socket raw data error -> Hack. cbn [actEmits stepEmits].
    destruct (connected socket st); [|reflexivity].
    unfold joinRoomEmits. unfold joinRoom in Hack. cbv zeta in Hack |- *.
    destruct (_ || _); [reflexivity|].
    cbn [set_roomId rooms sockets] in Hack.
    destruct (assignRole _); [cbn in Hack; discriminate | reflexivity].
Qed.

End Broadcasts.

(** ** Rooms do not interfere *)

Lemma input_other_room socket data st rid :
  currentRoomId socket st <> Some rid ->
  rooms (input socket data st) !! rid = rooms st !! rid.
Proof.
  intros Hne. unfold input.
  destruct (currentRoomId socket st) as [roomId|]; [|reflexivity].
  destruct (rooms st !! roomId) as [room|]; [|reflexivity].
  destruct (obj_get socket (players room)); [|reflexivity].
  destruct (bool_decide _); [reflexivity|]. cbn [rooms].
  apply lookup_insert_ne. congruence.
Qed.

Lemma disconnect_other_room socket st rid :
  currentRoomId socket st <> Some rid ->
  rooms (disconnect socket st) !! rid = rooms st !! rid.
Proof.
  intros Hne.
  destruct (currentRoomId socket st) as [roomId|] eqn:Hc;
    [|unfold disconnect; rewrite Hc; reflexivity].
  destruct (rooms st !! roomId) as [room|] eqn:Hroom;
    [|unfold disconnect; rewrite Hc, Hroom; reflexivity].
  rewrite (disconnect_found _ _ _ _ Hc Hroom). cbv zeta. cbn [rooms].
  destruct (_ =? 0)%nat.
  - apply lookup_delete_ne. congruence.
  - apply lookup_insert_ne. congruence.
Qed.

Lemma tickRoomEmits_target r st m :
  m ∈ tickRoomEmits r st ->
  match m with
  | EmitLobby r' _ | EmitEnd r' _ | EmitState r' _ _ => r' = r
  end.
Proof.
  intros Hin. unfold tickRoomEmits in Hin.
  destruct (rooms st !! r) as [room|]; [|apply elem_of_nil in Hin; contradiction].
  destruct (_ <? 2)%nat; [apply elem_of_nil in Hin; contradiction|].
  cbv zeta in Hin.
  destruct (findWinner _ _); [destruct (winner room)|];
    repeat (apply elem_of_cons in Hin as [Hin|Hin]; [subst m; reflexivity|]);
    apply elem_of_nil in Hin; contradiction.
Qed.

(** X21: rooms do not interfere.  Every event and every timer callback
    works on at most one room: the one named by a join's normalised code, by
    the connection variable of an input or a disconnect, or by the code the
    callback is run with.  Every other room of the registry is exactly as it
    was, and all messages sent go to that one room. *)
Theorem action_touches_one_room st a rid :
  actionRoom st a <> Some rid ->
  rooms (act st a) !! rid = rooms st !! rid /\
  (forall m, m ∈ actEmits st a ->
     match m with
     | EmitLobby r _ | EmitEnd r _ | EmitState r _ _ => r <> rid
     end).
Proof.
  intros Hne. split.
  - destruct a as [[s|s raw data|s data|s|r]|r]; cbn [act actionRoom step eventRoom] in *.
    + destruct (connected s st); reflexivity.
    + destruct (connected s st); [|reflexivity].
      apply joinRoom_other_room. congruence.
    + destruct (connected s st); [|reflexivity]. apply input_other_room, Hne.
    + destruct (connected s st); [|reflexivity]. cbn [rooms].
      apply disconnect_other_room, Hne.
    + destruct (timerLive r st); [|reflexivity]. apply tickRoom_other_room. congruence.
    + apply tickRoom_other_room. congruence.
  - intros m Hin.
    destruct a as [[s|s raw data|s data|s|r]|r];
      cbn [actEmits actionRoom stepEmits eventRoom] in *.
    + apply elem_of_nil in Hin. contradiction.
    + destruct (connected s st); [|apply elem_of_nil in Hin; contradiction].
      unfold joinRoomEmits in Hin. cbv zeta in Hin.
      destruct (_ || _); [apply elem_of_nil in Hin; contradiction|].
      destruct (assignRole _); [|apply elem_of_nil in Hin; contradiction].
      apply list_elem_of_singleton in Hin. subst m. congruence.
    + apply elem_of_nil in Hin. contradiction.
    + destruct (connected s st); [|apply elem_of_nil in Hin; contradiction].
      unfold disconnectEmits in Hin.
      destruct (currentRoomId s st) as [roomId|];
        [|apply elem_of_nil in Hin; contradiction].
      destruct (rooms st !! roomId) as [room|];
        [|apply elem_of_nil in Hin; contradiction].
      apply list_elem_of_singleton in Hin. subst m. congruence.
    + destruct (timerLive r st); [|apply elem_of_nil in Hin; contradiction].
      pose proof (tickRoomEmits_target _ _ _ Hin) as Ht. destruct m; congruence.
    + pose proof (tickRoomEmits_target _ _ _ Hin) as Ht. destruct m; congruence.
Qed.

Lemma action_touches_one_room_witness :
  actionRoom lobby (Handle (JoinRoom "c" (Some "den") None)) <> Some "TEST" /\
  rooms (act lobby (Handle (JoinRoom "c" (Some "den") None))) !! "TEST"
  = rooms lobby !! "TEST".
Proof.
  assert (actionRoom lobby (Handle (JoinRoom "c" (Some "den") None)) <> Some "TEST") as H
    by (vm_compute; discriminate).
  split; [exact H|].
  exact (proj1 (action_touches_one_room lobby (Handle (JoinRoom "c" (Some "den") None))
                  "TEST" H)).
Defined.

(** ** Connections and room codes *)

Lemma joinRoom_sockets socket rid data st :
  sockets (joinRoom socket rid data st).1
  = <[socket := Some (normalizeRoomId rid)]> (sockets st).
Proof.
  unfold joinRoom. cbv zeta. destruct (_ || _); [reflexivity|].
  destruct (assignRole _); reflexivity.
Qed.

(** X22: every [joinRoom], accepted or refused, points the connection at
    the normalised code it sent.  Afterwards the connection's inputs and its
    disconnect leave every other room untouched, a room in which the
    connection still has a player included. *)
Theorem connection_follows_latest_join socket rid data st :
  let st' := (joinRoom socket rid data st).1 in
  let code := normalizeRoomId rid in
  sockets st' = <[socket := Some code]> (sockets st) /\
  currentRoomId socket st' = (if bool_decide (code = "") then None else Some code) /\
  (forall roomId, roomId <> code ->
     (forall d, rooms (input socket d st') !! roomId = rooms st' !! roomId) /\
     rooms (disconnect socket st') !! roomId = rooms st' !! roomId).
Proof.
  cbv zeta.
  assert (currentRoomId socket (joinRoom socket rid data st).1
          = if bool_decide (normalizeRoomId rid = "") then None
            else Some (normalizeRoomId rid)) as Hc.
  { unfold currentRoomId. rewrite joinRoom_sockets, lookup_insert_eq. reflexivity. }
  split; [apply joinRoom_sockets|]. split; [exact Hc|].
  intros roomId Hne.
  assert (currentRoomId socket (joinRoom socket rid data st).1 <> Some roomId) as Hcur.
  { rewrite Hc. destruct (bool_decide _); congruence. }
  split.
  - intros d. apply input_other_room, Hcur.
  - apply disconnect_other_room, Hcur.
Qed.

Section RoomCodes.

Lemma is_space_upper c : is_space (upper_char c) = is_space c.
Proof. destruct c as [[] [] [] [] [] [] [] []]; reflexivity. Qed.

Lemma upper_char_twice c : upper_char (upper_char c) = upper_char c.
Proof. destruct c as [[] [] [] [] [] [] [] []]; reflexivity. Qed.

Lemma toUpperCase_twice s : toUpperCase (toUpperCase s) = toUpperCase s.
Proof.
  induction s as [|c s IH]; cbn; [reflexivity|]. rewrite upper_char_twice, IH. reflexivity.
Qed.

Lemma toUpperCase_length s : String.length (toUpperCase s) = String.length s.
Proof. induction s as [|c s IH]; cbn; [reflexivity|]. rewrite IH. reflexivity. Qed.

Lemma trimStart_upper s : trimStart (toUpperCase s) = toUpperCase (trimStart s).
Proof.
  induction s as [|c s IH]; cbn; [reflexivity|]. rewrite is_space_upper.
  destruct (is_space c); [exact IH | reflexivity].
Qed.

Lemma trimEnd_upper s : trimEnd (toUpperCase s) = toUpperCase (trimEnd s).
Proof.
  induction s as [|c s IH]; cbn; [reflexivity|]. rewrite IH, is_space_upper.
  destruct (trimEnd s) as [|c' t]; cbn; [|reflexivity].
  destruct (is_space c); reflexivity.
Qed.

Lemma trimEnd_twice s : trimEnd (trimEnd s) = trimEnd s.
Proof.
  induction s as [|c s IH]; cbn; [reflexivity|].
  destruct (trimEnd s) as [|c' t] eqn:E.
  - destruct (is_space c) eqn:Ec; cbn; [reflexivity|]. rewrite Ec. reflexivity.
  - cbn [trimEnd] in IH |- *. rewrite IH. reflexivity.
Qed.

Lemma trimStart_length s : String.length (trimStart s) <= String.length s.
Proof.
  induction s as [|c s IH]; cbn; [lia|]. destruct (is_space c); cbn; lia.
Qed.

Lemma trimEnd_length s : String.length (trimEnd s) <= String.length s.
Proof.
  induction s as [|c s IH]; cbn; [lia|].
  destruct (trimEnd s) as [|c' t]; [destruct (is_space c)|]; cbn in *; lia.
Qed.

Lemma trimStart_headed s : headed (trimStart s).
Proof.
  induction s as [|c s IH]; cbn; [exact I|].
  destruct (is_space c) eqn:E; [exact IH | exact E].
Qed.

Lemma trimEnd_headed s : headed s -> headed (trimEnd s).
Proof.
  destruct s as [|c s]; cbn; [auto|]. intros Hc.
  destruct (trimEnd s); [rewrite Hc|]; exact Hc.
Qed.

Lemma headed_trimStart s : headed s -> trimStart s = s.
Proof. destruct s as [|c s]; cbn; [reflexivity|]. intros ->. reflexivity. Qed.

Lemma trim_twice s : trim (trim s) = trim s.
Proof.
  unfold trim.
  rewrite (headed_trimStart (trimEnd (trimStart s)))
    by (apply trimEnd_headed, trimStart_headed).
  apply trimEnd_twice.
Qed.

Lemma trim_upper s : trim (toUpperCase s) = toUpperCase (trim s).
Proof. unfold trim. rewrite trimStart_upper, trimEnd_upper. reflexivity. Qed.

(** X23: the room-code normalisation gives a normal form.  For a code in
    the ASCII range, normalising the normalised code changes nothing, the
    normalised code is its own trimmed and its own upper-case form, a
    client that upper-cases the code before sending it (as the game client
    does) reaches the same room, and normalising never makes a code
    longer. *)
Theorem normalizeRoomId_normal_form rid :
  asciiOnly (default "" rid) = true ->
  let code := normalizeRoomId rid in
  normalizeRoomId (Some code) = code /\
  trim code = code /\
  toUpperCase code = code /\
  normalizeRoomId (Some (toUpperCase (default "" rid))) = code /\
  String.length code <= String.length (default "" rid).
Proof.
  intros _. cbv zeta. unfold normalizeRoomId.
  set (s := default "" rid). cbn [from_option id].
  split; [|split; [|split; [|split]]].
  - rewrite trim_upper, trim_twice. apply toUpperCase_twice.
  - rewrite trim_upper, trim_twice. reflexivity.
  - apply toUpperCase_twice.
  - rewrite trim_upper. apply toUpperCase_twice.
  - rewrite toUpperCase_length. unfold trim.
    pose proof (trimEnd_length (trimStart s)). pose proof (trimStart_length s). lia.
Qed.

Lemma normalizeRoomId_normal_form_witness :
  asciiOnly (default "" (Some " test ")) = true /\
  normalizeRoomId (Some (normalizeRoomId (Some " test "))) = normalizeRoomId (Some " test ").
Proof.
  assert (asciiOnly (default "" (Some " test ")) = true) as H by reflexivity.
  split; [exact H|].
  exact (proj1 (normalizeRoomId_normal_form (Some " test ") H)).
Defined.

End RoomCodes.

(** * The client *)

Section ClientFacts.

Lemma div_eucl_nonneg a b : (0 <= a)%Z -> (0 < b)%Z -> (0 <= fst (Z.div_eucl a b))%Z.
Proof.
  intros Ha Hb. pose proof (Z_div_mod a b ltac:(lia)) as H.
  destruct (Z.div_eucl a b) as [q r]. cbn [fst]. nia.
Qed.

(** A number that is not negative, divided by a positive finite number, is
    a number that is not negative. *)
Lemma div_nonneg x y my ey :
  sf_nonneg (Prim2SF x) -> Prim2SF y = S754_finite false my ey ->
  sf_nonneg (Prim2SF (x / y)).
Proof.
  intros Hx Hy. rewrite div_spec, Hy. unfold SF64div.
  destruct (Prim2SF x) as [sx|sx| |sx mx ex]; cbn [sf_nonneg] in Hx; try contradiction.
  - exact I.
  - subst sx. reflexivity.
  - subst sx. cbn [SFdiv xorb]. unfold SFdiv_core_binary. cbv zeta.
    match goal with
    | |- context [Z.div_eucl ?a ?b] =>
        pose proof (div_eucl_nonneg a b) as Hq; destruct (Z.div_eucl a b) as [q r]
    end.
    cbn [fst] in Hq.
    assert (0 <= q)%Z as Hq'.
    { apply Hq; [|lia].
      destruct (_ - _ - _)%Z; try lia. apply Z.shiftl_nonneg. lia. }
    pose proof (binary_round_aux_signed false q
                  (Z.min (fexp prec emax (Zdigits2 (Z.pos mx) + ex - (Zdigits2 (Z.pos my) + ey)))
                         (ex - ey))
                  (new_location (Z.pos my) r) Hq') as Hs.
    destruct (binary_round_aux _ _ _ _ _ _); cbn in Hs |- *; auto.
Qed.

(** X24: the client's pin progress bar never overflows its frame.  For
    every player of every state the server can reach, with the arena
    settings the server sends, [drawThumb] fills a share of the bar between
    0 and 1, although the pin timer itself may exceed [winPinSeconds]; it
    draws no bar exactly when the pin timer is not above 0. *)
Theorem progress_bar_within_frame st roomId room p :
  reachableAny st -> rooms st !! roomId = Some room -> p ∈ obj_values (players room) ->
  match progressBar (configOf room) (snapshot p) with
  | Some pct => flt 0 (p_pinTimer p) /\ fle 0 pct /\ fle pct 1
  | None => (0 <? p_pinTimer p)%float = false
  end.
Proof.
  intros Hreach Hroom Hp.
  pose proof (reachableAny_serverOk _ Hreach _ _ Hroom) as (Hc & _ & _ & _ & _ & Hok & _).
  rewrite list.Forall_forall in Hok. destruct (Hok p Hp) as (Ht & _).
  destruct Hc as (_ & _ & _ & Hs).
  unfold progressBar. cbn [s_pinTimer snapshot cfg_winPinSeconds configOf]. rewrite Hs.
  destruct (0 <? p_pinTimer p)%float eqn:Hpos; [|reflexivity].
  split; [exact Hpos|].
  assert (sf_nonneg (Prim2SF (p_pinTimer p / 2))) as Hq.
  { apply fle_0_nonneg in Ht. eapply div_nonneg; [exact Ht|]. reflexivity. }
  apply fle_0_nonneg in Hq.
  assert (fnum 1) as H1 by (vm_compute; discriminate).
  destruct (Math_min_cases 1 (p_pinTimer p / 2) H1 (proj2 (fle_fnum _ _ Hq)))
    as [[-> Hm]|[-> Hm]].
  - split; assumption.
  - split; reflexivity.
Qed.

Lemma progress_bar_within_frame_witness :
  reachableAny afterWin /\ rooms afterWin !! "TEST" = Some afterWinRoom /\
  champion ∈ obj_values (players afterWinRoom) /\
  match progressBar (configOf afterWinRoom) (snapshot champion) with
  | Some pct => flt 0 (p_pinTimer champion) /\ fle 0 pct /\ fle pct 1
  | None => (0 <? p_pinTimer champion)%float = false
  end.
Proof.
  assert (champion ∈ obj_values (players afterWinRoom)) as H3
    by (exact (obj_get_value _ _ _ afterWin_champion)).
  split; [exact afterWin_reachableAny|]. split; [exact afterWin_room|]. split; [exact H3|].
  exact (progress_bar_within_frame afterWin "TEST" afterWinRoom champion
           afterWin_reachableAny afterWin_room H3).
Defined.

Lemma not_both_sides x :
  (x <? PrimFloat.opp 0.3)%float && (0.3 <? x)%float = false.
Proof.
  destruct (x <? PrimFloat.opp 0.3)%float eqn:H1; [|reflexivity].
  destruct (0.3 <? x)%float eqn:H2; [|reflexivity]. exfalso.
  pose proof (flt_trans _ _ _ H2 H1) as H. vm_compute in H. discriminate.
Qed.

(** X25: the joystick never asks for opposite directions: the flags
    [updateJoystick] sets never have left together with right or up
    together with down, whatever the pointer position; a pointer at the
    centre of the joystick sets no direction at all (there is no division
    by a zero distance); the pressing flag is left as it is.  The raw
    direction the server derives from such flags has the components -1, 0
    or 1 according to the one flag set on each axis. *)
Theorem joystick_never_opposite deltaX deltaY keys :
  let k := updateJoystick deltaX deltaY keys in
  i_left k && i_right k = false /\
  i_up k && i_down k = false /\
  i_pressing k = i_pressing keys /\
  updateJoystick 0 0 keys = mkInputData false false false false (i_pressing keys) /\
  rawDirection k =
    ((if i_left k then -1 else if i_right k then 1 else 0)%float,
     (if i_up k then -1 else if i_down k then 1 else 0)%float).
Proof.
  cbv zeta. unfold updateJoystick. cbv zeta. cbn [i_left i_right i_up i_down i_pressing].
  set (nx := if (0 <? _)%float then (deltaX / _)%float else 0%float).
  set (ny := if (0 <? _)%float then (deltaY / _)%float else 0%float).
  pose proof (not_both_sides nx) as Hx. pose proof (not_both_sides ny) as Hy.
  split; [exact Hx|]. split; [exact Hy|]. split; [reflexivity|]. split; [reflexivity|].
  unfold rawDirection. cbn [i_left i_right i_up i_down]. revert Hx Hy.
  repeat match goal with
         | |- context [(?a <? ?b)%float] => destruct (a <? b)%float
         end;
    cbn [andb]; intros Hx Hy; try discriminate; vm_compute; reflexivity.
Qed.

End ClientFacts.

(** * Timers that fire for any room *)

Lemma tickRoomObj_winner_kept room :
  winner room <> None ->
  winner (tickRoomObj room) = winner room /\ interval (tickRoomObj room) = interval room.
Proof.
  intros Hw. unfold tickRoomObj. destruct (_ <? 2)%nat; [split; reflexivity|].
  destruct (findWinner _ _); [|split; reflexivity].
  change (winner (set_players ?ps room)) with (winner room).
  destruct (winner room) eqn:E; [|contradiction]. split; [exact E | reflexivity].
Qed.

Lemma loopInv_stopped room :
  loopInv room -> winner room <> None -> running (interval room) = false.
Proof.
  intros Hl Hw. unfold loopInv in Hl.
  destruct (running (interval room)); [|reflexivity].
  destruct (proj1 Hl eq_refl) as [_ Hnone]. contradiction.
Qed.

(** X26: the room invariants survive timers that fire for any room at any
    time (the callback reads the connection variable [roomId] when it runs,
    so a timer can step a room other than its own).  In every state the
    server can reach that way, the loop handle of a room holds a live timer
    exactly when the room has two players or more and no winner, no pin
    timer is negative, and at most one player of a room has z = 1. *)
Theorem room_invariants_with_free_timers st roomId room :
  reachableAny st -> rooms st !! roomId = Some room ->
  (running (interval room) = true <-> 2 <= playerCount room /\ winner room = None) /\
  (forall p, p ∈ obj_values (players room) -> fle 0%float (p_pinTimer p)) /\
  dominantCount (obj_values (players room)) <= 1.
Proof.
  intros Hreach Hroom.
  pose proof (reachableAny_serverOk _ Hreach _ _ Hroom) as (_ & _ & Hl & _ & Hd & Hok & _).
  split; [exact Hl|]. split; [|exact Hd].
  intros p Hp. rewrite list.Forall_forall in Hok. apply (Hok p Hp).
Qed.

Lemma room_invariants_with_free_timers_witness :
  reachableAny (act afterWin (Fire "TEST")) /\
  rooms (act afterWin (Fire "TEST")) !! "TEST" = Some (tickRoomObj afterWinRoom) /\
  (running (interval (tickRoomObj afterWinRoom)) = true <->
   2 <= playerCount (tickRoomObj afterWinRoom) /\ winner (tickRoomObj afterWinRoom) = None) /\
  (forall p, p ∈ obj_values (players (tickRoomObj afterWinRoom)) ->
     fle 0%float (p_pinTimer p)) /\
  dominantCount (obj_values (players (tickRoomObj afterWinRoom))) <= 1.
Proof.
  assert (reachableAny (act afterWin (Fire "TEST"))) as H1
    by (exact (reachableAny_act _ (Fire "TEST") afterWin_reachableAny)).
  assert (rooms (act afterWin (Fire "TEST")) !! "TEST" = Some (tickRoomObj afterWinRoom)) as H2.
  { cbn [act]. unfold tickRoom. rewrite afterWin_room. cbn [rooms].
    apply lookup_insert_eq. }
  split; [exact H1|]. split; [exact H2|].
  exact (room_invariants_with_free_timers _ "TEST" _ H1 H2).
Defined.

(** X27: a recorded winner stays until the next join, also when timers
    fire for any room.  In a state the server can reach, after any event or
    timer callback that is no [joinRoom] for a room with a recorded winner,
    the room is gone (a disconnect has emptied it) or still has that winner
    and no live loop handle.  An event of [step] leaves the player table as
    it is or removes the leaving connection's entry; only a timer callback
    run for this room moves its players on. *)
Theorem winner_kept_until_join st roomId room w a :
  reachableAny st -> rooms st !! roomId = Some room -> winner room = Some w ->
  notJoinOf roomId a ->
  match rooms (act st a) !! roomId with
  | Some room' =>
      winner room' = Some w /\ running (interval room') = false /\
      match a with
      | Fire r => r <> roomId -> room' = room
      | Handle (Disconnect socket) =>
          players room' = players room \/
          players room' = obj_delete socket (players room)
      | Handle _ => room' = room
      end
  | None => exists socket, a = Handle (Disconnect socket)
  end.
Proof.
  intros Hreach Hroom Hw Hjoin.
  pose proof (reachableAny_serverOk _ Hreach _ _ Hroom) as (_ & _ & Hl & _).
  assert (winner room <> None) as Hw' by (rewrite Hw; discriminate).
  pose proof (loopInv_stopped _ Hl Hw') as Hstop.
  destruct a as [[s|s raw data|s data|s|r]|r]; cbn [act step].
  - assert (rooms (if connected s st then st
                   else mkServer (rooms st) (<[s := None]> (sockets st))) !! roomId
            = Some room) as -> by (destruct (connected s st); exact Hroom).
    auto.
  - assert (rooms (if connected s st then (joinRoom s raw data st).1 else st) !! roomId
            = Some room) as ->.
    { destruct (connected s st); [|exact Hroom].
      rewrite joinRoom_other_room; [exact Hroom|]. exact (Hjoin s raw data eq_refl). }
    auto.
  - assert (rooms (if connected s st then input s data st else st) !! roomId
            = Some room) as ->.
    { destruct (connected s st); [|exact Hroom]. apply input_frozen; assumption. }
    auto.
  - destruct (connected s st); [|rewrite Hroom; auto]. cbn [rooms].
    destruct (decide (currentRoomId s st = Some roomId)) as [Hc|Hc].
    + rewrite (disconnect_found _ _ _ _ Hc Hroom). cbv zeta. cbn [rooms].
      rewrite Hstop, andb_false_r.
      destruct (length (obj_delete s (players room)) =? 0)%nat.
      * rewrite lookup_delete_eq. eauto.
      * rewrite lookup_insert_eq. cbn [winner interval players set_players]. auto.
    + rewrite (disconnect_other_room _ _ _ Hc), Hroom. auto.
  - assert (timerLive r st = true -> r <> roomId) as Hother.
    { intros Hlive ->. unfold timerLive in Hlive. rewrite Hroom in Hlive. congruence. }
    destruct (timerLive r st); [|rewrite Hroom; auto].
    rewrite (tickRoom_other_room _ _ _ (Hother eq_refl)), Hroom. auto.
  - destruct (decide (r = roomId)) as [->|Hne].
    + unfold tickRoom. rewrite Hroom. cbn [rooms]. rewrite lookup_insert_eq.
      destruct (tickRoomObj_winner_kept room Hw') as [-> ->].
      split; [exact Hw|]. split; [exact Hstop|]. intros Hc. contradiction.
    + rewrite (tickRoom_other_room _ _ _ Hne), Hroom. auto.
Qed.

Lemma winner_kept_until_join_witness :
  reachableAny afterWin /\ rooms afterWin !! "TEST" = Some afterWinRoom /\
  winner afterWinRoom = Some P1 /\ notJoinOf "TEST" (Fire "TEST") /\
  match rooms (act afterWin (Fire "TEST")) !! "TEST" with
  | Some room' =>
      winner room' = Some P1 /\ running (interval room') = false /\
      ("TEST" <> "TEST" -> room' = afterWinRoom)
  | None => exists socket, Fire "TEST" = Handle (Disconnect socket)
  end.
Proof.
  assert (winner afterWinRoom = Some P1) as H3 by reflexivity.
  assert (notJoinOf "TEST" (Fire "TEST")) as H4 by (intros socket raw data E; discriminate).
  split; [exact afterWin_reachableAny|]. split; [exact afterWin_room|].
  split; [exact H3|]. split; [exact H4|].
  exact (winner_kept_until_join afterWin "TEST" afterWinRoom P1 (Fire "TEST")
           afterWin_reachableAny afterWin_room H3 H4).
Defined.
